(** * Multi-account email synchronisation and dispatch: a shallow embedding

    The development follows [server/services/multiAccountEmailService.ts]
    (class [MultiAccountEmailService] and its module-level [sanitizeHtml])
    and the [POST /emails/send] handler of the marketing router.

    - JavaScript strings are sequences of UTF-16 code units ([list N]).
    - The three regular expressions of the source are written as regex
      syntax trees and run by a backtracking matcher with the priorities of
      ECMAScript (greedy and lazy stars, word boundary, flag [i]).
    - Stateful code runs in a state-and-exception monad over a [World]
      holding the database tables, the transporter cache, the rate limiter
      and the outcomes of the external calls still to come.  A thrown
      exception keeps every write made before it, as in the source, which
      uses no transaction.
    - The interleaving of concurrent [getOrCreateTransporter] calls is a
      step relation whose steps are the synchronous segments between two
      [await]s. *)

From Stdlib Require Import ZArith NArith Ascii String List Lia Bool.
From stdpp Require Import base option list gmap.
Import ListNotations.

Local Open Scope Z_scope.

(** ** JavaScript strings *)

Module Js.

Definition jsstring := list N.

(** An ASCII literal as a sequence of code units. *)
Definition js (s : string) : jsstring :=
  map N_of_ascii (list_ascii_of_string s).

(** [s.length] *)
Definition jslength (s : jsstring) : Z := Z.of_nat (length s).

Definition jseqb (a b : jsstring) : bool := bool_decide (a = b).

(** Truthiness of a string value: the empty string is falsy. *)
Definition truthy (s : jsstring) : bool :=
  match s with [] => false | _ :: _ => true end.

(** Truthiness of a possibly [undefined] string. *)
Definition otruthy (o : option jsstring) : bool :=
  match o with Some s => truthy s | None => false end.

(** [o || d] for a possibly [undefined] string [o]. *)
Definition or_else (o : option jsstring) (d : jsstring) : jsstring :=
  match o with
  | Some s => if truthy s then s else d
  | None => d
  end.

(** WhiteSpace and LineTerminator code units, the ones [trim] removes. *)
Definition is_js_space (c : N) : bool :=
  ((c =? 9) || (c =? 10) || (c =? 11) || (c =? 12) || (c =? 13) || (c =? 32)
   || (c =? 160) || (c =? 5760) || ((8192 <=? c) && (c <=? 8202))
   || (c =? 8232) || (c =? 8233) || (c =? 8239) || (c =? 8287)
   || (c =? 12288) || (c =? 65279))%N.

Fixpoint trim_start (s : jsstring) : jsstring :=
  match s with
  | c :: t => if is_js_space c then trim_start t else s
  | [] => []
  end.

(** [s.trim()] *)
Definition trim (s : jsstring) : jsstring :=
  rev (trim_start (rev (trim_start s))).

(** [a.join(sep)] *)
Fixpoint join (sep : jsstring) (l : list jsstring) : jsstring :=
  match l with
  | [] => []
  | [x] => x
  | x :: t => x ++ sep ++ join sep t
  end.

End Js.
Export Js.

(** ** Regular expressions *)

Module Regex.

(** The fragment of the ECMAScript pattern language the source uses.  A
    capture group matches as its body does and is not represented. *)
Inductive regex : Type :=
| Eps
| Chr (cls : N -> bool)
| Boundary
| Cat (r1 r2 : regex)
| Star (greedy : bool) (r : regex).

(** A matcher state is the code unit just before the cursor (for [\b]) and
    the input from the cursor on; a continuation receives the state after a
    partial match and answers with the final state of the whole match. *)
Definition K : Type := option N -> jsstring -> option (option N * jsstring).

(** [\w]: without flag [u] the class is ASCII only, also under flag [i]. *)
Definition is_word (c : N) : bool :=
  (((48 <=? c) && (c <=? 57)) || ((65 <=? c) && (c <=? 90))
   || ((97 <=? c) && (c <=? 122)) || (c =? 95))%N.

Definition is_word_opt (o : option N) : bool :=
  match o with Some c => is_word c | None => false end.

(** Canonicalize of flag [i] (without [u]) restricted to what can equal an
    ASCII pattern character: a code unit of 128 or more never canonicalizes
    to an ASCII one, and an ASCII letter goes to its upper case. *)
Definition upper (c : N) : N :=
  if ((97 <=? c) && (c <=? 122))%N then (c - 32)%N else c.

(** The loop of a quantifier [*] or [*?] with continuation [k]: [n] bounds
    the iterations, each of which must consume input (an iteration that
    matches the empty string is rejected, as in ECMAScript). *)
Fixpoint star_loop (body : K -> K) (greedy : bool) (k : K) (n : nat) : K :=
  fun p s =>
    let more :=
      match n with
      | O => None
      | S n' =>
          body (fun p' s' =>
                  if (length s' <? length s)%nat
                  then star_loop body greedy k n' p' s'
                  else None) p s
      end in
    if greedy
    then match more with Some z => Some z | None => k p s end
    else match k p s with Some z => Some z | None => more end.

(** Backtracking match of [r] at the cursor, then [k]. *)
Fixpoint rx (r : regex) (k : K) : K :=
  match r with
  | Eps => k
  | Chr cls => fun _ s =>
      match s with
      | c :: t => if cls c then k (Some c) t else None
      | [] => None
      end
  | Boundary => fun p s =>
      if xorb (is_word_opt p) (is_word_opt (head s)) then k p s else None
  | Cat r1 r2 => rx r1 (rx r2 k)
  | Star g a => fun p s => star_loop (rx a) g k (length s) p s
  end.

(** The match of [r] starting exactly at the cursor, if any. *)
Definition match_here (r : regex) (p : option N) (s : jsstring)
  : option (option N * jsstring) :=
  rx r (fun p' s' => Some (p', s')) p s.

(** [s.replace(/r/g, "")]: scan from the left; at a match drop the matched
    text and go on after it (after one more code unit when the match is
    empty); elsewhere keep the code unit at the cursor. *)
Fixpoint remove_from (r : regex) (fuel : nat) (p : option N) (s : jsstring)
  : jsstring :=
  match fuel with
  | O => s
  | S fuel' =>
      let keep :=
        match s with
        | c :: t => c :: remove_from r fuel' (Some c) t
        | [] => []
        end in
      match match_here r p s with
      | Some (p', s') =>
          if (length s' <? length s)%nat then remove_from r fuel' p' s'
          else keep
      | None => keep
      end
  end.

Definition remove_all (r : regex) (s : jsstring) : jsstring :=
  remove_from r (S (length s)) None s.

(** Pattern constructors. *)
Definition chr (c : ascii) : regex := Chr (fun x => (x =? N_of_ascii c)%N).
Definition chr_i (c : ascii) : regex :=
  Chr (fun x => (upper x =? upper (N_of_ascii c))%N).
Definition not_chr (c : ascii) : regex :=
  Chr (fun x => negb (x =? N_of_ascii c)%N).
Definition any : regex := Chr (fun _ => true).
Definition word : regex := Chr is_word.
Definition one_or_more (r : regex) : regex := Cat r (Star true r).

Fixpoint lit_i (s : string) : regex :=
  match s with
  | EmptyString => Eps
  | String c t => Cat (chr_i c) (lit_i t)
  end.

Fixpoint lit (s : string) : regex :=
  match s with
  | EmptyString => Eps
  | String c t => Cat (chr c) (lit t)
  end.

End Regex.
Export Regex.

(** ** The sanitizers *)

(** [/<script\b[^>]*>([\s\S]*?)<\/script>/gim] *)
Definition script_re : regex :=
  Cat (lit_i "<script")
   (Cat Boundary
    (Cat (Star true (not_chr ">"))
     (Cat (chr_i ">")
      (Cat (Star false any) (lit_i "</script>"))))).

(** The double quote, code unit 34. *)
Definition dquote : ascii := "034"%char.

(** [/on\w+=Q[^Q]*Q/gim], where Q stands for the double quote. *)
Definition handler_re : regex :=
  Cat (lit_i "on")
   (Cat (one_or_more word)
    (Cat (chr_i "=")
     (Cat (chr_i dquote)
      (Cat (Star true (not_chr dquote)) (chr_i dquote))))).

(** [/<[^>]*>/g] *)
Definition tag_re : regex :=
  Cat (chr "<") (Cat (Star true (not_chr ">")) (chr ">")).

(** [sanitizeHtml] of multiAccountEmailService.ts. *)
Definition sanitizeHtml (html : jsstring) : jsstring :=
  if negb (truthy html) then []
  else
    let sanitized := remove_all script_re html in
    let sanitized := remove_all handler_re sanitized in
    sanitized.

(** [html.replace(/<[^>]*>/g, '').trim()] of the send handler. *)
Definition strip_tags (html : jsstring) : jsstring :=
  trim (remove_all tag_re html).

(** Vocabulary for the properties of the patterns. *)

(** A continuation that only ever moves the cursor forward. *)
Definition shrinks (k : K) : Prop :=
  forall p s p' s', k p s = Some (p', s') -> s' `suffix_of` s.

(** A continuation that accepts no text free of the code unit [c]. *)
Definition blind (c : N) (k : K) : Prop :=
  forall p s, Forall (fun x => x <> c) s -> k p s = None.

(** The code unit before the cursor once [l] has been read. *)
Definition last_of (p : option N) (l : jsstring) : option N :=
  fold_left (fun _ c => Some c) l p.

(** [t] is [s] up to the case of ASCII letters. *)
Definition same_i (t : jsstring) (s : string) : Prop :=
  map upper t = map upper (js s).

Definition lt_sign : N := 60%N.
Definition gt_sign : N := 62%N.
Definition eq_sign : N := 61%N.
Definition quote_sign : N := 34%N.
Definition slash_sign : N := 47%N.

(** [needle] occurs in [hay]. *)
Fixpoint starts_with (needle hay : jsstring) : bool :=
  match needle, hay with
  | [], _ => true
  | a :: n, b :: h => (a =? b)%N && starts_with n h
  | _ :: _, [] => false
  end.

Fixpoint occurs (needle hay : jsstring) : bool :=
  starts_with needle hay
  || match hay with
     | [] => false
     | _ :: h => occurs needle h
     end.

(** ** Data model *)

(** Rows of the tables the source reads and writes.  The schema module
    ([@shared/schema]) declares them; the fields are the columns the source
    names.  Row ids are generated by the database. *)

Record Account := mkAccount {
  acc_id : jsstring;
  acc_userId : jsstring;
  acc_provider : option jsstring;
  acc_emailAddress : option jsstring;
  acc_accountName : jsstring;
  acc_isDefault : bool;
  acc_isActive : bool;
  acc_createdAt : Z;
  acc_smtpHost : jsstring;
  acc_smtpPort : option Z;
  acc_smtpSecure : option bool;
  acc_username : option jsstring;
  acc_password : jsstring
}.

Record Thread := mkThread {
  th_id : nat;
  th_externalThreadId : option jsstring;
  th_subject : option jsstring;
  th_participantEmails : list jsstring;
  th_lastMessageAt : Z;
  th_messageCount : Z;
  th_createdBy : jsstring
}.

Inductive MessageType := MtSent | MtReceived | MtDraft.

Record Message := mkMessage {
  msg_id : nat;
  msg_threadId : nat;
  msg_emailAccountId : option jsstring;
  msg_externalMessageId : option jsstring;
  msg_fromEmail : jsstring;
  msg_toEmails : list jsstring;
  msg_ccEmails : list jsstring;
  msg_bccEmails : list jsstring;
  msg_subject : option jsstring;
  msg_htmlBody : jsstring;
  msg_textBody : jsstring;
  msg_messageType : MessageType;
  msg_isRead : bool;
  msg_sentAt : Z;
  msg_createdBy : jsstring
}.

Record Attachment := mkAttachment {
  att_messageId : nat;
  att_fileName : jsstring;
  att_fileSize : Z;
  att_mimeType : jsstring;
  att_fileContent : jsstring
}.

(** [interface ExternalMessage] *)
Record ExternalMessage := mkExternalMessage {
  externalMessageId : jsstring;
  externalThreadId : option jsstring;
  em_subject : jsstring;
  em_from : jsstring;
  em_to : list jsstring;
  em_cc : option (list jsstring);
  em_bcc : option (list jsstring);
  em_htmlBody : jsstring;
  em_textBody : jsstring;
  em_date : Z
}.

(** An uploaded file (multer). *)
Record File := mkFile {
  originalname : jsstring;
  file_size : Z;
  mimetype : jsstring;
  buffer : list N
}.

(** [interface EmailData] *)
Record EmailData := mkEmailData {
  ed_to : list jsstring;
  ed_cc : option (list jsstring);
  ed_bcc : option (list jsstring);
  ed_subject : option jsstring;
  ed_htmlBody : jsstring;
  ed_textBody : jsstring;
  ed_headers : list (jsstring * jsstring);
  ed_attachments : option (list File)
}.

(** [{ success, messageId?, error? }] *)
Record SendResult := mkSendResult {
  success : bool;
  messageId : option jsstring;
  error : option jsstring
}.

(** [{ success, error? }], the answer of the connection tests. *)
Record ConnectionResult := mkConnectionResult {
  cr_success : bool;
  cr_error : option jsstring
}.

(** A nodemailer transporter: the options it was created with, and a serial
    number telling two connections apart. *)
Record Transporter := mkTransporter {
  tr_serial : nat;
  tr_host : jsstring;
  tr_port : Z;
  tr_secure : bool;
  tr_user : option jsstring;
  tr_pass : jsstring
}.

(** What an external call (a database statement, a provider request) does
    when it runs: it completes, with the provider's message id where there
    is one, or it throws. *)
Inductive outcome := Succeed (payload : jsstring) | Raise (err : jsstring).

Inductive Level := Debug | Info | Warn | Error.

Inductive LogMsg :=
| LCacheHit | LCacheMiss | LVerified | LVerificationFailed
| LSendingFrom | LErrorSendingFromAccount
| LGmailSendError | LOutlookSendError | LSmtpSendError
| LErrorDefaultAccount
| LRetryingSave (attempt retries : Z) | LFailedToSave (id : jsstring)
| LModerateSpamScore (score : Z) | LSpamIssues (issues : list jsstring)
| LEmailSent | LSendFailedButSaved | LErrorSendingEmail
| LErrorTokenHealth | LErrorTestingConnection | LSmtpConnectionFailed.

Inductive Provider := PGmail | POutlook | PSmtp.

(** Effects on the outside world, newest first in [trace]. *)
Inductive Event :=
| EvLog (lvl : Level) (m : LogMsg)
| EvCreateTransport (t : Transporter)
| EvVerify (t : Transporter) (ok : bool)
| EvProviderSend (via : Provider) (accountId : jsstring)
                 (mail : EmailData) (ok : bool)
| EvRecordSent (userId provider : jsstring).

(** ** The monad of stateful code that may throw *)

(** What a piece of code ends with: a value, or a thrown [Error] with its
    message. *)
Inductive result (A : Type) := Val (a : A) | Exn (e : jsstring).
Arguments Val {A} a.
Arguments Exn {A} e.

Definition StateExn (S A : Type) : Type := S -> result A * S.

Definition ret {S A} (a : A) : StateExn S A := fun w => (Val a, w).

Definition bind {S A B} (m : StateExn S A) (f : A -> StateExn S B)
  : StateExn S B :=
  fun w =>
    match m w with
    | (Val a, w') => f a w'
    | (Exn e, w') => (Exn e, w')
    end.

Definition throw {S A} (e : jsstring) : StateExn S A := fun w => (Exn e, w).

(** [try { m } catch (error) { h error.message }]: the handler runs in the
    state the failed block left behind. *)
Definition try_catch {S A} (m : StateExn S A) (h : jsstring -> StateExn S A)
  : StateExn S A :=
  fun w =>
    match m w with
    | (Val a, w') => (Val a, w')
    | (Exn e, w') => h e w'
    end.

Notation "x <- m ;; k" := (bind m (fun x => k))
  (at level 100, m at next level, right associativity).
Notation "m ;;; k" := (bind m (fun _ => k))
  (at level 100, right associativity).

(** ** The requests and responses of the send route *)

(** A recipient field of the request body: one address or an array. *)
Inductive Recipients := One (s : jsstring) | Many (l : list jsstring).

Record SendRequest := mkSendRequest {
  user_id : jsstring;
  user_email : jsstring;
  body_to : Recipients;
  body_cc : option Recipients;
  body_bcc : option Recipients;
  body_subject : option jsstring;
  body_htmlBody : option jsstring;
  body_textBody : option jsstring;
  body_threadId : option nat;
  body_accountId : option jsstring;
  files : option (list File)
}.

(** The answer of [EmailDeliverabilityService.checkSpamScore]. *)
Record SpamCheck := mkSpamCheck {
  score : Z;
  issues : list jsstring;
  recommendations : list jsstring
}.

(** The answer of [EmailRateLimiter.canSendEmail]. *)
Record RateCheck := mkRateCheck {
  allowed : bool;
  reason : option jsstring;
  resetAt : option Z;
  remaining : option Z
}.

(** The responses of the route, by status and body. *)
Inductive Response :=
| InvalidRecipients (invalidRecipients : list jsstring)
| NoAccountConfigured
| RateLimitExceeded (check : RateCheck)
| DeliverabilityBlocked (spamScore : Z)
    (issues recommendations : list jsstring)
| InsufficientContent
| Created (messageId threadId : nat) (sendResult : SendResult)
| ServerError.

Definition status (r : Response) : Z :=
  match r with
  | InvalidRecipients _ | NoAccountConfigured
  | DeliverabilityBlocked _ _ _ | InsufficientContent => 400
  | RateLimitExceeded _ => 429
  | Created _ _ _ => 201
  | ServerError => 500
  end.

(** ** Inputs of the scenarios *)

Module Scenario.

Definition smtp_account : Account :=
  mkAccount (js "acc-1") (js "user-1") (Some (js "smtp"))
    (Some (js "me@example.com")) (js "Me") false true 10
    (js "smtp.example.com") None None None (js "secret").

(** The only account of its user: not the default, and deactivated. *)
Definition inactive_account : Account :=
  mkAccount (js "acc-2") (js "user-2") (Some (js "gmail"))
    (Some (js "old@example.com")) (js "Old") false false 5
    (js "") None None None (js "").

(** Two provider messages of one provider thread, [T1]. *)
Definition first_message : ExternalMessage :=
  mkExternalMessage (js "M1") (Some (js "T1")) (js "hello")
    (js "a@example.org") [js "me@example.com"] None None
    (js "<p>hello</p>") (js "hello") 100.

Definition second_message : ExternalMessage :=
  mkExternalMessage (js "M2") (Some (js "T1")) (js "Re: hello")
    (js "a@example.org") [js "me@example.com"] None None
    (js "<p>again</p>") (js "again") 200.

(** A provider message whose HTML body is a script element split around
    another one. *)
Definition script_message : ExternalMessage :=
  mkExternalMessage (js "M3") None (js "hello")
    (js "a@example.org") [js "me@example.com"] None None
    (js "<scr<script></script>ipt>alert(1)</script>") (js "hello") 300.

(** A send request with no text body and the given HTML body. *)
Definition html_only (userId : jsstring) (html : string) : SendRequest :=
  mkSendRequest userId (js "user@example.com") (One (js "to@example.org"))
    None None (Some (js "Hi")) (Some (js html)) None None None None.

(** A send request with a text body. *)
Definition with_text (userId : jsstring) (text : string) : SendRequest :=
  mkSendRequest userId (js "user@example.com") (One (js "to@example.org"))
    None None (Some (js "Hi")) (Some (js "<p>body</p>")) (Some (js text))
    None None None.

(** An active account of a provider the service has no branch for. *)
Definition yahoo_account : Account :=
  mkAccount (js "acc-3") (js "user-3") (Some (js "yahoo"))
    (Some (js "me@yahoo.example")) (js "Me") true true 7
    (js "") None None None (js "").

(** An active Gmail account. *)
Definition gmail_account : Account :=
  mkAccount (js "acc-4") (js "user-4") (Some (js "gmail"))
    (Some (js "me@gmail.example")) (js "Me") true true 8
    (js "") None None None (js "").

(** A provider message that names no provider thread. *)
Definition loose_message : ExternalMessage :=
  mkExternalMessage (js "M3") None (js "note")
    (js "a@example.org") [js "me@example.com"] None None
    (js "<p>note</p>") (js "note") 300.

(** A send request that names the account to send from. *)
Definition from_account (userId accountId : jsstring) : SendRequest :=
  mkSendRequest userId (js "user@example.com") (One (js "to@example.org"))
    None None (Some (js "Hi")) (Some (js "<p>body</p>"))
    (Some (js "a long enough text")) None (Some accountId) None.

(** A send request with one uploaded file. *)
Definition with_file (userId : jsstring) : SendRequest :=
  mkSendRequest userId (js "user@example.com") (One (js "to@example.org"))
    None None (Some (js "Hi")) (Some (js "<p>body</p>"))
    (Some (js "a long enough text")) None None
    (Some [mkFile (js "a.txt") 2 (js "text/plain") [104%N; 105%N]]).

Definition mail : EmailData :=
  mkEmailData [js "to@example.org"] None None (Some (js "Hi"))
    (js "<p>body</p>") (js "a long enough text") [] None.

(** Stand-ins for the services outside this development.  The OAuth
    services of the scenarios answer every reply of the provider with a
    success that carries the reply as message id. *)
Definition oauth_accepts (_ : Provider) (reply : jsstring) : SendResult :=
  mkSendResult true (Some reply) None.
Definition all_valid (_ : jsstring) : bool := true.
Definition scored (n : Z) (_ _ _ _ : jsstring) : SpamCheck :=
  mkSpamCheck n [js "issue"] [].
Definition keep_html (html : jsstring) : jsstring := html.
Definition no_headers (_ _ _ : jsstring) : list (jsstring * jsstring) := [].
Definition always_allowed (_ : nat) (_ : Z) (_ _ : jsstring) : RateCheck :=
  mkRateCheck true None None None.
Definition count_up (rl : nat) (_ : Z) (_ _ : jsstring) : nat := S rl.
Definition raw (b : list N) : jsstring := b.

End Scenario.

Section Engine.

(** The state of [EmailRateLimiter], whose module is outside this
    development. *)
Context {RL : Type}.

Record World := mkWorld {
  emailAccounts : list Account;
  emailThreads : list Thread;
  emailMessages : list Message;
  emailAttachments : list Attachment;
  nextId : nat;
  clock : Z;
  transporterCache : gmap jsstring Transporter;
  nextSerial : nat;
  rateLimiter : RL;
  pending : list outcome;
  trace : list Event
}.

Definition with_threads (w : World) (x : list Thread) : World :=
  mkWorld (emailAccounts w) x (emailMessages w) (emailAttachments w)
    (nextId w) (clock w) (transporterCache w) (nextSerial w)
    (rateLimiter w) (pending w) (trace w).
Definition with_messages (w : World) (x : list Message) : World :=
  mkWorld (emailAccounts w) (emailThreads w) x (emailAttachments w)
    (nextId w) (clock w) (transporterCache w) (nextSerial w)
    (rateLimiter w) (pending w) (trace w).
Definition with_attachments (w : World) (x : list Attachment) : World :=
  mkWorld (emailAccounts w) (emailThreads w) (emailMessages w) x
    (nextId w) (clock w) (transporterCache w) (nextSerial w)
    (rateLimiter w) (pending w) (trace w).
Definition with_nextId (w : World) (x : nat) : World :=
  mkWorld (emailAccounts w) (emailThreads w) (emailMessages w)
    (emailAttachments w) x (clock w) (transporterCache w) (nextSerial w)
    (rateLimiter w) (pending w) (trace w).
Definition with_clock (w : World) (x : Z) : World :=
  mkWorld (emailAccounts w) (emailThreads w) (emailMessages w)
    (emailAttachments w) (nextId w) x (transporterCache w) (nextSerial w)
    (rateLimiter w) (pending w) (trace w).
Definition with_cache (w : World) (x : gmap jsstring Transporter) : World :=
  mkWorld (emailAccounts w) (emailThreads w) (emailMessages w)
    (emailAttachments w) (nextId w) (clock w) x (nextSerial w)
    (rateLimiter w) (pending w) (trace w).
Definition with_nextSerial (w : World) (x : nat) : World :=
  mkWorld (emailAccounts w) (emailThreads w) (emailMessages w)
    (emailAttachments w) (nextId w) (clock w) (transporterCache w) x
    (rateLimiter w) (pending w) (trace w).
Definition with_rateLimiter (w : World) (x : RL) : World :=
  mkWorld (emailAccounts w) (emailThreads w) (emailMessages w)
    (emailAttachments w) (nextId w) (clock w) (transporterCache w)
    (nextSerial w) x (pending w) (trace w).
Definition with_pending (w : World) (x : list outcome) : World :=
  mkWorld (emailAccounts w) (emailThreads w) (emailMessages w)
    (emailAttachments w) (nextId w) (clock w) (transporterCache w)
    (nextSerial w) (rateLimiter w) x (trace w).
Definition with_trace (w : World) (x : list Event) : World :=
  mkWorld (emailAccounts w) (emailThreads w) (emailMessages w)
    (emailAttachments w) (nextId w) (clock w) (transporterCache w)
    (nextSerial w) (rateLimiter w) (pending w) x.

(** Stateful code of the service and of the route. *)
Definition M (A : Type) : Type := StateExn World A.

Definition emit (e : Event) : M unit :=
  fun w => (Val tt, with_trace w (e :: trace w)).

Definition log (lvl : Level) (m : LogMsg) : M unit := emit (EvLog lvl m).

(** [new Date()] *)
Definition now : M Z := fun w => (Val (clock w), w).

(** [await new Promise(resolve => setTimeout(resolve, delay))] *)
Definition sleep (delay : Z) : M unit :=
  fun w => (Val tt, with_clock w (clock w + delay)).

(** The next external call: its outcome is the head of [pending]; with
    nothing pending it completes. *)
Definition external : M jsstring :=
  fun w =>
    match pending w with
    | [] => (Val [], w)
    | Succeed p :: rest => (Val p, with_pending w rest)
    | Raise e :: rest => (Exn e, with_pending w rest)
    end.

(** A database statement: it may throw before it touches the tables. *)
Definition db_statement : M unit := external ;;; ret tt.

Definition fresh_id : M nat :=
  fun w => (Val (nextId w), with_nextId w (S (nextId w))).

(** A query: a statement that reads the tables. *)
Definition query {A} (f : World -> A) : M A :=
  db_statement ;;; (fun w => (Val (f w), w)).

(** ** MultiAccountEmailService *)

(** [x || d] on a number: zero is falsy. *)
Definition num_or (o : option Z) (d : Z) : Z :=
  match o with
  | Some x => if x =? 0 then d else x
  | None => d
  end.

(** [nodemailer.createTransport({...})]: builds the object and opens no
    connection. *)
Definition transporter_for (account : Account) (serial : nat)
  : Transporter :=
  mkTransporter serial
    (acc_smtpHost account)
    (num_or (acc_smtpPort account) 587)
    (default false (acc_smtpSecure account))
    (if otruthy (acc_username account) then acc_username account
     else acc_emailAddress account)
    (acc_password account).

Definition createTransport (account : Account) : M Transporter :=
  fun w =>
    let t := transporter_for account (nextSerial w) in
    (Val t,
     with_trace (with_nextSerial w (S (nextSerial w)))
       (EvCreateTransport t :: trace w)).

(** [transporter.verify()] *)
Definition verify (t : Transporter) : M unit :=
  try_catch (external ;;; emit (EvVerify t true))
            (fun e => emit (EvVerify t false) ;;; throw e).

Definition cache_set (key : jsstring) (t : Transporter) : M unit :=
  fun w => (Val tt, with_cache w (<[key := t]> (transporterCache w))).

Definition getOrCreateTransporter (account : Account) : M Transporter :=
  fun w =>
    let cacheKey := acc_id account in
    match transporterCache w !! cacheKey with
    | Some t => (log Debug LCacheHit ;;; ret t) w
    | None =>
        (log Info LCacheMiss ;;;
         transporter <- createTransport account ;;
         try_catch
           (verify transporter ;;;
            cache_set cacheKey transporter ;;;
            log Info LVerified ;;;
            ret transporter)
           (fun _ =>
              log Error LVerificationFailed ;;;
              throw (js "SMTP connection verification failed."))) w
    end.

(** [transporter.sendMail]: the request that hands a message to the SMTP
    server.  It answers with the message id or throws. *)
Definition provider_send (via : Provider) (account : Account)
    (emailData : EmailData) : M jsstring :=
  try_catch
    (mid <- external ;;
     emit (EvProviderSend via (acc_id account) emailData true) ;;;
     ret mid)
    (fun e =>
       emit (EvProviderSend via (acc_id account) emailData false) ;;;
       throw e).

Definition sent_ok (mid : jsstring) : SendResult :=
  mkSendResult true (Some mid) None.
Definition send_failed (e : jsstring) : SendResult :=
  mkSendResult false None (Some e).

(** [EnhancedGmailOAuthService.sendGmailMessage] and
    [OutlookOAuthService.sendOutlookMessage], whose modules are outside
    this development: a call sends one request to its provider and either
    throws or answers with an object [{ success, messageId?, error? }] of
    the service's own making.  [oauthAnswer via reply] is the object the
    service of [via] makes of the provider's reply; the trace records the
    call with the [success] of that object, and with [false] when the
    service throws. *)
Variable oauthAnswer : Provider -> jsstring -> SendResult.

Definition oauth_send (via : Provider) (account : Account)
    (emailData : EmailData) : M SendResult :=
  try_catch
    (reply <- external ;;
     let sendResult := oauthAnswer via reply in
     emit (EvProviderSend via (acc_id account) emailData
             (success sendResult)) ;;;
     ret sendResult)
    (fun e =>
       emit (EvProviderSend via (acc_id account) emailData false) ;;;
       throw e).

(** The answer of the service is returned as it is. *)
Definition sendViaGmail (account : Account) (emailData : EmailData)
  : M SendResult :=
  try_catch
    (oauth_send PGmail account emailData)
    (fun e => log Error LGmailSendError ;;; ret (send_failed e)).

Definition sendViaOutlook (account : Account) (emailData : EmailData)
  : M SendResult :=
  try_catch
    (oauth_send POutlook account emailData)
    (fun e => log Error LOutlookSendError ;;; ret (send_failed e)).

Definition sendViaSMTP (account : Account) (emailData : EmailData)
  : M SendResult :=
  try_catch
    (transporter <- getOrCreateTransporter account ;;
     mid <- provider_send PSmtp account emailData ;;
     ret (sent_ok mid))
    (fun e => log Error LSmtpSendError ;;; ret (send_failed e)).

Definition find_account (accountId : jsstring) (rows : list Account)
  : option Account :=
  find (fun a => jseqb (acc_id a) accountId) rows.

(** The text of [account.provider] in a template string. *)
Definition provider_text (p : option jsstring) : jsstring :=
  match p with Some s => s | None => js "null" end.

Definition sendFromAccount (accountId : jsstring) (emailData : EmailData)
  : M SendResult :=
  try_catch
    (account <- query (fun w => find_account accountId (emailAccounts w)) ;;
     match account with
     | None => throw (js "Account not found or inactive")
     | Some account =>
         if negb (acc_isActive account)
         then throw (js "Account not found or inactive")
         else
           log Info LSendingFrom ;;;
           let p := provider_text (acc_provider account) in
           if jseqb p (js "gmail") then sendViaGmail account emailData
           else if jseqb p (js "outlook") then sendViaOutlook account emailData
           else if jseqb p (js "smtp") || jseqb p (js "imap")
                then sendViaSMTP account emailData
           else throw (js "Unsupported provider: " ++ p)
     end)
    (fun e => log Error LErrorSendingFromAccount ;;; ret (send_failed e)).

(** [orderBy: [desc(isDefault), desc(createdAt)]]: [a] sorts strictly
    before [b]. *)
Definition sorts_before (a b : Account) : bool :=
  (acc_isDefault a && negb (acc_isDefault b))
  || (eqb (acc_isDefault a) (acc_isDefault b)
      && (acc_createdAt b <? acc_createdAt a)).

(** The first row of [l] in that order (the first of the table among rows
    that tie). *)
Definition first_in_order (l : list Account) : option Account :=
  fold_left
    (fun best x =>
       match best with
       | None => Some x
       | Some b => if sorts_before x b then Some x else Some b
       end) l None.

Definition accounts_of (userId : jsstring) (rows : list Account)
  : list Account :=
  List.filter (fun a => jseqb (acc_userId a) userId) rows.

Definition getDefaultAccount (userId : jsstring) : M (option Account) :=
  try_catch
    (query (fun w => first_in_order (accounts_of userId (emailAccounts w))))
    (fun _ => log Error LErrorDefaultAccount ;;; ret None).

(** [db.query.emailMessages.findFirst({ where: eq(externalMessageId, id) })] *)
Definition find_message (id : jsstring) (rows : list Message)
  : option Message :=
  find (fun m => bool_decide (msg_externalMessageId m = Some id)) rows.

(** [db.query.emailThreads.findFirst({ where: eq(externalThreadId, id) })] *)
Definition find_thread (id : jsstring) (rows : list Thread)
  : option Thread :=
  find (fun t => bool_decide (th_externalThreadId t = Some id)) rows.

(** [db.insert(emailThreads).values({...}).returning()]: the columns the
    statement does not name keep their default, so [externalThreadId] is
    null in the new row. *)
Definition insert_thread (subject : option jsstring)
    (participantEmails : list jsstring) (lastMessageAt messageCount : Z)
    (createdBy : jsstring) : M Thread :=
  db_statement ;;;
  id <- fresh_id ;;
  let t := mkThread id None subject participantEmails lastMessageAt
             messageCount createdBy in
  fun w => (Val t, with_threads w (emailThreads w ++ [t])).

(** [db.insert(emailMessages).values({...}).returning()] *)
Definition insert_message (row : nat -> Message) : M Message :=
  db_statement ;;;
  id <- fresh_id ;;
  let m := row id in
  fun w => (Val m, with_messages w (emailMessages w ++ [m])).

(** One pass through the body of the [try] block of
    [saveMessageWithRetry]. *)
Definition save_attempt (message : ExternalMessage) (account : Account)
    (userId : jsstring) (sanitizedHtmlBody : jsstring) : M bool :=
  existingMessage <-
    query (fun w => find_message (externalMessageId message)
                      (emailMessages w)) ;;
  match existingMessage with
  | Some _ => ret false
  | None =>
      existingThread <-
        (if otruthy (externalThreadId message)
         then query (fun w => find_thread
                                (default [] (externalThreadId message))
                                (emailThreads w))
         else ret None) ;;
      threadId <-
        (match existingThread with
         | Some t => ret (th_id t)
         | None =>
             newThread <- insert_thread (Some (em_subject message))
                            (em_from message :: em_to message)
                            (em_date message) 0 userId ;;
             ret (th_id newThread)
         end) ;;
      insert_message (fun id =>
        mkMessage id threadId (Some (acc_id account))
          (Some (externalMessageId message))
          (em_from message) (em_to message)
          (default [] (em_cc message)) (default [] (em_bcc message))
          (Some (em_subject message))
          sanitizedHtmlBody (em_textBody message)
          MtReceived false (em_date message) userId) ;;;
      ret true
  end.

(** The [for] loop: [left] is [retries - attempt]. *)
Fixpoint save_attempts (message : ExternalMessage) (account : Account)
    (userId : jsstring) (sanitizedHtmlBody : jsstring)
    (retries : Z) (left : nat) (attempt : Z) : M bool :=
  try_catch
    (save_attempt message account userId sanitizedHtmlBody)
    (fun _ =>
       match left with
       | S left' =>
           let delay := Z.min (1000 * 2 ^ attempt) 5000 in
           sleep delay ;;;
           log Debug (LRetryingSave (attempt + 2) (retries + 1)) ;;;
           save_attempts message account userId sanitizedHtmlBody
             retries left' (attempt + 1)
       | O =>
           log Warn (LFailedToSave (externalMessageId message)) ;;;
           ret false
       end).

Definition saveMessageWithRetry (message : ExternalMessage)
    (account : Account) (userId : jsstring) (retries : Z) : M bool :=
  let sanitizedHtmlBody := sanitizeHtml (em_htmlBody message) in
  if retries <? 0 then ret false
  else save_attempts message account userId sanitizedHtmlBody
         retries (Z.to_nat retries) 0.

(** ** [saveMessagesToDatabase]

    The messages are saved in batches of [BATCH_SIZE].  The calls of
    [saveMessageWithRetry] for one batch are started together and
    [Promise.allSettled] waits for all of them, so they interleave at their
    [await]s; the batches follow one another. *)

Definition BATCH_SIZE : nat := 10.

(** [for (let i = 0; i < messages.length; i += BATCH_SIZE)] with
    [batch = messages.slice(i, i + BATCH_SIZE)]. *)
Fixpoint batches_from (fuel i : nat) (messages : list ExternalMessage)
  : list (list ExternalMessage) :=
  match fuel with
  | O => []
  | S fuel' =>
      if (i <? length messages)%nat
      then take BATCH_SIZE (drop i messages)
           :: batches_from fuel' (i + BATCH_SIZE) messages
      else []
  end.

Definition batches (messages : list ExternalMessage)
  : list (list ExternalMessage) :=
  batches_from (length messages) 0 messages.

(** Where a call of [saveMessageWithRetry] stands: at one of its [await]s
    (the import of the schema, the two lookups, the two inserts, the timer
    of the pause), or settled with its answer.  [togo] is
    [retries - attempt]. *)
Inductive save_point :=
| AtImport
| AtFindMessage (attempt : Z) (togo : nat)
| AtFindThread (attempt : Z) (togo : nat)
| AtInsertThread (attempt : Z) (togo : nat)
| AtInsertMessage (attempt : Z) (togo : nat) (threadId : nat)
| AtPause (attempt : Z) (togo : nat)
| Resolved (b : bool).

(** The [catch] block, up to its [await] or its [return]. *)
Definition after_failure (message : ExternalMessage) (attempt : Z)
    (togo : nat) : M save_point :=
  match togo with
  | S togo' => ret (AtPause attempt togo')
  | O =>
      log Warn (LFailedToSave (externalMessageId message)) ;;;
      ret (Resolved false)
  end.

(** The awaited operation of a point and the code that follows it up to
    the next [await]. *)
Definition save_segment (message : ExternalMessage) (account : Account)
    (userId sanitizedHtmlBody : jsstring) (retries : Z) (pt : save_point)
  : M save_point :=
  match pt with
  | AtImport =>
      if retries <? 0 then ret (Resolved false)
      else ret (AtFindMessage 0 (Z.to_nat retries))
  | AtFindMessage attempt togo =>
      try_catch
        (existingMessage <-
           query (fun w => find_message (externalMessageId message)
                             (emailMessages w)) ;;
         match existingMessage with
         | Some _ => ret (Resolved false)
         | None =>
             if otruthy (externalThreadId message)
             then ret (AtFindThread attempt togo)
             else ret (AtInsertThread attempt togo)
         end)
        (fun _ => after_failure message attempt togo)
  | AtFindThread attempt togo =>
      try_catch
        (existingThread <-
           query (fun w => find_thread
                             (default [] (externalThreadId message))
                             (emailThreads w)) ;;
         match existingThread with
         | Some t => ret (AtInsertMessage attempt togo (th_id t))
         | None => ret (AtInsertThread attempt togo)
         end)
        (fun _ => after_failure message attempt togo)
  | AtInsertThread attempt togo =>
      try_catch
        (newThread <- insert_thread (Some (em_subject message))
                        (em_from message :: em_to message)
                        (em_date message) 0 userId ;;
         ret (AtInsertMessage attempt togo (th_id newThread)))
        (fun _ => after_failure message attempt togo)
  | AtInsertMessage attempt togo threadId =>
      try_catch
        (insert_message (fun id =>
           mkMessage id threadId (Some (acc_id account))
             (Some (externalMessageId message))
             (em_from message) (em_to message)
             (default [] (em_cc message)) (default [] (em_bcc message))
             (Some (em_subject message))
             sanitizedHtmlBody (em_textBody message)
             MtReceived false (em_date message) userId) ;;;
         ret (Resolved true))
        (fun _ => after_failure message attempt togo)
  | AtPause attempt togo =>
      let delay := Z.min (1000 * 2 ^ attempt) 5000 in
      sleep delay ;;;
      log Debug (LRetryingSave (attempt + 2) (retries + 1)) ;;;
      ret (AtFindMessage (attempt + 1) togo)
  | Resolved b => ret (Resolved b)
  end.

Definition resolved (pt : save_point) : bool :=
  match pt with Resolved _ => true | _ => false end.

(** [result.status === 'fulfilled' && result.value] *)
Definition saved (pt : save_point) : bool :=
  match pt with Resolved true => true | _ => false end.

(** A call run alone: its segments one after the other, at most [fuel]
    of them. *)
Fixpoint run_alone (fuel : nat) (seg : save_point -> M save_point)
    (pt : save_point) : M save_point :=
  fun w =>
    match fuel with
    | O => (Val pt, w)
    | S fuel' =>
        if resolved pt then (Val pt, w)
        else match seg pt w with
             | (Val pt', w') => run_alone fuel' seg pt' w'
             | (Exn e, w') => (Exn e, w')
             end
    end.

(** One turn of the event loop on a pool of calls: a call that has not
    settled runs its next segment. *)
Inductive pool_step (account : Account) (userId : jsstring) (retries : Z)
  : World * list (ExternalMessage * save_point)
    -> World * list (ExternalMessage * save_point) -> Prop :=
| pool_turn i message pt pt' w w' calls :
    calls !! i = Some (message, pt) ->
    resolved pt = false ->
    save_segment message account userId
      (sanitizeHtml (em_htmlBody message)) retries pt w = (Val pt', w') ->
    pool_step account userId retries (w, calls)
      (w', <[i := (message, pt')]> calls).

Inductive pool_steps (account : Account) (userId : jsstring) (retries : Z)
  : World * list (ExternalMessage * save_point)
    -> World * list (ExternalMessage * save_point) -> Prop :=
| pool_refl s : pool_steps account userId retries s s
| pool_next s1 s2 s3 :
    pool_step account userId retries s1 s2 ->
    pool_steps account userId retries s2 s3 ->
    pool_steps account userId retries s1 s3.

(** One batch: every call is started, the pool runs until all have
    settled, and the calls that answered [true] are counted. *)
Definition batch_run (account : Account) (userId : jsstring)
    (batch : list ExternalMessage) (w : World) (n : nat) (w' : World)
  : Prop :=
  exists calls,
    pool_steps account userId 2
      (w, map (fun m => (m, AtImport)) batch) (w', calls)
    /\ forallb (fun c => resolved c.2) calls = true
    /\ n = length (List.filter (fun c => saved c.2) calls).

(** The loop over the batches, with [syncedCount] before and after. *)
Inductive batches_run (account : Account) (userId : jsstring)
  : list (list ExternalMessage) -> World -> nat -> World -> nat -> Prop :=
| batches_nil w c : batches_run account userId [] w c w c
| batches_cons batch rest w c n w1 w2 c2 :
    batch_run account userId batch w n w1 ->
    batches_run account userId rest w1 (c + n) w2 c2 ->
    batches_run account userId (batch :: rest) w c w2 c2.

(** [saveMessagesToDatabase(account, messages, userId)] may end in the
    world [w'] with the answer [syncedCount]. *)
Definition saveMessagesToDatabase (account : Account)
    (messages : list ExternalMessage) (userId : jsstring) (w : World)
    (syncedCount : nat) (w' : World) : Prop :=
  batches_run account userId (batches messages) w 0 w' syncedCount.

(** [checkAccountTokenHealth]: both OAuth branches answer success without
    a call of their own. *)
Definition checkAccountTokenHealth (accountId : jsstring)
  : M ConnectionResult :=
  try_catch
    (account <- query (fun w => find_account accountId (emailAccounts w)) ;;
     match account with
     | None =>
         ret (mkConnectionResult false (Some (js "Account not found")))
     | Some account =>
         let p := provider_text (acc_provider account) in
         if jseqb p (js "gmail") then ret (mkConnectionResult true None)
         else if jseqb p (js "outlook")
              then ret (mkConnectionResult true None)
         else ret (mkConnectionResult true
                     (Some (js "Not an OAuth account, token check skipped.")))
     end)
    (fun e =>
       log Error LErrorTokenHealth ;;;
       ret (mkConnectionResult false (Some e))).

Definition testSMTPConnection (account : Account) : M ConnectionResult :=
  try_catch
    (getOrCreateTransporter account ;;; ret (mkConnectionResult true None))
    (fun e =>
       log Error LSmtpConnectionFailed ;;;
       ret (mkConnectionResult false (Some e))).

Definition testAccountConnection (accountId : jsstring)
  : M ConnectionResult :=
  try_catch
    (account <- query (fun w => find_account accountId (emailAccounts w)) ;;
     match account with
     | None => throw (js "Account not found")
     | Some account =>
         let p := provider_text (acc_provider account) in
         if jseqb p (js "gmail") then ret (mkConnectionResult true None)
         else if jseqb p (js "outlook")
              then ret (mkConnectionResult true None)
         else if jseqb p (js "smtp") || jseqb p (js "imap")
              then testSMTPConnection account
         else throw (js "Unsupported provider: " ++ p)
     end)
    (fun e =>
       log Error LErrorTestingConnection ;;;
       ret (mkConnectionResult false (Some e))).

(** ** The send route: [router.post('/emails/send', ...)] *)

(** The services the route imports from modules outside this development:
    [EmailDeliverabilityService] and [EmailRateLimiter].  The rate limiter
    reads the time itself, so it receives the clock. *)
Variable validateRecipientEmail : jsstring -> bool.
Variable checkSpamScore : jsstring -> jsstring -> jsstring -> jsstring -> SpamCheck.
Variable sanitizeHtmlForEmail : jsstring -> jsstring.
Variable getRecommendedHeaders :
  jsstring -> jsstring -> jsstring -> list (jsstring * jsstring).
Variable canSendEmail : RL -> Z -> jsstring -> jsstring -> RateCheck.
Variable recordEmailSent : RL -> Z -> jsstring -> jsstring -> RL.
(** [buffer.toString('base64')] *)
Variable base64 : list N -> jsstring.

(** [Array.isArray(to) ? to : [to]] *)
Definition to_list (r : Recipients) : list jsstring :=
  match r with One s => [s] | Many l => l end.

(** [Array.isArray(cc) ? cc : (cc ? [cc] : [])], with [cc = []] by default. *)
Definition opt_list (r : option Recipients) : list jsstring :=
  match r with
  | Some (Many l) => l
  | Some (One s) => if truthy s then [s] else []
  | None => []
  end.

Definition find_owned_account (accountId userId : jsstring)
    (rows : list Account) : option Account :=
  find (fun a => jseqb (acc_id a) accountId && jseqb (acc_userId a) userId)
       rows.

Definition can_send (userId provider : jsstring) : M RateCheck :=
  fun w => (Val (canSendEmail (rateLimiter w) (clock w) userId provider), w).

Definition record_sent (userId provider : jsstring) : M unit :=
  fun w =>
    (Val tt,
     with_trace
       (with_rateLimiter w
          (recordEmailSent (rateLimiter w) (clock w) userId provider))
       (EvRecordSent userId provider :: trace w)).

Definition insert_attachments (rows : list Attachment) : M unit :=
  db_statement ;;;
  (fun w => (Val tt, with_attachments w (emailAttachments w ++ rows))).

(** [db.update(emailThreads).set({ lastMessageAt, messageCount:
    sql`messageCount + 1` }).where(eq(emailThreads.id, id))] *)
Definition bump_thread (id : nat) (at_ : Z) (t : Thread) : Thread :=
  if (th_id t =? id)%nat
  then mkThread (th_id t) (th_externalThreadId t) (th_subject t)
         (th_participantEmails t) at_ (th_messageCount t + 1)
         (th_createdBy t)
  else t.

Definition update_thread (id : nat) (at_ : Z) : M unit :=
  db_statement ;;;
  (fun w => (Val tt, with_threads w (map (bump_thread id at_) (emailThreads w)))).

(** The text body the route goes on with:
    [textBody || sanitizedHtmlBody.replace(/<[^>]*>/g, '').trim()]. *)
Definition final_text (textBody : option jsstring)
    (sanitizedHtmlBody : jsstring) : jsstring :=
  or_else textBody (strip_tags sanitizedHtmlBody).

(** [!finalTextBody || finalTextBody.length < 10] *)
Definition insufficient (finalTextBody : jsstring) : bool :=
  negb (truthy finalTextBody) || (jslength finalTextBody <? 10).

(** The route from the creation of the thread on: persist, dispatch,
    record, update the thread, answer 201. *)
Definition persist_and_dispatch (req : SendRequest) (sendingAccount : Account)
    (provider fromEmail : jsstring) (toEmails ccEmails bccEmails : list jsstring)
    (sanitizedHtmlBody finalTextBody : jsstring) : M Response :=
  let attachmentData :=
    match files req with
    | Some fs => map (fun f => (originalname f, file_size f, mimetype f,
                                base64 (buffer f))) fs
    | None => []
    end in
  finalThreadId <-
    (match body_threadId req with
     | Some t => ret t
     | None =>
         d <- now ;;
         newThread <- insert_thread (body_subject req)
                        (fromEmail :: toEmails) d 0 (user_id req) ;;
         ret (th_id newThread)
     end) ;;
  let recommendedHeaders :=
    getRecommendedHeaders fromEmail
      (match toEmails with e :: _ => e | [] => [] end)
      (or_else (body_subject req) []) in
  d <- now ;;
  message <- insert_message (fun id =>
    mkMessage id finalThreadId (Some (acc_id sendingAccount)) None
      fromEmail toEmails ccEmails bccEmails (body_subject req)
      sanitizedHtmlBody finalTextBody MtSent false d (user_id req)) ;;
  (if (0 <? length attachmentData)%nat
   then insert_attachments
          (map (fun '(n, sz, mt, c) => mkAttachment (msg_id message) n sz mt c)
               attachmentData)
   else ret tt) ;;;
  sendResult <- sendFromAccount (acc_id sendingAccount)
    (mkEmailData toEmails (Some ccEmails) (Some bccEmails) (body_subject req)
       sanitizedHtmlBody finalTextBody recommendedHeaders (files req)) ;;
  (if success sendResult
   then log Info LEmailSent ;;; record_sent (user_id req) provider
   else log Warn LSendFailedButSaved) ;;;
  d' <- now ;;
  update_thread finalThreadId d' ;;;
  ret (Created (msg_id message) finalThreadId sendResult).

(** [sendingAccount.provider || 'smtp'] *)
Definition provider_of (sendingAccount : Account) : jsstring :=
  or_else (acc_provider sendingAccount) (js "smtp").

(** [sendingAccount.emailAddress || req.user!.email] *)
Definition from_email (req : SendRequest) (sendingAccount : Account)
  : jsstring :=
  or_else (acc_emailAddress sendingAccount) (user_email req).

(** The call of [EmailDeliverabilityService.checkSpamScore]. *)
Definition spam_check (req : SendRequest) (sendingAccount : Account)
  : SpamCheck :=
  checkSpamScore (or_else (body_subject req) [])
    (or_else (body_htmlBody req) []) (or_else (body_textBody req) [])
    (from_email req sendingAccount).

(** [EmailDeliverabilityService.sanitizeHtmlForEmail(htmlBody || '')] *)
Definition sanitized_body (req : SendRequest) : jsstring :=
  sanitizeHtmlForEmail (or_else (body_htmlBody req) []).

(** The route from the deliverability check on, for a resolved account that
    passed the rate limit. *)
Definition check_and_send (req : SendRequest) (sendingAccount : Account)
    (provider : jsstring) (toEmails ccEmails bccEmails : list jsstring)
  : M Response :=
  let fromEmail := from_email req sendingAccount in
  let spamCheck := spam_check req sendingAccount in
  if 7 <=? score spamCheck
  then ret (DeliverabilityBlocked (score spamCheck) (issues spamCheck)
              (recommendations spamCheck))
  else
    (if 5 <=? score spamCheck
     then log Warn (LModerateSpamScore (score spamCheck)) ;;;
          log Warn (LSpamIssues (issues spamCheck))
     else ret tt) ;;;
    let sanitizedHtmlBody := sanitized_body req in
    let finalTextBody := final_text (body_textBody req) sanitizedHtmlBody in
    if insufficient finalTextBody
    then ret InsufficientContent
    else persist_and_dispatch req sendingAccount provider fromEmail
           toEmails ccEmails bccEmails sanitizedHtmlBody finalTextBody.

(** The recipients the validation rejects. *)
Definition invalid_recipients (req : SendRequest) : list jsstring :=
  List.filter (fun email => negb (validateRecipientEmail email))
    (to_list (body_to req) ++ opt_list (body_cc req)
     ++ opt_list (body_bcc req)).

(** The sending account: the one the request names, if the user owns it,
    or the user's default. *)
Definition resolve_account (req : SendRequest) : M (option Account) :=
  if otruthy (body_accountId req)
  then query (fun w => find_owned_account
                         (default [] (body_accountId req))
                         (user_id req) (emailAccounts w))
  else getDefaultAccount (user_id req).

(** The body of the [try] block of the route. *)
Definition send_route_body (req : SendRequest) : M Response :=
  let toEmails := to_list (body_to req) in
  let ccEmails := opt_list (body_cc req) in
  let bccEmails := opt_list (body_bcc req) in
  let invalidRecipients := invalid_recipients req in
  if (0 <? length invalidRecipients)%nat
  then ret (InvalidRecipients invalidRecipients)
  else
    sendingAccount <- resolve_account req ;;
    match sendingAccount with
    | None => ret NoAccountConfigured
    | Some sendingAccount =>
        let provider := provider_of sendingAccount in
        rateLimitCheck <- can_send (user_id req) provider ;;
        if negb (allowed rateLimitCheck)
        then ret (RateLimitExceeded rateLimitCheck)
        else check_and_send req sendingAccount provider
               toEmails ccEmails bccEmails
    end.

Definition send_route (req : SendRequest) : M Response :=
  try_catch (send_route_body req)
            (fun _ => log Error LErrorSendingEmail ;;; ret ServerError).

(** ** Concurrent calls of [getOrCreateTransporter]

    JavaScript runs a call without interruption up to its next [await].
    [getOrCreateTransporter] has one: [await transporter.verify()].  A call
    is therefore two segments: from entry to the issue of [verify], and from
    the settlement of [verify] to the return or the throw.  Calls for one
    account interleave at that point. *)

Inductive call :=
| NotStarted
| AwaitingVerify (t : Transporter)
| Returned (t : Transporter)
| Threw (e : jsstring).

(** First segment: the cache test and, on a miss, [createTransport] and the
    issue of [verify]. *)
Definition start_call (account : Account) (w : World) : call * World :=
  match transporterCache w !! acc_id account with
  | Some t => (Returned t, snd (log Debug LCacheHit w))
  | None =>
      match (log Info LCacheMiss ;;; createTransport account) w with
      | (Val t, w') => (AwaitingVerify t, w')
      | (Exn e, w') => (Threw e, w')
      end
  end.

(** Second segment, run when [verify] settles with [ok]. *)
Definition resume_call (account : Account) (t : Transporter) (ok : bool)
    (w : World) : call * World :=
  if ok
  then (Returned t,
        snd ((emit (EvVerify t true) ;;;
              cache_set (acc_id account) t ;;;
              log Info LVerified) w))
  else (Threw (js "SMTP connection verification failed."),
        snd ((emit (EvVerify t false) ;;;
              log Error LVerificationFailed) w)).

(** One scheduling step of a pool of calls for [account]. *)
Inductive step (account : Account)
  : World * list call -> World * list call -> Prop :=
| step_start i w cs :
    cs !! i = Some NotStarted ->
    step account (w, cs)
      (snd (start_call account w), <[i := fst (start_call account w)]> cs)
| step_resume i t ok w cs :
    cs !! i = Some (AwaitingVerify t) ->
    step account (w, cs)
      (snd (resume_call account t ok w),
       <[i := fst (resume_call account t ok w)]> cs).

Inductive steps (account : Account)
  : World * list call -> World * list call -> Prop :=
| steps_refl s : steps account s s
| steps_step s1 s2 s3 :
    step account s1 s2 -> steps account s2 s3 -> steps account s1 s3.

Definition settled (c : call) : bool :=
  match c with Returned _ | Threw _ => true | _ => false end.

Definition started (c : call) : bool :=
  match c with NotStarted => false | _ => true end.

(** Counters over a trace. *)
Definition is_create (e : Event) : bool :=
  match e with EvCreateTransport _ => true | _ => false end.
Definition is_verify (e : Event) : bool :=
  match e with EvVerify _ _ => true | _ => false end.
Definition is_confirmed (e : Event) : bool :=
  match e with EvProviderSend _ _ _ true => true | _ => false end.
Definition is_attempted (e : Event) : bool :=
  match e with EvProviderSend _ _ _ _ => true | _ => false end.
Definition is_recorded (e : Event) : bool :=
  match e with EvRecordSent _ _ => true | _ => false end.

Definition is_spam_warning (e : Event) : bool :=
  match e with EvLog Warn (LModerateSpamScore _) => true | _ => false end.

Definition count (p : Event -> bool) (l : list Event) : nat :=
  length (List.filter p l).

(** ** Vocabulary of the properties *)

(** [wp m w Q]: running [m] from [w] ends in a result and a world that
    satisfy [Q]. *)
Definition wp {A} (m : M A) (w : World) (Q : result A -> World -> Prop)
  : Prop :=
  Q (fst (m w)) (snd (m w)).

Definition has_id (id : jsstring) (m : Message) : bool :=
  bool_decide (msg_externalMessageId m = Some id).

(** A Message with this provider id is in storage. *)
Definition stored (id : jsstring) (w : World) : Prop :=
  exists m, In m (emailMessages w) /\ msg_externalMessageId m = Some id.

(** The number of persisted Messages with this provider id. *)
Definition copies (id : jsstring) (w : World) : nat :=
  length (List.filter (has_id id) (emailMessages w)).

(** The number of persisted Messages that reference a Thread. *)
Definition references (threadId : nat) (w : World) : nat :=
  length (List.filter (fun m => (msg_threadId m =? threadId)%nat)
            (emailMessages w)).

(** A Thread row as [saveMessageWithRetry] inserts it. *)
Definition unlinked (t : Thread) : Prop :=
  th_externalThreadId t = None /\ th_messageCount t = 0.

(** The fields no part of [saveMessageWithRetry] writes. *)
Definition same_rest (w w' : World) : Prop :=
  emailAccounts w' = emailAccounts w
  /\ emailAttachments w' = emailAttachments w
  /\ transporterCache w' = transporterCache w
  /\ rateLimiter w' = rateLimiter w.

(** What one pass of the [try] block of [saveMessageWithRetry] can do. *)
Inductive attempt_outcome (message : ExternalMessage) (h : jsstring)
    (w : World) : result bool -> World -> Prop :=
| attempt_skipped w' :
    find_message (externalMessageId message) (emailMessages w) <> None ->
    emailMessages w' = emailMessages w ->
    emailThreads w' = emailThreads w ->
    attempt_outcome message h w (Val false) w'
| attempt_attached w' t m :
    find_message (externalMessageId message) (emailMessages w) = None ->
    otruthy (externalThreadId message) = true ->
    find_thread (default [] (externalThreadId message)) (emailThreads w)
      = Some t ->
    emailThreads w' = emailThreads w ->
    emailMessages w' = emailMessages w ++ [m] ->
    msg_threadId m = th_id t ->
    msg_externalMessageId m = Some (externalMessageId message) ->
    msg_htmlBody m = h ->
    attempt_outcome message h w (Val true) w'
| attempt_created w' t m :
    find_message (externalMessageId message) (emailMessages w) = None ->
    (otruthy (externalThreadId message) = true ->
     find_thread (default [] (externalThreadId message)) (emailThreads w)
       = None) ->
    emailThreads w' = emailThreads w ++ [t] ->
    unlinked t ->
    emailMessages w' = emailMessages w ++ [m] ->
    msg_threadId m = th_id t ->
    msg_externalMessageId m = Some (externalMessageId message) ->
    msg_htmlBody m = h ->
    attempt_outcome message h w (Val true) w'
| attempt_threw w' e :
    emailMessages w' = emailMessages w ->
    (emailThreads w' = emailThreads w
     \/ (find_message (externalMessageId message) (emailMessages w) = None
         /\ exists t, emailThreads w' = emailThreads w ++ [t] /\ unlinked t)) ->
    attempt_outcome message h w (Exn e) w'.

(** A run of the retry loop: failed passes may leave unlinked threads
    behind and write no Message; the run ends by skipping or by one insert
    on a pass that found the id absent. *)
Inductive save_outcome (message : ExternalMessage) (h : jsstring)
    (w : World) : bool -> World -> Prop :=
| save_skipped w' new :
    emailMessages w' = emailMessages w ->
    emailThreads w' = emailThreads w ++ new ->
    Forall unlinked new ->
    save_outcome message h w false w'
| save_attached w' new t m :
    find_message (externalMessageId message) (emailMessages w) = None ->
    otruthy (externalThreadId message) = true ->
    find_thread (default [] (externalThreadId message)) (emailThreads w)
      = Some t ->
    emailThreads w' = emailThreads w ++ new ->
    Forall unlinked new ->
    emailMessages w' = emailMessages w ++ [m] ->
    msg_threadId m = th_id t ->
    msg_externalMessageId m = Some (externalMessageId message) ->
    msg_htmlBody m = h ->
    save_outcome message h w true w'
| save_created w' new t m :
    find_message (externalMessageId message) (emailMessages w) = None ->
    (otruthy (externalThreadId message) = true ->
     find_thread (default [] (externalThreadId message)) (emailThreads w)
       = None) ->
    emailThreads w' = emailThreads w ++ new ++ [t] ->
    Forall unlinked new ->
    unlinked t ->
    emailMessages w' = emailMessages w ++ [m] ->
    msg_threadId m = th_id t ->
    msg_externalMessageId m = Some (externalMessageId message) ->
    msg_htmlBody m = h ->
    save_outcome message h w true w'.

(** What the code around a provider call leaves alone. *)
Record untouched (w w' : World) : Prop := {
  un_accounts : emailAccounts w' = emailAccounts w;
  un_threads : emailThreads w' = emailThreads w;
  un_messages : emailMessages w' = emailMessages w;
  un_attachments : emailAttachments w' = emailAttachments w;
  un_nextId : nextId w' = nextId w;
  un_clock : clock w' = clock w;
  un_rateLimiter : rateLimiter w' = rateLimiter w;
  un_recorded : count is_recorded (trace w') = count is_recorded (trace w)
}.

(** No message was handed to a provider. *)
Definition no_transport (w w' : World) : Prop :=
  count is_attempted (trace w') = count is_attempted (trace w)
  /\ count is_confirmed (trace w') = count is_confirmed (trace w).

(** The sends a result stands for: one when the provider confirmed. *)
Definition confirms (sr : SendResult) : nat := if success sr then 1 else 0.

(** The refusal of [sendFromAccount] for an account that is missing or
    deactivated. *)
Definition refused : SendResult :=
  send_failed (js "Account not found or inactive").

(** What a run does to the quota of [(userId, provider)]: nothing, or one
    [recordEmailSent] for one send the provider confirmed. *)
Inductive quota_step (userId provider : jsstring) (w w' : World)
  : nat -> Prop :=
| quota_kept :
    count is_recorded (trace w') = count is_recorded (trace w) ->
    count is_confirmed (trace w') = count is_confirmed (trace w) ->
    rateLimiter w' = rateLimiter w ->
    quota_step userId provider w w' 0
| quota_used :
    count is_recorded (trace w') = S (count is_recorded (trace w)) ->
    count is_confirmed (trace w') = S (count is_confirmed (trace w)) ->
    rateLimiter w'
    = recordEmailSent (rateLimiter w) (clock w) userId provider ->
    quota_step userId provider w w' 1.

(** The answer of the rate limiter for the request. *)
Definition rate_check (req : SendRequest) (a : Account) (w : World)
  : RateCheck :=
  canSendEmail (rateLimiter w) (clock w) (user_id req) (provider_of a).

(** The request passed the recipient check, resolved the account [a] and
    was allowed by the rate limiter, which left the world [w1]. *)
Definition passes_gates (req : SendRequest) (w : World) (a : Account)
    (w1 : World) : Prop :=
  invalid_recipients req = []
  /\ resolve_account req w = (Val (Some a), w1)
  /\ allowed (rate_check req a w1) = true.

Definition final_text_of (req : SendRequest) : jsstring :=
  final_text (body_textBody req) (sanitized_body req).

(** The spam warning is logged once, and exactly for scores of 5 or more. *)
Definition warned (req : SendRequest) (a : Account) (w w' : World) : Prop :=
  count is_spam_warning (trace w')
  = ((if (5 <=? score (spam_check req a))%Z then 1 else 0)
     + count is_spam_warning (trace w))%nat.

(** The ways a request leaves the route. *)
Inductive route_outcome (req : SendRequest) (w : World)
  : Response -> World -> Prop :=
| out_invalid :
    invalid_recipients req <> [] ->
    route_outcome req w (InvalidRecipients (invalid_recipients req)) w
| out_no_account w' :
    invalid_recipients req = [] ->
    resolve_account req w = (Val None, w') ->
    route_outcome req w NoAccountConfigured w'
| out_lookup_failed e w1 :
    invalid_recipients req = [] ->
    resolve_account req w = (Exn e, w1) ->
    route_outcome req w ServerError
      (with_trace w1 (EvLog Error LErrorSendingEmail :: trace w1))
| out_rate_limited a w' :
    invalid_recipients req = [] ->
    resolve_account req w = (Val (Some a), w') ->
    allowed (rate_check req a w') = false ->
    route_outcome req w (RateLimitExceeded (rate_check req a w')) w'
| out_blocked a w' :
    passes_gates req w a w' ->
    7 <= score (spam_check req a) ->
    route_outcome req w
      (DeliverabilityBlocked (score (spam_check req a))
         (issues (spam_check req a)) (recommendations (spam_check req a))) w'
| out_insufficient a w1 w' :
    passes_gates req w a w1 ->
    score (spam_check req a) < 7 ->
    insufficient (final_text_of req) = true ->
    untouched w1 w' ->
    no_transport w1 w' ->
    warned req a w1 w' ->
    route_outcome req w InsufficientContent w'
| out_created a w1 w' m sr :
    passes_gates req w a w1 ->
    score (spam_check req a) < 7 ->
    insufficient (final_text_of req) = false ->
    quota_step (user_id req) (provider_of a) w1 w' (confirms sr) ->
    warned req a w1 w' ->
    emailMessages w' = emailMessages w1 ++ [m] ->
    msg_messageType m = MtSent ->
    msg_htmlBody m = sanitized_body req ->
    msg_textBody m = final_text_of req ->
    route_outcome req w (Created (msg_id m) (msg_threadId m) sr) w'
| out_persist_failed a w1 w' k :
    passes_gates req w a w1 ->
    score (spam_check req a) < 7 ->
    insufficient (final_text_of req) = false ->
    quota_step (user_id req) (provider_of a) w1 w' k ->
    warned req a w1 w' ->
    route_outcome req w ServerError w'.

(** The calls of a pool that have not started, and those awaiting their
    [verify]. *)
Definition waiting (cs : list call) : nat :=
  length (List.filter (fun c => negb (started c)) cs).

Definition is_awaiting (c : call) : bool :=
  match c with AwaitingVerify _ => true | _ => false end.

Definition awaiting (cs : list call) : nat :=
  length (List.filter is_awaiting cs).

(** The calls of a pool that answered [true]. *)
Definition saved_count (calls : list (ExternalMessage * save_point)) : nat :=
  length (List.filter (fun c => saved c.2) calls).

(** The answer of a call as a settled point. *)
Definition settled_as (r : result bool) : result save_point :=
  match r with Val b => Val (Resolved b) | Exn e => Exn e end.

(** The next external call does not throw. *)
Definition next_completes (w : World) : Prop :=
  match pending w with Raise _ :: _ => False | _ => True end.

(** The providers [sendFromAccount] and [testAccountConnection] know. *)
Definition supported (p : jsstring) : bool :=
  jseqb p (js "gmail") || jseqb p (js "outlook")
  || jseqb p (js "smtp") || jseqb p (js "imap").

(** The pauses of a run of the retry loop that fails [left] times from
    attempt [attempt] on. *)
Fixpoint total_backoff (left : nat) (attempt : Z) : Z :=
  match left with
  | O => 0
  | S left' =>
      Z.min (1000 * 2 ^ attempt) 5000 + total_backoff left' (attempt + 1)
  end.

(** The outcomes of one pass of the retry loop whose lookup and thread
    insert complete and whose message insert throws. *)
Definition failing_insert (f : jsstring * jsstring * jsstring)
  : list outcome :=
  [Succeed f.1.1; Succeed f.1.2; Raise f.2].

(** A world with empty tables and nothing pending. *)
Definition empty_world (rl : RL) : World :=
  mkWorld [] [] [] [] 0 0 ∅ 0 rl [] [].

(** * Properties *)

(** A lemma depends on the services of the route only when its statement
    names them. *)
Set Default Proof Using "Type".

Arguments find_message : simpl never.
Arguments find_thread : simpl never.
Arguments find_account : simpl never.
Arguments find_owned_account : simpl never.
Arguments first_in_order : simpl never.
Arguments accounts_of : simpl never.
Arguments transporter_for : simpl never.
Arguments sanitizeHtml : simpl never.
Arguments strip_tags : simpl never.
Arguments js : simpl never.
Arguments jseqb : simpl never.

(** ** The patterns and the sanitizer *)

Lemma star_loop_0 body g k p s : star_loop body g k 0 p s = k p s.
Proof. cbn. destruct g; [done|]. by destruct (k p s). Qed.

Lemma star_loop_S body g k n p s :
  star_loop body g k (S n) p s =
  let more :=
    body (fun p' s' => if (length s' <? length s)%nat
                       then star_loop body g k n p' s' else None) p s in
  if g then match more with Some z => Some z | None => k p s end
  else match k p s with Some z => Some z | None => more end.
Proof. reflexivity. Qed.

Lemma star_loop_shrinks body g k :
  (forall k', shrinks k' -> shrinks (body k')) ->
  shrinks k -> forall n, shrinks (star_loop body g k n).
Proof.
  intros Hbody Hk n. induction n as [|n IH]; intros p s p' s'.
  - rewrite star_loop_0. apply Hk.
  - rewrite star_loop_S. cbv zeta.
    match goal with |- context [body ?f p s] => set (k' := f) end.
    assert (Hk' : shrinks k').
    { intros p1 s1 p2 s2. unfold k'. destruct (_ <? _)%nat; [apply IH|done]. }
    specialize (Hbody k' Hk' p s p' s').
    destruct g.
    + destruct (body k' p s) as [z|] eqn:E.
      * intros [= ->]. auto.
      * apply Hk.
    + destruct (k p s) as [z|] eqn:E.
      * intros [= ->]. eapply Hk, E.
      * auto.
Qed.

Lemma rx_shrinks r : forall k, shrinks k -> shrinks (rx r k).
Proof.
  induction r as [|cls| |r1 IH1 r2 IH2|g r IH]; intros k Hk; cbn [rx].
  - done.
  - intros p [|c t] p' s'; [done|]. destruct (cls c); [|done].
    intros H. apply suffix_cons_r. eapply Hk, H.
  - intros p s p' s'. destruct (xorb _ _); [apply Hk|done].
  - auto.
  - intros p s. apply star_loop_shrinks; auto.
Qed.

Lemma match_here_suffix r p s p' s' :
  match_here r p s = Some (p', s') -> s' `suffix_of` s.
Proof.
  apply (rx_shrinks r). intros ? ? ? ? [= _ ->]. done.
Qed.

Lemma remove_from_sublist r fuel : forall p s,
  remove_from r fuel p s `sublist_of` s.
Proof.
  induction fuel as [|fuel IH]; intros p s; cbn [remove_from]; [done|].
  assert (Hkeep : match s with
                  | c :: t => c :: remove_from r fuel (Some c) t
                  | [] => []
                  end `sublist_of` s).
  { destruct s; [done|]. by apply sublist_skip. }
  destruct (match_here r p s) as [[p' s']|] eqn:E; [|done].
  destruct (_ <? _)%nat; [|done].
  apply match_here_suffix in E as [k ->].
  apply sublist_inserts_l, IH.
Qed.

(** The sanitizer only deletes. *)
Lemma sanitizeHtml_sublist html : sanitizeHtml html `sublist_of` html.
Proof.
  unfold sanitizeHtml. destruct (negb (truthy html)).
  - apply sublist_nil_l.
  - etrans; apply remove_from_sublist.
Qed.

(** Enough fuel is enough. *)
Lemma remove_from_fuel r : forall n f f' p s,
  (length s < n)%nat -> (length s < f)%nat -> (length s < f')%nat ->
  remove_from r f p s = remove_from r f' p s.
Proof.
  induction n as [|n IH]; intros f f' p s Hn Hf Hf'; [lia|].
  destruct f as [|f]; [lia|]. destruct f' as [|f']; [lia|].
  cbn [remove_from].
  assert (Hkeep :
    match s with c :: t => c :: remove_from r f (Some c) t | [] => [] end
    = match s with c :: t => c :: remove_from r f' (Some c) t | [] => [] end).
  { destruct s as [|c t]; [done|]. cbn in *. f_equal. apply IH; lia. }
  destruct (match_here r p s) as [[p' s']|] eqn:E; [|done].
  destruct (length s' <? length s)%nat eqn:L; [|done].
  apply Nat.ltb_lt in L. apply IH; lia.
Qed.

(** Greedy [cls*]: over a run of [cls] that ends before a code unit
    outside [cls], the star takes the whole run when the continuation
    accepts there. *)
Lemma star_greedy_run cls (k : K) z c rest : forall l n p,
  Forall (fun x => cls x = true) l -> cls c = false ->
  (length l <= n)%nat ->
  k (last_of p l) (c :: rest) = Some z ->
  star_loop (rx (Chr cls)) true k n p (l ++ c :: rest) = Some z.
Proof.
  induction l as [|x l IH]; intros n p Hl Hc Hn Hk; cbn in Hk.
  - destruct n; [by rewrite star_loop_0|].
    rewrite star_loop_S. cbn. by rewrite Hc, Hk.
  - destruct n as [|n]; [cbn in Hn; lia|].
    apply Forall_cons in Hl as [Hx Hl].
    rewrite star_loop_S. cbn [rx app]. cbv zeta. rewrite Hx.
    rewrite (proj2 (Nat.ltb_lt _ _)) by (cbn; lia).
    rewrite IH; auto. cbn in Hn. lia.
Qed.

(** Lazy [cls*?]: the star stops at the first cursor where the
    continuation accepts. *)
Lemma star_lazy_run cls (k : K) z rest : forall l n p,
  Forall (fun x => cls x = true) l ->
  (forall q x t, x ∈ l -> k q (x :: t) = None) ->
  (length l <= n)%nat ->
  k (last_of p l) rest = Some z ->
  star_loop (rx (Chr cls)) false k n p (l ++ rest) = Some z.
Proof.
  induction l as [|x l IH]; intros n p Hl Hfail Hn Hk; cbn in Hk.
  - destruct n; [by rewrite star_loop_0|].
    rewrite star_loop_S. cbn. by rewrite Hk.
  - destruct n as [|n]; [cbn in Hn; lia|].
    apply Forall_cons in Hl as [Hx Hl].
    rewrite star_loop_S. cbn [rx app]. cbv zeta.
    rewrite (Hfail p x (l ++ rest)) by (by left). rewrite Hx.
    rewrite (proj2 (Nat.ltb_lt _ _)) by (cbn; lia).
    apply IH; auto.
    + intros q y t Hy. apply Hfail. by right.
    + cbn in Hn. lia.
Qed.

Lemma rx_lit_i s : forall t k p rest,
  same_i t s ->
  rx (lit_i s) k p (t ++ rest) = k (last_of p t) rest.
Proof.
  unfold same_i.
  induction s as [|a s IH]; intros [|c t] k p rest H; try done.
  cbn [lit_i rx chr_i app]. cbn in H. injection H as Hc Ht.
  rewrite Hc, N.eqb_refl. cbn [last_of fold_left]. by apply IH.
Qed.

Lemma rx_lit_i_head s a c t k p :
  upper c <> upper (N_of_ascii a) ->
  rx (lit_i (String a s)) k p (c :: t) = None.
Proof.
  intros H. cbn [lit_i rx chr_i]. by rewrite (proj2 (N.eqb_neq _ _)).
Qed.

Lemma is_word_upper c : is_word (upper c) = is_word c.
Proof.
  unfold upper. destruct ((97 <=? c) && (c <=? 122))%N eqn:E; [|done].
  unfold is_word at 2. rewrite E, orb_true_r. cbn.
  apply andb_true_iff in E as [E1 E2]. apply N.leb_le in E1, E2.
  unfold is_word.
  replace ((65 <=? c - 32) && (c - 32 <=? 90))%N with true; cycle 1.
  { symmetry. apply andb_true_iff. split; apply N.leb_le; lia. }
  by rewrite orb_true_r.
Qed.

Lemma upper_word c d : upper c = upper d -> is_word c = is_word d.
Proof.
  intros H. rewrite <- (is_word_upper c), <- (is_word_upper d). by rewrite H.
Qed.

Lemma upper_plain c d :
  (d < 65 \/ 90 < d)%N -> (d < 97 \/ 122 < d)%N ->
  upper c = upper d -> c = d.
Proof.
  unfold upper. intros Hd Hd' H.
  repeat match goal with
         | _ : context [(?a <=? ?b)%N] |- _ => destruct (N.leb_spec a b)
         end; cbn in *; lia.
Qed.

Lemma same_i_last t s : forall p q,
  s <> EmptyString -> same_i t s ->
  is_word_opt (last_of p t) = is_word_opt (last_of q (js s)).
Proof.
  unfold same_i, js. revert t.
  induction s as [|a s IH]; intros t p q Hs H; [done|].
  destruct t as [|c t]; [done|]. cbn in H. injection H as Hc Ht.
  destruct s as [|b s].
  - destruct t; [|done]. cbn. by apply upper_word.
  - apply (IH t (Some c) (Some (N_of_ascii a))); done.
Qed.

(** The script pattern on a well-formed element: it matches, and the match
    ends right after the closing tag. *)
Lemma script_re_matches p opening attrs body closing post :
  same_i opening "<script" ->
  Forall (fun x => x <> gt_sign) attrs ->
  is_word_opt (head attrs) = false ->
  Forall (fun x => x <> lt_sign) body ->
  same_i closing "</script>" ->
  match_here script_re p
    (opening ++ attrs ++ gt_sign :: body ++ closing ++ post)
  = Some (last_of None closing, post).
Proof.
  intros Ho Ha Hw Hb Hc. unfold match_here, script_re.
  cbn [rx]. rewrite rx_lit_i by done. unfold not_chr, any.
  replace (xorb _ _) with true; cycle 1.
  { rewrite (same_i_last opening "<script" p None) by done.
    destruct attrs as [|a attrs]; [done|]. cbn in *. by rewrite Hw. }
  erewrite star_greedy_run; [done| | |by rewrite length_app; lia|].
  - eapply Forall_impl; [exact Ha|]. intros x Hx. cbn.
    apply negb_true_iff, N.eqb_neq. exact Hx.
  - done.
  - cbn [rx chr_i]. change (upper gt_sign =? upper (N_of_ascii ">"))%N with true.
    cbv iota.
    apply (star_lazy_run (fun _ => true)).
    + by apply Forall_true.
    + intros q x t Hx. apply rx_lit_i_head.
      rewrite Forall_forall in Hb. specialize (Hb x Hx).
      intros Hu. apply Hb. by apply (upper_plain x 60%N); [lia|lia|].
    + rewrite length_app; lia.
    + rewrite rx_lit_i by done. f_equal. f_equal.
      destruct closing as [|c cl]; [done|]. done.
Qed.

(** The handler pattern on a double-quoted [on...] attribute. *)
Lemma handler_re_matches p on_ c name value post :
  same_i on_ "on" ->
  is_word c = true ->
  Forall (fun x => is_word x = true) name ->
  Forall (fun x => x <> quote_sign) value ->
  match_here handler_re p
    (on_ ++ c :: name ++ eq_sign :: quote_sign :: value ++ quote_sign :: post)
  = Some (Some quote_sign, post).
Proof.
  intros Ho Hc Hn Hv. unfold match_here, handler_re, one_or_more.
  cbn [rx]. rewrite rx_lit_i by done. unfold word, not_chr.
  cbn [rx]. rewrite Hc.
  apply (star_greedy_run is_word); [exact Hn|done|rewrite length_app; lia|].
  cbn [chr_i rx].
  change (upper eq_sign =? upper (N_of_ascii "="))%N with true.
  change (upper quote_sign =? upper (N_of_ascii dquote))%N with true.
  cbv iota.
  apply (star_greedy_run (fun x => negb (x =? N_of_ascii dquote)%N)).
  - eapply Forall_impl; [exact Hv|]. intros x Hx. cbn.
    apply negb_true_iff, N.eqb_neq. exact Hx.
  - done.
  - rewrite length_app. lia.
  - done.
Qed.

Lemma remove_from_keep r f p c t :
  match_here r p (c :: t) = None ->
  remove_from r (S f) p (c :: t) = c :: remove_from r f (Some c) t.
Proof. intros H. cbn [remove_from]. by rewrite H. Qed.

Lemma remove_from_match r f p s p' s' :
  match_here r p s = Some (p', s') -> (length s' < length s)%nat ->
  remove_from r (S f) p s = remove_from r f p' s'.
Proof.
  intros H L. cbn [remove_from]. rewrite H.
  by rewrite (proj2 (Nat.ltb_lt _ _)).
Qed.

(** Text in which no match can begin is copied. *)
Lemma remove_from_prefix r pre : forall f p s,
  (forall q x t, x ∈ pre -> match_here r q (x :: t) = None) ->
  remove_from r (length pre + f) p (pre ++ s)
  = pre ++ remove_from r f (last_of p pre) s.
Proof.
  induction pre as [|c pre IH]; intros f p s H; [done|].
  cbn [length Nat.add app]. rewrite remove_from_keep by (apply H; by left).
  f_equal. apply IH. intros q x t Hx. apply H. by right.
Qed.

(** Neither pattern looks at what precedes the match. *)
Lemma script_re_prev p q s : match_here script_re p s = match_here script_re q s.
Proof. reflexivity. Qed.

Lemma handler_re_prev p q s :
  match_here handler_re p s = match_here handler_re q s.
Proof. reflexivity. Qed.

Lemma remove_from_prev r :
  (forall p q s, match_here r p s = match_here r q s) ->
  forall f p q s, remove_from r f p s = remove_from r f q s.
Proof.
  intros H f. induction f as [|f IH]; intros p q s; [done|].
  cbn [remove_from]. by rewrite (H p q s).
Qed.

Lemma remove_all_cut r pre elt post p' :
  (forall p q s, match_here r p s = match_here r q s) ->
  (forall q x t, x ∈ pre -> match_here r q (x :: t) = None) ->
  (forall p, match_here r p (elt ++ post) = Some (p', post)) ->
  elt <> [] ->
  remove_all r (pre ++ elt ++ post) = pre ++ remove_all r post.
Proof.
  intros Hprev Hpre Hm Hne. unfold remove_all.
  assert (Hlen : (length post < length (elt ++ post))%nat).
  { rewrite length_app. destruct elt; [done|cbn; lia]. }
  rewrite (remove_from_fuel r (S (length (pre ++ elt ++ post)))
             _ (length pre + S (S (length (elt ++ post)))) None)
    by (rewrite ?length_app in *; lia).
  rewrite remove_from_prefix by done. f_equal.
  rewrite (remove_from_match r _ _ _ p' post); [|apply Hm|done].
  rewrite (remove_from_prev r Hprev _ p' None).
  apply (remove_from_fuel r (S (length (elt ++ post)))); lia.
Qed.

Lemma script_head q x t : x <> lt_sign -> match_here script_re q (x :: t) = None.
Proof.
  intros Hx. unfold match_here, script_re. cbn [rx].
  apply rx_lit_i_head. intros Hu. apply Hx.
  by apply (upper_plain x 60%N); [lia|lia|].
Qed.

Lemma handler_head q x t :
  upper x <> 79%N -> match_here handler_re q (x :: t) = None.
Proof.
  intros Hx. unfold match_here, handler_re. cbn [rx].
  by apply rx_lit_i_head.
Qed.

(** A script element standing after text free of [<] is cut out whole. *)
Lemma script_element_removed pre opening attrs body closing post :
  Forall (fun x => x <> lt_sign) pre ->
  same_i opening "<script" ->
  Forall (fun x => x <> gt_sign) attrs ->
  is_word_opt (head attrs) = false ->
  Forall (fun x => x <> lt_sign) body ->
  same_i closing "</script>" ->
  remove_all script_re
    (pre ++ (opening ++ attrs ++ gt_sign :: body ++ closing) ++ post)
  = pre ++ remove_all script_re post.
Proof.
  intros Hp Ho Ha Hw Hb Hc.
  apply (remove_all_cut _ _ _ _ (last_of None closing)).
  - apply script_re_prev.
  - intros q x t Hx. apply script_head.
    rewrite Forall_forall in Hp. by apply Hp.
  - intros p. rewrite <- !app_assoc. cbn [app]. rewrite <- app_assoc.
    by apply script_re_matches.
  - destruct opening; [done|done].
Qed.

(** A double-quoted handler attribute standing after text free of [o] and
    [O] is cut out whole. *)
Lemma handler_attribute_removed pre on_ c name value post :
  Forall (fun x => upper x <> 79%N) pre ->
  same_i on_ "on" ->
  is_word c = true ->
  Forall (fun x => is_word x = true) name ->
  Forall (fun x => x <> quote_sign) value ->
  remove_all handler_re
    (pre ++ (on_ ++ c :: name ++ eq_sign :: quote_sign :: value
             ++ [quote_sign]) ++ post)
  = pre ++ remove_all handler_re post.
Proof.
  intros Hp Ho Hc Hn Hv.
  apply (remove_all_cut _ _ _ _ (Some quote_sign)).
  - apply handler_re_prev.
  - intros q x t Hx. apply handler_head.
    rewrite Forall_forall in Hp. by apply Hp.
  - intros p. repeat (rewrite <- app_assoc; cbn [app]).
    by apply handler_re_matches.
  - destruct on_; [done|done].
Qed.

(** ** Rules for running monadic code *)

Lemma wp_run {A} (m : M A) w Q :
  wp m w Q -> exists r w', m w = (r, w') /\ Q r w'.
Proof. unfold wp. destruct (m w) as [r w']. eauto. Qed.

Lemma wp_of_run {A} (m : M A) w r w' (Q : result A -> World -> Prop) :
  m w = (r, w') -> Q r w' -> wp m w Q.
Proof. unfold wp. by intros ->. Qed.

Lemma wp_ret {A} (a : A) w Q : Q (Val a) w -> wp (ret a) w Q.
Proof. done. Qed.

Lemma wp_throw {A} e w (Q : result A -> World -> Prop) :
  Q (Exn e) w -> wp (throw e) w Q.
Proof. done. Qed.

Lemma wp_bind {A B} (m : M A) (f : A -> M B) w Q :
  wp m w (fun r w' =>
            match r with
            | Val a => wp (f a) w' Q
            | Exn e => Q (Exn e) w'
            end) ->
  wp (bind m f) w Q.
Proof. unfold wp, bind. by destruct (m w) as [[a|e] w']. Qed.

Lemma wp_try_catch {A} (m : M A) h w Q :
  wp m w (fun r w' =>
            match r with
            | Val a => Q (Val a) w'
            | Exn e => wp (h e) w' Q
            end) ->
  wp (try_catch m h) w Q.
Proof. unfold wp, try_catch. by destruct (m w) as [[a|e] w']. Qed.

Lemma wp_mono {A} (m : M A) w (Q Q' : result A -> World -> Prop) :
  wp m w Q -> (forall r w', Q r w' -> Q' r w') -> wp m w Q'.
Proof. unfold wp. auto. Qed.

Lemma wp_emit e w Q :
  Q (Val tt) (with_trace w (e :: trace w)) -> wp (emit e) w Q.
Proof. done. Qed.

Lemma wp_log lvl m w Q :
  Q (Val tt) (with_trace w (EvLog lvl m :: trace w)) -> wp (log lvl m) w Q.
Proof. done. Qed.

Lemma wp_now w Q : Q (Val (clock w)) w -> wp now w Q.
Proof. done. Qed.

Lemma wp_sleep d w Q :
  Q (Val tt) (with_clock w (clock w + d)) -> wp (sleep d) w Q.
Proof. done. Qed.

Lemma wp_fresh_id w Q :
  Q (Val (nextId w)) (with_nextId w (S (nextId w))) -> wp fresh_id w Q.
Proof. done. Qed.

Lemma wp_external w Q :
  (pending w = [] -> Q (Val []) w) ->
  (forall p rest, pending w = Succeed p :: rest ->
                  Q (Val p) (with_pending w rest)) ->
  (forall e rest, pending w = Raise e :: rest ->
                  Q (Exn e) (with_pending w rest)) ->
  wp external w Q.
Proof.
  unfold wp, external. intros H0 H1 H2.
  destruct (pending w) as [|[p|e] rest]; cbn; auto.
Qed.

Lemma wp_db_statement w Q :
  (pending w = [] -> Q (Val tt) w) ->
  (forall p rest, pending w = Succeed p :: rest ->
                  Q (Val tt) (with_pending w rest)) ->
  (forall e rest, pending w = Raise e :: rest ->
                  Q (Exn e) (with_pending w rest)) ->
  wp db_statement w Q.
Proof.
  intros H0 H1 H2. unfold db_statement. apply wp_bind, wp_external; auto.
Qed.

Lemma wp_query {A} (f : World -> A) w Q :
  (pending w = [] -> Q (Val (f w)) w) ->
  (forall p rest, pending w = Succeed p :: rest ->
                  Q (Val (f (with_pending w rest))) (with_pending w rest)) ->
  (forall e rest, pending w = Raise e :: rest ->
                  Q (Exn e) (with_pending w rest)) ->
  wp (query f) w Q.
Proof.
  intros H0 H1 H2. unfold query. apply wp_bind, wp_db_statement; auto.
Qed.

Lemma wp_fun {A} (f : World -> result A * World) w Q :
  Q (fst (f w)) (snd (f w)) -> wp f w Q.
Proof. done. Qed.


Ltac wp_step :=
  lazymatch goal with
  | |- wp (bind _ _) _ _ => apply wp_bind
  | |- wp (try_catch _ _) _ _ => apply wp_try_catch
  | |- wp (ret _) _ _ => apply wp_ret
  | |- wp (throw _) _ _ => apply wp_throw
  | |- wp (log _ _) _ _ => apply wp_log
  | |- wp (emit _) _ _ => apply wp_emit
  | |- wp now _ _ => apply wp_now
  | |- wp (sleep _) _ _ => apply wp_sleep
  | |- wp fresh_id _ _ => apply wp_fresh_id
  | |- wp external _ _ =>
      apply wp_external; [intros ?|intros ? ? ?|intros ? ? ?]
  | |- wp db_statement _ _ =>
      apply wp_db_statement; [intros ?|intros ? ? ?|intros ? ? ?]
  | |- wp (query _) _ _ =>
      apply wp_query; [intros ?|intros ? ? ?|intros ? ? ?]
  | |- wp (if ?b then _ else _) _ _ => destruct b eqn:?
  | |- wp (match ?o with Some _ => _ | None => _ end) _ _ =>
      destruct o eqn:?
  | |- wp (fun _ => _) _ _ => apply wp_fun; cbn
  end.

Ltac wp_run := repeat (wp_step; cbn).

(** ** Idempotent persistence of inbound messages *)

Lemma save_attempt_outcome message account userId h w :
  wp (save_attempt message account userId h) w
     (fun r w' => attempt_outcome message h w r w'
                  /\ trace w' = trace w /\ same_rest w w').
Proof.
  unfold save_attempt, insert_thread, insert_message.
  repeat (wp_step; cbn).
  all: try (split; [|done]).
  all: try (by eapply attempt_skipped; cbn; [congruence|..]).
  all: try (by eapply attempt_threw; cbn; eauto 8).
  all: try (by eapply attempt_attached; cbn; eauto; done).
  all: try (by eapply attempt_created; cbn; eauto; done).
  all: try (eapply attempt_threw; cbn; [done|right; split; [done|]];
            eexists; split; done).
  all: try (eapply attempt_created; cbn; eauto; try done; congruence).
Qed.

Lemma stored_find id w :
  stored id w <-> find_message id (emailMessages w) <> None.
Proof.
  unfold stored, find_message. split.
  - intros (m & Hin & Hm) Hnone.
    apply (find_none _ _ Hnone) in Hin. apply bool_decide_eq_false in Hin. done.
  - destruct (find _ _) as [m|] eqn:Hf; [|done]. intros _.
    apply find_some in Hf as [Hin Hm]. apply bool_decide_eq_true in Hm. eauto.
Qed.

Lemma find_none_filter id (rows : list Message) :
  find_message id rows = None -> List.filter (has_id id) rows = [].
Proof.
  unfold find_message, has_id. induction rows as [|m l IH]; [done|].
  cbn. destruct (bool_decide _); [done|]. auto.
Qed.

Lemma find_thread_unlinked id (rows new : list Thread) :
  Forall unlinked new -> find_thread id (rows ++ new) = find_thread id rows.
Proof.
  intros Hnew. unfold find_thread. induction rows as [|t l IH]; cbn.
  - induction Hnew as [|t l [Ht _] _ IH]; [done|]. cbn.
    rewrite Ht. rewrite bool_decide_eq_false_2; done.
  - destruct (bool_decide _); [done|]. apply IH.
Qed.

(** With the id in storage every pass stops at the existence check. *)
Lemma save_attempts_stored message account userId h retries left :
  forall attempt w,
    stored (externalMessageId message) w ->
    wp (save_attempts message account userId h retries left attempt) w
       (fun r w' => r = Val false
                    /\ emailMessages w' = emailMessages w
                    /\ emailThreads w' = emailThreads w
                    /\ same_rest w w').
Proof.
  induction left as [|left IH]; intros attempt w Hs; cbn [save_attempts];
    apply wp_try_catch;
    (eapply wp_mono; [apply save_attempt_outcome|]);
    intros r w' (Ho & _ & Hr); apply stored_find in Hs as Hf;
    destruct Ho as [| | |w' e Hm [Ht|[Hn _]]]; try done;
    repeat (wp_step; cbn);
    try (unfold same_rest in *; cbn;
         repeat match goal with H : _ /\ _ |- _ => destruct H end;
         repeat split; congruence).
  eapply wp_mono; [apply IH|].
    + destruct Hs as (m & Hin & Hm'). exists m. cbn. by rewrite Hm.
    + cbn. intros r w2 (-> & Hm2 & Ht2 & Hr2).
      unfold same_rest in *; cbn in *.
      repeat match goal with H : _ /\ _ |- _ => destruct H end.
      repeat split; congruence.
Qed.

Lemma save_outcome_shift message h w w1 b w' t :
  emailMessages w1 = emailMessages w ->
  emailThreads w1 = emailThreads w ++ [t] ->
  unlinked t ->
  save_outcome message h w1 b w' ->
  save_outcome message h w b w'.
Proof.
  intros Hm Ht Hu Ho.
  destruct Ho as [w' new H1 H2 H3|w' new t' m H1 H2 H3 H4 H5 H6 H7 H8 H9
                  |w' new t' m H1 H2 H3 H4 H5 H6 H7 H8 H9].
  - apply (save_skipped _ _ _ _ (t :: new)); [congruence| |by constructor].
    rewrite H2, Ht, <- app_assoc. done.
  - rewrite Ht, find_thread_unlinked in H3 by (by constructor).
    eapply (save_attached _ _ _ _ (t :: new)); eauto; try congruence;
      try (by constructor).
    rewrite H4, Ht, <- app_assoc. done.
  - rewrite Ht in H2.
    eapply (save_created _ _ _ _ (t :: new)); eauto; try congruence;
      try (by constructor).
    + intros Hx. specialize (H2 Hx).
      rewrite find_thread_unlinked in H2 by (by constructor). done.
    + rewrite H3, Ht, <- app_assoc. done.
Qed.

Lemma save_outcome_same message h w w1 b w' :
  emailMessages w1 = emailMessages w ->
  emailThreads w1 = emailThreads w ->
  save_outcome message h w1 b w' ->
  save_outcome message h w b w'.
Proof.
  intros Hm Ht Ho.
  destruct Ho; rewrite ?Hm, ?Ht in *;
    [eapply save_skipped|eapply save_attached|eapply save_created]; eauto.
Qed.

Lemma attempt_is_save message h w b w' :
  attempt_outcome message h w (Val b) w' -> save_outcome message h w b w'.
Proof.
  inversion 1; subst.
  - eapply (save_skipped _ _ _ _ []); eauto. by rewrite app_nil_r.
  - eapply (save_attached _ _ _ _ []); eauto. by rewrite app_nil_r.
  - eapply (save_created _ _ _ _ []); eauto.
Qed.

Lemma save_attempts_outcome message account userId h retries left :
  forall attempt w,
    wp (save_attempts message account userId h retries left attempt) w
       (fun r w' => exists b, r = Val b /\ save_outcome message h w b w'
                              /\ same_rest w w').
Proof.
  induction left as [|left IH]; intros attempt w; cbn [save_attempts];
    apply wp_try_catch;
    (eapply wp_mono; [apply save_attempt_outcome|]);
    intros [b|e] w' (Ho & _ & Hr).
  - eauto using attempt_is_save.
  - repeat (wp_step; cbn). exists false. split; [done|]. split; [|done].
    inversion Ho as [| | |? ? Hm [Ht|(_ & t & Ht & Hu)]]; subst.
    + eapply (save_skipped _ _ _ _ []); eauto. by rewrite app_nil_r.
    + eapply (save_skipped _ _ _ _ [t]); eauto.
  - eauto using attempt_is_save.
  - repeat (wp_step; cbn).
    eapply wp_mono; [apply IH|]. cbn.
    intros r w2 (b & -> & Ho2 & Hr2). exists b. split; [done|]. split.
    + inversion Ho as [| | |? ? Hm [Ht|(_ & t & Ht & Hu)]]; subst.
      * eapply save_outcome_same; [| |exact Ho2]; done.
      * eapply save_outcome_shift; [| | |exact Ho2]; cbn; eauto.
    + unfold same_rest in *; cbn in *.
      repeat match goal with H : _ /\ _ |- _ => destruct H end.
      repeat split; congruence.
Qed.

Lemma run_pair {A} (m : M A) w : m w = (fst (m w), snd (m w)).
Proof. by destruct (m w). Qed.

Lemma saveMessageWithRetry_outcome message account userId retries w :
  exists b w',
    saveMessageWithRetry message account userId retries w = (Val b, w')
    /\ save_outcome message (sanitizeHtml (em_htmlBody message)) w b w'
    /\ same_rest w w'.
Proof.
  unfold saveMessageWithRetry. destruct (retries <? 0).
  - exists false, w. split; [done|]. split; [|done].
    eapply (save_skipped _ _ _ _ []); eauto. by rewrite app_nil_r.
  - pose proof (save_attempts_outcome message account userId
                  (sanitizeHtml (em_htmlBody message)) retries
                  (Z.to_nat retries) 0 w) as H.
    unfold wp in H. rewrite run_pair.
    destruct H as (b & -> & Ho). eauto.
Qed.

Lemma saveMessageWithRetry_stored message account userId retries w :
  stored (externalMessageId message) w ->
  exists w',
    saveMessageWithRetry message account userId retries w = (Val false, w')
    /\ emailMessages w' = emailMessages w
    /\ emailThreads w' = emailThreads w
    /\ same_rest w w'.
Proof.
  intros Hs. unfold saveMessageWithRetry. destruct (retries <? 0).
  - by exists w.
  - pose proof (save_attempts_stored message account userId
                  (sanitizeHtml (em_htmlBody message)) retries
                  (Z.to_nat retries) 0 w Hs) as H.
    unfold wp in H. rewrite run_pair.
    destruct H as (-> & H). eauto.
Qed.

(** C1.  [saveMessageWithRetry] never throws.  When the
    [externalMessageId] of the message is already in storage it returns
    [false] and inserts nothing, whatever the database does meanwhile.  When
    it returns [true], storage holds exactly one Message with that id, and
    every later sync of the same message is such a skip: after the two
    syncs the id is there once. *)
Theorem resync_persists_once message account userId retries w :
  (exists b w', saveMessageWithRetry message account userId retries w
                = (Val b, w'))
  /\ (stored (externalMessageId message) w ->
      exists w',
        saveMessageWithRetry message account userId retries w
        = (Val false, w')
        /\ emailMessages w' = emailMessages w
        /\ emailThreads w' = emailThreads w)
  /\ (forall w1,
        saveMessageWithRetry message account userId retries w
        = (Val true, w1) ->
        copies (externalMessageId message) w1 = 1%nat
        /\ forall account' userId' retries',
            exists w2,
              saveMessageWithRetry message account' userId' retries' w1
              = (Val false, w2)
              /\ emailMessages w2 = emailMessages w1
              /\ emailThreads w2 = emailThreads w1
              /\ copies (externalMessageId message) w2 = 1%nat).
Proof.
  split; [|split].
  - destruct (saveMessageWithRetry_outcome message account userId retries w)
      as (b & w' & H & _). eauto.
  - intros Hs.
    destruct (saveMessageWithRetry_stored message account userId retries w Hs)
      as (w' & H & Hm & Ht & _). eauto.
  - intros w1 Hrun.
    destruct (saveMessageWithRetry_outcome message account userId retries w)
      as (b & w' & H & Ho & _).
    rewrite Hrun in H. injection H as <- <-.
    assert (Hc : copies (externalMessageId message) w1 = 1%nat
                 /\ stored (externalMessageId message) w1).
    { unfold copies, stored.
      inversion Ho as [|? ? ? m Hn _ _ _ _ Hm _ Hid _
                       |? ? ? m Hn _ _ _ _ Hm _ Hid _]; subst;
        rewrite Hm, List.filter_app, (find_none_filter _ _ Hn); cbn;
        unfold has_id; rewrite bool_decide_eq_true_2 by done;
        (split; [done|]); exists m; (split; [|done]);
        apply in_or_app; right; by left. }
    destruct Hc as [Hc Hs]. split; [done|].
    intros account' userId' retries'.
    destruct (saveMessageWithRetry_stored message account' userId' retries'
                w1 Hs) as (w2 & H2 & Hm & Ht & _).
    exists w2. repeat split; try done. unfold copies in *. by rewrite Hm.
Qed.


(** ** The send route *)

Lemma wp_getOrCreateTransporter account w Q :
  (forall t, transporterCache w !! acc_id account = Some t ->
             wp (log Debug LCacheHit ;;; ret t) w Q) ->
  (transporterCache w !! acc_id account = None ->
   wp (log Info LCacheMiss ;;;
       transporter <- createTransport account ;;
       try_catch
         (verify transporter ;;;
          cache_set (acc_id account) transporter ;;;
          log Info LVerified ;;;
          ret transporter)
         (fun _ =>
            log Error LVerificationFailed ;;;
            throw (js "SMTP connection verification failed."))) w Q) ->
  wp (getOrCreateTransporter account) w Q.
Proof.
  intros Hhit Hmiss. unfold wp, getOrCreateTransporter.
  cbv zeta.
  destruct (transporterCache w !! acc_id account) as [t|] eqn:E;
    [apply (Hhit t eq_refl)|apply (Hmiss eq_refl)].
Qed.

Ltac frame :=
  unfold no_transport in *;
  repeat match goal with
         | H : untouched _ _ |- _ => destruct H
         | H : _ /\ _ |- _ => destruct H
         end;
  unfold count in *; cbn in *;
  repeat match goal with
         | |- exists _, _ = _ /\ _ => eexists; split; [reflexivity|]
         | |- _ /\ _ => split
         | |- untouched _ _ => split
         end;
  (unfold confirms; cbn in *; first [done | congruence | lia]).

Lemma getOrCreateTransporter_quiet account w :
  wp (getOrCreateTransporter account) w
     (fun r w' => untouched w w'
                  /\ count is_spam_warning (trace w')
                     = count is_spam_warning (trace w)
                  /\ no_transport w w').
Proof.
  apply wp_getOrCreateTransporter; [intros t Ht|intros Ht];
    unfold createTransport, verify, cache_set; wp_run; frame.
Qed.

Lemma sendFromAccount_spec accountId emailData w :
  wp (sendFromAccount accountId emailData) w
     (fun r w' =>
        exists sr, r = Val sr /\ untouched w w'
          /\ count is_spam_warning (trace w')
             = count is_spam_warning (trace w)
          /\ count is_confirmed (trace w')
             = (confirms sr + count is_confirmed (trace w))%nat).
Proof.
  unfold sendFromAccount, sendViaGmail, sendViaOutlook, sendViaSMTP,
    provider_send, oauth_send.
  wp_run.
  all: try (by frame).
  all: try (eexists; split; [reflexivity|]; unfold confirms;
            match goal with
            | |- context [success (oauthAnswer ?v ?p)] =>
                destruct (success (oauthAnswer v p)) eqn:?
            end; by frame).
  all: (eapply wp_mono; [apply getOrCreateTransporter_quiet|]);
       intros [t|e] w' (Hu & Hs & Hc); wp_run; frame.
Qed.


Lemma persist_and_dispatch_spec req a provider fromEmail to cc bcc html text w :
  wp (persist_and_dispatch req a provider fromEmail to cc bcc html text) w
     (fun r w' =>
        exists k,
          quota_step (user_id req) provider w w' k
          /\ count is_spam_warning (trace w')
             = count is_spam_warning (trace w)
          /\ emailAccounts w' = emailAccounts w
          /\ match r with
             | Val resp =>
                 exists m sr,
                   resp = Created (msg_id m) (msg_threadId m) sr
                   /\ confirms sr = k
                   /\ emailMessages w' = emailMessages w ++ [m]
                   /\ msg_messageType m = MtSent
                   /\ msg_htmlBody m = html /\ msg_textBody m = text
             | Exn _ => True
             end).
Proof.
  unfold persist_and_dispatch, insert_thread, insert_message,
    insert_attachments, update_thread.
  wp_run.
  all: try (exists 0%nat; split; [by apply quota_kept|done]).
  all: (eapply wp_mono; [apply sendFromAccount_spec|]);
       intros r w' (sr & -> & Hu & Hs & Hc); unfold record_sent; wp_run.
  all: destruct Hu; unfold confirms in *; unfold count in *; cbn in *.
  all: try match goal with H : success _ = _ |- _ => rewrite H in Hc end.
  all: first [ exists 1%nat; split;
               [apply quota_used; unfold count; cbn in *;
                first [congruence|lia]|]
             | exists 0%nat; split;
               [apply quota_kept; unfold count; cbn in *;
                first [congruence|lia]|] ].
  all: split; [congruence|]; split; [congruence|]; try done.
  all: match goal with
       | H : emailMessages _ = _ ++ [?m] |- _ => exists m
       end; eexists; cbn;
       split; [reflexivity|].
  all: match goal with
       | H : success ?x = _ |- context [success ?x] => rewrite H
       end; repeat split; first [done | congruence | lia].
Qed.


Lemma resolve_account_quiet req w :
  wp (resolve_account req) w
     (fun r w' => untouched w w'
                  /\ no_transport w w'
                  /\ count is_spam_warning (trace w')
                     = count is_spam_warning (trace w)
                  /\ transporterCache w' = transporterCache w
                  /\ (forall a, r = Val (Some a) -> trace w' = trace w)).
Proof.
  unfold resolve_account, getDefaultAccount. wp_run.
  all: repeat split; cbn; done.
Qed.

Lemma check_and_send_outcome req a to cc bcc w0 w :
  passes_gates req w0 a w ->
  wp (check_and_send req a (provider_of a) to cc bcc) w
     (fun r w' =>
        match r with
        | Val resp => route_outcome req w0 resp w'
        | Exn _ =>
            route_outcome req w0 ServerError
              (with_trace w' (EvLog Error LErrorSendingEmail :: trace w'))
        end).
Proof.
  intros Hg. unfold check_and_send.
  destruct (7 <=? score (spam_check req a)) eqn:H7.
  { apply wp_ret. apply out_blocked; [done|]. by apply Z.leb_le. }
  apply Z.leb_gt in H7.
  apply wp_bind.
  assert (Hwarn :
    wp (if 5 <=? score (spam_check req a)
        then log Warn (LModerateSpamScore (score (spam_check req a))) ;;;
             log Warn (LSpamIssues (issues (spam_check req a)))
        else ret tt) w
       (fun r w' => r = Val tt /\ untouched w w'
                    /\ no_transport w w'
                    /\ warned req a w w')).
  { unfold warned. destruct (5 <=? score (spam_check req a)); wp_run;
      repeat split; cbn; done. }
  eapply wp_mono; [exact Hwarn|]. clear Hwarn.
  intros r w1 (-> & Hu & [Ha Hc] & Hw).
  fold (sanitized_body req). fold (final_text_of req).
  destruct (insufficient (final_text_of req)) eqn:Hi.
  { apply wp_ret. eapply out_insufficient; eauto. by split. }
  eapply wp_mono; [apply persist_and_dispatch_spec|].
  intros r w' (k & Hq & Hsw & Hacc & Hr).
  assert (Hq' : quota_step (user_id req) (provider_of a) w w' k).
  { destruct Hu. destruct Hq; [apply quota_kept|apply quota_used]; congruence. }
  assert (Hw' : warned req a w w').
  { unfold warned in *. congruence. }
  destruct r as [resp|e].
  - destruct Hr as (m & sr & -> & <- & Hm & Ht & Hh & Hx).
    eapply out_created; eauto. destruct Hu. congruence.
  - apply (out_persist_failed req w0 a w _ k); try done.
    destruct Hq'; [apply quota_kept|apply quota_used]; cbn; done.
Qed.

Lemma send_route_outcome req w :
  exists resp w',
    send_route req w = (Val resp, w') /\ route_outcome req w resp w'.
Proof.
  cut (wp (send_route req) w
         (fun r w' => exists resp, r = Val resp
                                   /\ route_outcome req w resp w')).
  { intros H. apply wp_run in H as (r & w' & Hrun & resp & -> & Ho). eauto. }
  unfold send_route, send_route_body.
  apply wp_try_catch.
  fold (invalid_recipients req).
  destruct (0 <? length (invalid_recipients req))%nat eqn:Hinv.
  { apply wp_ret. eexists; split; [done|]. apply out_invalid.
    intros E. rewrite E in Hinv. done. }
  assert (Hnil : invalid_recipients req = []).
  { destruct (invalid_recipients req); [done|]. done. }
  apply wp_bind. unfold wp at 1.
  destruct (resolve_account req w) as [[[a|]|e] w1] eqn:Hres; cbn.
  - apply wp_bind. unfold can_send at 1. apply wp_fun. cbn.
    fold (rate_check req a w1).
    destruct (allowed (rate_check req a w1)) eqn:Hal; cbn.
    + eapply wp_mono; [apply (check_and_send_outcome req a _ _ _ w)|].
      * done.
      * intros [resp|e] w' Ho; [eauto|]. wp_run. eauto.
    + try apply wp_ret. eexists; split; [done|]. by apply out_rate_limited.
  - try apply wp_ret. eexists; split; [done|]. by apply out_no_account.
  - wp_run. eexists; split; [done|]. by eapply out_lookup_failed.
Qed.


(** ** Sanitized bodies *)

Lemma sanitizeHtml_passes html :
  sanitizeHtml html = remove_all handler_re (remove_all script_re html).
Proof. unfold sanitizeHtml. by destruct html. Qed.

(** ** The transporter cache *)

(** C8.  With a connection cached under the account id,
    [getOrCreateTransporter] returns it and neither constructs nor verifies
    anything.  Otherwise it constructs one connection and calls [verify]
    once: when [verify] succeeds the connection is cached under the account
    id and returned; when it fails the call throws and the cache is as it
    was.  So an entry enters the cache only after its verification. *)
Theorem getOrCreateTransporter_caches_verified account (w : World) :
  match transporterCache w !! acc_id account with
  | Some t =>
      exists w',
        getOrCreateTransporter account w = (Val t, w')
        /\ transporterCache w' = transporterCache w
        /\ count is_create (trace w') = count is_create (trace w)
        /\ count is_verify (trace w') = count is_verify (trace w)
  | None =>
      let t := transporter_for account (nextSerial w) in
      exists r w',
        getOrCreateTransporter account w = (r, w')
        /\ count is_create (trace w') = S (count is_create (trace w))
        /\ count is_verify (trace w') = S (count is_verify (trace w))
        /\ match pending w with
           | Raise _ :: _ =>
               r = Exn (js "SMTP connection verification failed.")
               /\ transporterCache w' = transporterCache w
               /\ In (EvVerify t false) (trace w')
           | _ =>
               r = Val t
               /\ transporterCache w'
                  = <[acc_id account := t]> (transporterCache w)
               /\ In (EvVerify t true) (trace w')
           end
  end.
Proof.
  unfold getOrCreateTransporter. cbv zeta.
  destruct (transporterCache w !! acc_id account) as [t|] eqn:Hc.
  - eexists. split; [reflexivity|]. by cbn.
  - cbv [bind try_catch log emit createTransport verify external cache_set
         ret throw].
    cbn. destruct (pending w) as [|[p|e] rest]; cbn;
      eexists _, _; (split; [reflexivity|]); cbn; auto 10.
Qed.

(** ** The gates of the send route *)

Lemma resolve_account_run req (w : World) r w1 :
  resolve_account req w = (r, w1) ->
  untouched w w1 /\ no_transport w w1
  /\ count is_spam_warning (trace w1) = count is_spam_warning (trace w)
  /\ transporterCache w1 = transporterCache w
  /\ (forall a, r = Val (Some a) -> trace w1 = trace w).
Proof.
  intros H. pose proof (resolve_account_quiet req w) as Hq.
  unfold wp in Hq. by rewrite H in Hq.
Qed.

Lemma passes_gates_inj req (w : World) a w1 a' w1' :
  passes_gates req w a w1 -> passes_gates req w a' w1' ->
  a' = a /\ w1' = w1.
Proof.
  intros (_ & H & _) (_ & H' & _). rewrite H in H'. by injection H' as <- <-.
Qed.

Lemma quota_step_from (userId provider : jsstring) (w w1 w' : World) k :
  untouched w w1 -> no_transport w w1 ->
  quota_step userId provider w1 w' k ->
  quota_step userId provider w w' k.
Proof.
  intros Hu [_ Hc] Hq. destruct Hu.
  destruct Hq; [apply quota_kept|apply quota_used]; congruence.
Qed.

Lemma quota_kept_from (userId provider : jsstring) (w w' : World) :
  untouched w w' -> no_transport w w' ->
  quota_step userId provider w w' 0.
Proof. intros Hu [_ Hc]. destruct Hu. by apply quota_kept. Qed.

(** Every way out of the route in terms of the quota. *)
Lemma route_quota req (w : World) resp w' :
  route_outcome req w resp w' ->
  exists provider k,
    quota_step (user_id req) provider w w' k
    /\ (forall mid tid sr, resp = Created mid tid sr -> confirms sr = k)
    /\ (status resp = 400 \/ status resp = 429 -> k = 0%nat).
Proof.
  intros Ho. destruct Ho as
    [Hi|w' Hi Hr|e w1 Hi Hr|a w' Hi Hr Hal|a w' (Hi & Hr & Hal) H7
     |a w1 w' (Hi & Hr & Hal) H7 Hin Hu Hn Hw
     |a w1 w' m sr (Hi & Hr & Hal) H7 Hin Hq Hw Hm Ht Hh Hx
     |a w1 w' k (Hi & Hr & Hal) H7 Hin Hq Hw].
  - exists [], 0%nat. split; [by apply quota_kept|]. by split.
  - apply resolve_account_run in Hr as (Hu & Hn & _).
    exists [], 0%nat. split; [by apply quota_kept_from|]. by split.
  - apply resolve_account_run in Hr as (Hu & [Ha Hc] & _). destruct Hu.
    exists [], 0%nat. split; [by apply quota_kept|]. by split.
  - apply resolve_account_run in Hr as (Hu & Hn & _).
    exists [], 0%nat. split; [by apply quota_kept_from|]. by split.
  - apply resolve_account_run in Hr as (Hu & Hn & _).
    exists [], 0%nat. split; [by apply quota_kept_from|]. by split.
  - apply resolve_account_run in Hr as (Hu0 & Hn0 & _).
    exists [], 0%nat. split; [|by split].
    eapply quota_step_from; [exact Hu0|exact Hn0|].
    by apply quota_kept_from.
  - apply resolve_account_run in Hr as (Hu0 & Hn0 & _).
    exists (provider_of a), (confirms sr).
    split; [by eapply quota_step_from|].
    split; [by intros ? ? ? [= _ _ ->]|]. by intros [|].
  - apply resolve_account_run in Hr as (Hu0 & Hn0 & _).
    exists (provider_of a), k.
    split; [by eapply quota_step_from|]. split; [done|]. by intros [|].
Qed.

(** C7.  In every run of the send route, [recordEmailSent] is called as
    many times as a provider confirmed a send, which is at most once, and
    the rate limiter changes by exactly that call.  A response 201 carries
    [sendResult.success = true] if and only if the call was made; after a
    rejection by an earlier check (status 400 or 429) or a failed transport
    the rate limiter is as it was. *)
Theorem recordEmailSent_iff_confirmed req (w : World) :
  exists resp w',
    send_route req w = (Val resp, w')
    /\ ((count is_recorded (trace w') = count is_recorded (trace w)
         /\ count is_confirmed (trace w') = count is_confirmed (trace w)
         /\ rateLimiter w' = rateLimiter w)
        \/ (count is_recorded (trace w') = S (count is_recorded (trace w))
            /\ count is_confirmed (trace w')
               = S (count is_confirmed (trace w))
            /\ exists provider,
                 rateLimiter w'
                 = recordEmailSent (rateLimiter w) (clock w) (user_id req)
                     provider))
    /\ (forall mid tid sr,
          resp = Created mid tid sr ->
          (success sr = true
           <-> count is_recorded (trace w')
               = S (count is_recorded (trace w))))
    /\ (status resp = 400 \/ status resp = 429 ->
        count is_recorded (trace w') = count is_recorded (trace w)
        /\ rateLimiter w' = rateLimiter w).
Proof.
  destruct (send_route_outcome req w) as (resp & w' & Hrun & Ho).
  exists resp, w'. split; [done|].
  destruct (route_quota req w resp w' Ho) as (provider & k & Hq & Hc & Hrej).
  destruct Hq as [Hr Hcf Hrl|Hr Hcf Hrl].
  - split; [by left|]. split; [|done].
    intros mid tid sr ->. specialize (Hc _ _ _ eq_refl).
    unfold confirms in Hc. destruct (success sr); [done|].
    split; [done|]. rewrite Hr. lia.
  - split; [right; eauto|]. split.
    + intros mid tid sr ->. specialize (Hc _ _ _ eq_refl).
      unfold confirms in Hc. by destruct (success sr).
    + intros H. by specialize (Hrej H).
Qed.

(** Runs in which every external call completes. *)

Lemma wp_external_quiet (w : World) Q :
  pending w = [] -> Q (Val []) w -> wp external w Q.
Proof. unfold wp, external. by intros ->. Qed.

Lemma wp_db_statement_quiet (w : World) Q :
  pending w = [] -> Q (Val tt) w -> wp db_statement w Q.
Proof.
  intros H HQ. unfold db_statement. by apply wp_bind, wp_external_quiet.
Qed.

Lemma wp_query_quiet {A} (f : World -> A) (w : World) Q :
  pending w = [] -> Q (Val (f w)) w -> wp (query f) w Q.
Proof.
  intros H HQ. unfold query. by apply wp_bind, wp_db_statement_quiet.
Qed.

Ltac wpq_step :=
  lazymatch goal with
  | |- wp external _ _ => apply wp_external_quiet; [by cbn|]
  | |- wp db_statement _ _ => apply wp_db_statement_quiet; [by cbn|]
  | |- wp (query _) _ _ => apply wp_query_quiet; [by cbn|]
  | |- wp (getOrCreateTransporter _) _ _ =>
      apply wp_getOrCreateTransporter; [intros ? ?|intros ?];
      unfold createTransport, verify, cache_set
  | _ => wp_step
  end.

Ltac wpq_run := repeat (wpq_step; cbn).

Lemma sendFromAccount_completes accountId emailData (w : World) :
  pending w = [] ->
  wp (sendFromAccount accountId emailData) w
     (fun r w' =>
        pending w' = []
        /\ exists sr,
             r = Val sr
             /\ (forall b,
                   find_account accountId (emailAccounts w) = Some b ->
                   acc_isActive b = false -> sr = refused)).
Proof.
  intros Hp. unfold sendFromAccount, sendViaGmail, sendViaOutlook,
    sendViaSMTP, provider_send, oauth_send.
  wpq_run.
  all: split; [done|]; eexists; split; [reflexivity|].
  all: intros b Hb Hact; try done.
  all: injection Hb as ->; rewrite Hact in *; done.
Qed.

Lemma persist_and_dispatch_completes req a provider fromEmail to cc bcc
    html text (w : World) :
  pending w = [] ->
  wp (persist_and_dispatch req a provider fromEmail to cc bcc html text) w
     (fun r w' =>
        exists mid tid sr,
          r = Val (Created mid tid sr)
          /\ (forall b,
                find_account (acc_id a) (emailAccounts w) = Some b ->
                acc_isActive b = false -> sr = refused)).
Proof.
  intros Hp. unfold persist_and_dispatch, insert_thread, insert_message,
    insert_attachments, update_thread.
  wpq_run.
  all: (eapply wp_mono;
        [apply sendFromAccount_completes; by cbn|]);
       cbn; intros r w' (Hp' & sr & -> & Hsr);
       unfold record_sent; wpq_run; eauto.
Qed.

Lemma send_route_after_gates req (w : World) a w1 :
  passes_gates req w a w1 ->
  send_route req w
  = try_catch
      (check_and_send req a (provider_of a) (to_list (body_to req))
         (opt_list (body_cc req)) (opt_list (body_bcc req)))
      (fun _ => log Error LErrorSendingEmail ;;; ret ServerError) w1.
Proof.
  intros (Hi & Hr & Hal). unfold send_route, send_route_body.
  rewrite Hi. cbn [length Nat.ltb Nat.leb].
  unfold try_catch at 1, bind at 1. rewrite Hr.
  unfold try_catch at 1, bind at 1, can_send at 1.
  unfold rate_check in Hal. rewrite Hal. reflexivity.
Qed.

(** With the gates passed, a score under 7, enough text and no failing
    call, the route answers 201. *)
Lemma send_route_completes req (w : World) a w1 :
  passes_gates req w a w1 ->
  score (spam_check req a) < 7 ->
  insufficient (final_text_of req) = false ->
  pending w1 = [] ->
  exists mid tid sr w',
    send_route req w = (Val (Created mid tid sr), w')
    /\ (forall b,
          find_account (acc_id a) (emailAccounts w1) = Some b ->
          acc_isActive b = false -> sr = refused).
Proof.
  intros Hg H7 Hin Hp. rewrite (send_route_after_gates req w a w1 Hg).
  cut (wp (try_catch
             (check_and_send req a (provider_of a) (to_list (body_to req))
                (opt_list (body_cc req)) (opt_list (body_bcc req)))
             (fun _ => log Error LErrorSendingEmail ;;; ret ServerError)) w1
          (fun r w' =>
             exists mid tid sr,
               r = Val (Created mid tid sr)
               /\ (forall b,
                     find_account (acc_id a) (emailAccounts w1) = Some b ->
                     acc_isActive b = false -> sr = refused))).
  { intros H. apply wp_run in H
      as (r & w' & Hrun & mid & tid & sr & -> & Hsr). eauto 10. }
  apply wp_try_catch. unfold check_and_send.
  rewrite (proj2 (Z.leb_gt _ _) H7).
  fold (final_text_of req). rewrite Hin.
  apply wp_bind.
  destruct (5 <=? score (spam_check req a)); wp_run;
    (eapply wp_mono; [apply persist_and_dispatch_completes; by cbn|]);
    cbn; intros r w' (mid & tid & sr & -> & Hsr); eauto 10.
Qed.


(** C5.  For a request with no text body, the text the route goes on with
    is the sanitized HTML with its tags stripped and trimmed (so a
    sanitized body [<p>hi</p>] gives [hi]).  When that text is shorter than
    10 code units the request is turned down: the answer is never 201, no
    Message row and no thread is written and no provider is called, and
    the answer is the content rejection whenever the earlier checks let the
    request through. *)
Theorem short_text_is_rejected req (w : World) :
  otruthy (body_textBody req) = false ->
  jslength (strip_tags (sanitized_body req)) < 10 ->
  final_text_of req = strip_tags (sanitized_body req)
  /\ (sanitized_body req = js "<p>hi</p>" -> final_text_of req = js "hi")
  /\ exists resp w',
       send_route req w = (Val resp, w')
       /\ status resp <> 201
       /\ emailMessages w' = emailMessages w
       /\ emailThreads w' = emailThreads w
       /\ count is_attempted (trace w') = count is_attempted (trace w)
       /\ (forall a w1,
             passes_gates req w a w1 ->
             score (spam_check req a) < 7 ->
             resp = InsufficientContent).
Proof.
  intros Hno Hshort.
  assert (Hft : final_text_of req = strip_tags (sanitized_body req)).
  { unfold final_text_of, final_text, or_else.
    destruct (body_textBody req) as [t|]; [|done].
    cbn in Hno. by rewrite Hno. }
  assert (Hin : insufficient (final_text_of req) = true).
  { unfold insufficient. rewrite Hft.
    rewrite (proj2 (Z.ltb_lt _ _) Hshort). apply orb_true_r. }
  split; [done|]. split.
  { intros Hs. rewrite Hft, Hs. by vm_compute. }
  destruct (send_route_outcome req w) as (resp & w' & Hrun & Ho).
  exists resp, w'. split; [done|].
  inversion Ho as
    [Hi'|? Hi' Hr'|? ? Hi' Hr'|? ? Hi' Hr' Hal'|? ? Hg' H7'
     |? ? ? Hg' H7' Hin' Hu' Hn' Hw
     |? ? ? ? ? Hg' H7' Hin' Hq Hw Hm Ht Hh Hx
     |? ? ? ? Hg' H7' Hin' Hq Hw]; subst; try congruence.
  - repeat split; try done.
    intros a0 w0 (Hi & _) _. done.
  - pose proof (resolve_account_run _ _ _ _ Hr') as (Hu & [Ha _] & _). destruct Hu.
    repeat split; try done.
    intros a0 w0 (_ & Hr & _) _. congruence.
  - pose proof (resolve_account_run _ _ _ _ Hr') as (Hu & [Ha _] & _). destruct Hu.
    repeat split; try done.
    intros a0 w0 (_ & Hr & _) _. congruence.
  - pose proof (resolve_account_run _ _ _ _ Hr') as (Hu & [Ha _] & _). destruct Hu.
    repeat split; try done.
    intros a0 w0 (_ & Hr & Hal) _. rewrite Hr' in Hr.
    injection Hr as <- <-. congruence.
  - destruct Hg' as (Hi & Hr & Hal).
    pose proof (resolve_account_run _ _ _ _ Hr) as (Hu & [Ha _] & _). destruct Hu.
    repeat split; try done.
    intros a0 w0 Hg2 H7.
    destruct (passes_gates_inj _ _ _ _ _ _ Hg2 (conj Hi (conj Hr Hal)))
      as [-> ->]. lia.
  - destruct Hg' as (Hi & Hr & Hal).
    pose proof (resolve_account_run _ _ _ _ Hr) as (Hu & [Ha _] & _).
    destruct Hu, Hu', Hn' as [Ha' _].
    repeat split; try done; congruence.
Qed.

(** ** The default account *)

Lemma sorts_before_spec a b :
  sorts_before a b = false <->
  (acc_isDefault a = true -> acc_isDefault b = true)
  /\ (acc_isDefault a = acc_isDefault b ->
      acc_createdAt a <= acc_createdAt b).
Proof.
  unfold sorts_before.
  destruct (acc_isDefault a), (acc_isDefault b); cbn;
    destruct (Z.ltb_spec (acc_createdAt b) (acc_createdAt a));
    (split; [intros H0|intros [H1 H2]]); try done; try lia;
    try (split; [done|lia]); try (split; [done|intros _; lia]);
    try (by specialize (H1 eq_refl)); try (specialize (H2 eq_refl); lia).
Qed.

Lemma sorts_before_trans c b x :
  sorts_before c b = false -> sorts_before x b = true ->
  sorts_before c x = false.
Proof.
  intros H1 H2. apply sorts_before_spec in H1 as [H1 H1'].
  apply sorts_before_spec.
  unfold sorts_before in H2.
  destruct (acc_isDefault c), (acc_isDefault b), (acc_isDefault x);
    cbn in *; try done; try (specialize (H1 eq_refl); done);
    destruct (Z.ltb_spec (acc_createdAt b) (acc_createdAt x)); try done;
    split; try done; intros _; specialize (H1' eq_refl); lia.
Qed.

Lemma sorts_before_irrefl a : sorts_before a a = false.
Proof. apply sorts_before_spec. split; [done|lia]. Qed.

Lemma first_in_order_from l : forall b0 a,
  fold_left
    (fun best x =>
       match best with
       | None => Some x
       | Some b => if sorts_before x b then Some x else Some b
       end) l (Some b0) = Some a ->
  (a = b0 \/ In a l)
  /\ sorts_before b0 a = false
  /\ forall b, In b l -> sorts_before b a = false.
Proof.
  induction l as [|x l IH]; intros b0 a H; cbn in H.
  - injection H as <-. split; [by left|]. split; [|done].
    apply sorts_before_irrefl.
  - destruct (sorts_before x b0) eqn:E.
    + apply IH in H as (Hin & Hx & Hall).
      split; [right; destruct Hin as [->|Hin]; [by left|by right]|].
      split.
      * destruct (sorts_before b0 a) eqn:E2; [|done].
        (* x before b0 before a, yet x is not before a *)
        exfalso. apply sorts_before_spec in Hx as [Hx Hx'].
        unfold sorts_before in E, E2.
        destruct (acc_isDefault x), (acc_isDefault b0), (acc_isDefault a);
          cbn in *; try done; try (specialize (Hx eq_refl); done);
          destruct (Z.ltb_spec (acc_createdAt b0) (acc_createdAt x));
          destruct (Z.ltb_spec (acc_createdAt a) (acc_createdAt b0));
          try done; specialize (Hx' eq_refl); lia.
      * intros b [<-|Hb]; [done|]. by apply Hall.
    + apply IH in H as (Hin & Hb0 & Hall).
      split; [destruct Hin as [->|Hin]; [by left|right; by right]|].
      split; [done|].
      intros b [Hxb|Hb]; [subst b|by apply Hall].
      destruct (sorts_before x a) eqn:E2; [|done].
      exfalso. apply sorts_before_spec in E as [Hx Hx'].
      apply sorts_before_spec in Hb0 as [Hy Hy'].
      unfold sorts_before in E2.
      destruct (acc_isDefault x), (acc_isDefault b0), (acc_isDefault a);
        cbn in *; try done;
        try (specialize (Hx eq_refl); done);
        try (specialize (Hy eq_refl); done);
        destruct (Z.ltb_spec (acc_createdAt a) (acc_createdAt x));
        try done; specialize (Hx' eq_refl); specialize (Hy' eq_refl); lia.
Qed.

Lemma first_in_order_none l : first_in_order l = None <-> l = [].
Proof.
  unfold first_in_order. split; [|by intros ->].
  destruct l as [|x l]; [done|]. cbn. intros H. exfalso.
  revert x H. induction l as [|y l IH]; intros x H; cbn in H; [done|].
  destruct (sorts_before y x); eauto.
Qed.

Lemma first_in_order_best l a :
  first_in_order l = Some a ->
  In a l /\ forall b, In b l -> sorts_before b a = false.
Proof.
  unfold first_in_order. destruct l as [|x l]; [done|]. cbn. intros H.
  apply first_in_order_from in H as (Hin & Hx & Hall).
  split; [destruct Hin as [->|Hin]; [by left|by right]|].
  intros b [<-|Hb]; [done|]. by apply Hall.
Qed.

Lemma accounts_of_In userId rows a :
  In a (accounts_of userId rows) <-> In a rows /\ acc_userId a = userId.
Proof.
  unfold accounts_of. rewrite filter_In. unfold jseqb.
  by rewrite bool_decide_eq_true.
Qed.

Lemma find_account_unique rows a :
  NoDup (map acc_id rows) -> In a rows ->
  find_account (acc_id a) rows = Some a.
Proof.
  unfold find_account, jseqb.
  induction rows as [|x rows IH]; intros Hnd Hin; [done|].
  cbn in Hnd. apply NoDup_cons in Hnd as [Hx Hnd]. cbn.
  destruct Hin as [->|Hin].
  - by rewrite bool_decide_eq_true_2.
  - rewrite bool_decide_eq_false_2; [by apply IH|].
    intros Heq. apply Hx. rewrite Heq. apply list_elem_of_In.
    by apply in_map.
Qed.

Lemma getDefaultAccount_run userId (w : World) :
  match pending w with
  | Raise _ :: _ => exists w', getDefaultAccount userId w = (Val None, w')
  | _ =>
      exists w',
        getDefaultAccount userId w
        = (Val (first_in_order (accounts_of userId (emailAccounts w))), w')
        /\ trace w' = trace w
  end.
Proof.
  unfold getDefaultAccount, try_catch, query, db_statement, bind, external.
  destruct (pending w) as [|[p|e] rest]; cbn; eauto.
Qed.

(** C10 (amended).  [getDefaultAccount] never throws.  When its query
    completes it returns the user's first account in the order "default
    first, then newest", whether or not any account is marked default, and
    [null] only for a user without accounts; when the query throws, the
    error is caught and the answer is [null] too.  Activity plays no part
    in the choice: when the account chosen for a request that names none is
    deactivated and the request reaches the dispatch, [sendFromAccount]
    refuses with "Account not found or inactive" and the route answers 201
    with that failure. *)
Theorem getDefaultAccount_selection userId (w : World) :
  let owned := accounts_of userId (emailAccounts w) in
  match pending w with
  | Raise _ :: _ => exists w', getDefaultAccount userId w = (Val None, w')
  | _ =>
      exists w',
        getDefaultAccount userId w = (Val (first_in_order owned), w')
        /\ trace w' = trace w
  end
  /\ (first_in_order owned = None <-> owned = [])
  /\ (forall a,
        first_in_order owned = Some a ->
        In a (emailAccounts w) /\ acc_userId a = userId
        /\ forall b,
             In b (emailAccounts w) -> acc_userId b = userId ->
             (acc_isDefault b = true -> acc_isDefault a = true)
             /\ (acc_isDefault b = acc_isDefault a ->
                 acc_createdAt b <= acc_createdAt a))
  /\ (forall req a w1,
        user_id req = userId ->
        otruthy (body_accountId req) = false ->
        passes_gates req w a w1 ->
        acc_isActive a = false ->
        NoDup (map acc_id (emailAccounts w)) ->
        score (spam_check req a) < 7 ->
        insufficient (final_text_of req) = false ->
        pending w1 = [] ->
        first_in_order owned = Some a
        /\ exists mid tid w',
             send_route req w = (Val (Created mid tid refused), w')).
Proof.
  cbv zeta. split; [apply getDefaultAccount_run|].
  split; [apply first_in_order_none|]. split.
  - intros a Ha. apply first_in_order_best in Ha as [Hin Hbest].
    apply accounts_of_In in Hin as [Hin Hu]. split; [done|]. split; [done|].
    intros b Hb Hbu. apply sorts_before_spec, Hbest, accounts_of_In. done.
  - intros req a w1 <- Hno Hg Hact Hnd H7 Hin Hp.
    pose proof Hg as (_ & Hr & _).
    pose proof (resolve_account_run _ _ _ _ Hr) as (Hu & _).
    unfold resolve_account in Hr. rewrite Hno in Hr.
    pose proof (getDefaultAccount_run (user_id req) w) as Hd.
    assert (Hsel : first_in_order
                     (accounts_of (user_id req) (emailAccounts w)) = Some a).
    { revert Hd. destruct (pending w) as [|[p|e] rest];
        [intros (w2 & Hd & _)|intros (w2 & Hd & _)|intros (w2 & Hd)];
        rewrite Hd in Hr; by injection Hr. }
    split; [done|].
    apply first_in_order_best in Hsel as [Hsel _].
    apply accounts_of_In in Hsel as [Hsel _].
    destruct (send_route_completes req w a w1 Hg H7 Hin Hp)
      as (mid & tid & sr & w' & Hrun & Hsr).
    exists mid, tid, w'. rewrite Hrun.
    rewrite (Hsr a); [done| |done]. destruct Hu as [Hacc].
    rewrite Hacc. by apply find_account_unique.
Qed.

(** ** Interleaved calls of [getOrCreateTransporter] *)

(** The two segments, run back to back with the outcome of [verify] taken
    from [pending], are the sequential function. *)
Lemma segments_are_getOrCreateTransporter account (w : World) :
  getOrCreateTransporter account w
  = match start_call account w with
    | (AwaitingVerify t, w1) =>
        match external w1 with
        | (Val _, w2) => (Val t, snd (resume_call account t true w2))
        | (Exn _, w2) =>
            (Exn (js "SMTP connection verification failed."),
             snd (resume_call account t false w2))
        end
    | (Returned t, w1) => (Val t, w1)
    | (Threw e, w1) => (Exn e, w1)
    | (NotStarted, w1) => (Exn [], w1)
    end.
Proof.
  unfold getOrCreateTransporter, start_call, resume_call. cbv zeta.
  destruct (transporterCache w !! acc_id account) as [t|]; [done|].
  cbv [bind try_catch log emit createTransport verify external cache_set
       ret throw]. cbn.
  destruct (pending w) as [|[p|e] rest]; reflexivity.
Qed.

Lemma filter_insert_count {A} (p : A -> bool) (cs : list A) i c c' :
  cs !! i = Some c ->
  (length (List.filter p (<[i := c']> cs)) + (if p c then 1 else 0)
   = length (List.filter p cs) + (if p c' then 1 else 0))%nat.
Proof.
  revert i. induction cs as [|x cs IH]; intros [|i] H; try done.
  - injection H as ->. cbn. destruct (p c), (p c'); cbn; lia.
  - cbn in H. specialize (IH i H).
    change (<[S i := c']> (x :: cs)) with (x :: <[i := c']> cs).
    cbn [List.filter]. destruct (p x); cbn [length]; lia.
Qed.

Lemma steps_trans account (s1 s2 s3 : World * list call) :
  steps account s1 s2 -> steps account s2 s3 -> steps account s1 s3.
Proof.
  induction 1 as [|s1 s2 s2' Hs _ IH]; [done|].
  intros H. eapply steps_step; [exact Hs|]. by apply IH.
Qed.

(** The books of one step: a connection is constructed by a call that
    starts on a cache miss and by nothing else, and is verified when that
    call resumes. *)
Lemma step_books account (w : World) cs w' cs' :
  step account (w, cs) (w', cs') ->
  (count is_verify (trace w') + awaiting cs' + count is_create (trace w)
   = count is_verify (trace w) + awaiting cs + count is_create (trace w'))%nat
  /\ (count is_create (trace w') + waiting cs'
      <= count is_create (trace w) + waiting cs)%nat
  /\ (is_Some (transporterCache w !! acc_id account) ->
      count is_create (trace w') = count is_create (trace w)
      /\ is_Some (transporterCache w' !! acc_id account)).
Proof.
  inversion 1 as [i w0 cs0 Hi|i t ok w0 cs0 Hi]; subst.
  - pose proof (filter_insert_count is_awaiting cs i NotStarted
                  (fst (start_call account w)) Hi) as Ha.
    pose proof (filter_insert_count (fun c => negb (started c)) cs i
                  NotStarted (fst (start_call account w)) Hi) as Hw.
    unfold awaiting, waiting, count, start_call in *.
    destruct (transporterCache w !! acc_id account) as [t|] eqn:Hc;
      cbn in *.
    + repeat split; try lia. by rewrite Hc.
    + repeat split; try lia;
        match goal with H : is_Some None |- _ => by destruct H end.
  - pose proof (filter_insert_count is_awaiting cs i (AwaitingVerify t)
                  (fst (resume_call account t ok w)) Hi) as Ha.
    pose proof (filter_insert_count (fun c => negb (started c)) cs i
                  (AwaitingVerify t)
                  (fst (resume_call account t ok w)) Hi) as Hw.
    unfold awaiting, waiting, count, resume_call in *.
    destruct ok; cbn in *.
    + repeat split; try lia. by rewrite lookup_insert_eq.
    + repeat split; try lia; done.
Qed.

Lemma steps_books account (s s' : World * list call) :
  steps account s s' ->
  (count is_verify (trace (fst s')) + awaiting (snd s')
   + count is_create (trace (fst s))
   = count is_verify (trace (fst s)) + awaiting (snd s)
     + count is_create (trace (fst s')))%nat
  /\ (count is_create (trace (fst s')) + waiting (snd s')
      <= count is_create (trace (fst s)) + waiting (snd s))%nat
  /\ (is_Some (transporterCache (fst s) !! acc_id account) ->
      count is_create (trace (fst s')) = count is_create (trace (fst s))
      /\ is_Some (transporterCache (fst s') !! acc_id account)).
Proof.
  induction 1 as [s|[w1 cs1] [w2 cs2] [w3 cs3] Hs _ IH].
  - repeat split; try lia; done.
  - apply step_books in Hs as (H1 & H2 & H3).
    destruct IH as (I1 & I2 & I3). cbn [fst snd] in *.
    split; [lia|]. split; [lia|].
    intros Hc. destruct (H3 Hc) as [E Hc']. destruct (I3 Hc').
    split; [lia|done].
Qed.

(** All the calls of a pool start before any [verify] settles. *)
Lemma start_all account k : forall pre (w : World),
  transporterCache w !! acc_id account = None ->
  exists w' ts,
    steps account (w, pre ++ replicate k NotStarted)
      (w', pre ++ map AwaitingVerify ts)
    /\ length ts = k
    /\ transporterCache w' = transporterCache w
    /\ count is_create (trace w') = (k + count is_create (trace w))%nat
    /\ count is_verify (trace w') = count is_verify (trace w).
Proof.
  induction k as [|k IH]; intros pre w Hc.
  - exists w, []. repeat split; try done. apply steps_refl.
  - pose proof (step_start account (length pre) w
                  (pre ++ replicate (S k) NotStarted)) as Hs.
    rewrite lookup_app_r, Nat.sub_diag in Hs by lia.
    specialize (Hs eq_refl).
    unfold start_call in Hs. rewrite Hc in Hs.
    cbv [bind log emit createTransport ret] in Hs. cbn in Hs.
    rewrite insert_app_r_alt, Nat.sub_diag in Hs by lia. cbn in Hs.
    set (t := transporter_for account (nextSerial w)) in *.
    match type of Hs with step _ _ (?w1, _) => set (w1' := w1) in * end.
    destruct (IH (pre ++ [AwaitingVerify t]) w1' Hc)
      as (w' & ts & Hst & Hl & Hca & Hcr & Hv).
    exists w', (t :: ts). cbn [map length].
    rewrite <- !app_assoc in Hst. cbn [app] in Hst.
    split; [eapply steps_step; [exact Hs|exact Hst]|].
    unfold count in *. cbn in *. repeat split; try lia; done.
Qed.

(** Then every [verify] succeeds. *)
Lemma resume_all account ts : forall pre (w : World),
  exists w',
    steps account (w, pre ++ map AwaitingVerify ts)
      (w', pre ++ map Returned ts)
    /\ count is_create (trace w') = count is_create (trace w)
    /\ count is_verify (trace w')
       = (length ts + count is_verify (trace w))%nat.
Proof.
  induction ts as [|t ts IH]; intros pre w.
  - exists w. split; [apply steps_refl|done].
  - pose proof (step_resume account (length pre) t true w
                  (pre ++ map AwaitingVerify (t :: ts))) as Hs.
    rewrite lookup_app_r, Nat.sub_diag in Hs by lia.
    specialize (Hs eq_refl).
    unfold resume_call in Hs.
    cbv [bind log emit cache_set ret] in Hs. cbn in Hs.
    rewrite insert_app_r_alt, Nat.sub_diag in Hs by lia. cbn in Hs.
    match type of Hs with step _ _ (?w1, _) => set (w1' := w1) in * end.
    destruct (IH (pre ++ [Returned t]) w1') as (w' & Hst & Hcr & Hv).
    exists w'. rewrite <- !app_assoc in Hst. cbn [app] in Hst.
    split; [eapply steps_step; [exact Hs|exact Hst]|].
    unfold count in *. cbn in *. split; lia.
Qed.

(** C9 (amended).  [getOrCreateTransporter] has no single-flight guard.  In
    every interleaving of calls for one account, a connection is
    constructed exactly by a call that starts while the cache has no entry
    for the account, each constructed connection is verified once, when its
    call resumes, and once the cache has the entry no further connection is
    constructed: later calls reuse it.  When [n] calls all start before the
    first [verify] settles, [n] connections are constructed and [n] verify
    calls reach the provider. *)
Theorem verification_per_cache_miss account :
  (forall (w : World) cs w' cs',
      steps account (w, cs) (w', cs') ->
      (count is_verify (trace w') + awaiting cs' + count is_create (trace w)
       = count is_verify (trace w) + awaiting cs
         + count is_create (trace w'))%nat
      /\ (count is_create (trace w') + waiting cs'
          <= count is_create (trace w) + waiting cs)%nat
      /\ (is_Some (transporterCache w !! acc_id account) ->
          count is_create (trace w') = count is_create (trace w)))
  /\ (forall n (w : World),
        transporterCache w !! acc_id account = None ->
        exists w' cs',
          steps account (w, replicate n NotStarted) (w', cs')
          /\ length cs' = n
          /\ forallb settled cs' = true
          /\ count is_create (trace w')
             = (n + count is_create (trace w))%nat
          /\ count is_verify (trace w')
             = (n + count is_verify (trace w))%nat).
Proof.
  split.
  - intros w cs w' cs' Hs.
    apply steps_books in Hs as (H1 & H2 & H3). cbn in *.
    repeat split; try done. intros Hc. by destruct (H3 Hc).
  - intros n w Hc.
    destruct (start_all account n [] w Hc)
      as (w1 & ts & Hst & Hl & _ & Hcr & Hv).
    destruct (resume_all account ts [] w1) as (w2 & Hst2 & Hcr2 & Hv2).
    exists w2, (map Returned ts). cbn [app] in *.
    split; [by eapply steps_trans|].
    split; [by rewrite length_map|].
    split; [|lia].
    clear. induction ts as [|t ts IH]; [done|]. by cbn.
Qed.

(** ** What inbound persistence does to threads *)

(** Whatever a run of [saveMessageWithRetry] does, the rows of the thread
    table it found are unchanged and the rows it adds carry no provider
    thread id and a [messageCount] of zero. *)
Lemma saveMessageWithRetry_threads message account userId retries
    (w w' : World) b :
  saveMessageWithRetry message account userId retries w = (Val b, w') ->
  exists new,
    emailThreads w' = emailThreads w ++ new /\ Forall unlinked new.
Proof.
  intros Hrun.
  destruct (saveMessageWithRetry_outcome message account userId retries w)
    as (b' & w2 & H & Ho & _).
  rewrite Hrun in H. injection H as <- <-.
  inversion Ho as [? new ? Ht Hn|? new ? ? ? ? ? Ht Hn
                   |? new t ? ? ? Ht Hn Hu]; subst.
  - by exists new.
  - by exists new.
  - exists (new ++ [t]). split; [done|].
    apply Forall_app. split; [done|]. by constructor.
Qed.

(** So no run links a thread to a provider thread id: a lookup by
    [externalThreadId] finds after the run what it found before. *)
Lemma saveMessageWithRetry_links_nothing message account userId retries
    (w w' : World) b id :
  saveMessageWithRetry message account userId retries w = (Val b, w') ->
  find_thread id (emailThreads w') = find_thread id (emailThreads w).
Proof.
  intros Hrun.
  destruct (saveMessageWithRetry_threads _ _ _ _ _ _ _ Hrun)
    as (new & -> & Hnew).
  by apply find_thread_unlinked.
Qed.

(** * Further properties of the service and of the route *)

Lemma star_loop_blind c body g k :
  (forall k', blind c k' -> blind c (body k')) ->
  blind c k -> forall n, blind c (star_loop body g k n).
Proof.
  intros Hbody Hk n. induction n as [|n IH]; intros p s Hs.
  - rewrite star_loop_0. by apply Hk.
  - rewrite star_loop_S. cbv zeta.
    match goal with |- context [body ?f p s] => set (k' := f) end.
    assert (Hk' : blind c k').
    { intros p1 s1 H1. unfold k'. destruct (_ <? _)%nat; [by apply IH|done]. }
    rewrite (Hbody k' Hk' p s Hs), (Hk p s Hs). by destruct g.
Qed.

Lemma rx_blind c r : forall k, blind c k -> blind c (rx r k).
Proof.
  induction r as [|cls| |r1 IH1 r2 IH2|g r IH]; intros k Hk; cbn [rx].
  - done.
  - intros p [|x t] Hs; [done|]. destruct (cls x); [|done].
    apply Hk. by apply Forall_cons in Hs as [_ Hs].
  - intros p s Hs. destruct (xorb _ _); [by apply Hk|done].
  - auto.
  - intros p s Hs. by apply (star_loop_blind c (rx r) g k IH Hk).
Qed.

(** A pattern that has to read the code unit [c] somewhere. *)
Lemma rx_chr_blind c cls k :
  (forall x, cls x = true -> x = c) -> blind c (rx (Chr cls) k).
Proof.
  intros Hc p [|x t] Hs; cbn; [done|].
  destruct (cls x) eqn:E; [|done].
  apply Forall_cons in Hs as [Hx _]. by apply Hc in E.
Qed.

Lemma remove_from_blind c r :
  (forall p s, Forall (fun x => x <> c) s -> match_here r p s = None) ->
  forall f p s, Forall (fun x => x <> c) s -> remove_from r f p s = s.
Proof.
  intros Hr f. induction f as [|f IH]; intros p s Hs; [done|].
  cbn [remove_from]. rewrite (Hr p s Hs).
  destruct s as [|x t]; [done|]. f_equal. apply IH.
  by apply Forall_cons in Hs as [_ Hs].
Qed.

Lemma rx_cat_blind c r1 r2 k :
  blind c (rx r2 k) -> blind c (rx (Cat r1 r2) k).
Proof. intros H. cbn [rx]. by apply rx_blind. Qed.

Lemma rx_cat_chr_blind c cls r2 k :
  (forall x, cls x = true -> x = c) -> blind c (rx (Cat (Chr cls) r2) k).
Proof. intros H. cbn [rx]. by apply rx_chr_blind. Qed.

Lemma chr_i_plain (a : ascii) x :
  (N_of_ascii a < 65)%N ->
  (upper x =? upper (N_of_ascii a))%N = true -> x = N_of_ascii a.
Proof.
  intros Ha Hx. apply N.eqb_eq in Hx.
  apply upper_plain; [lia|lia|done].
Qed.

Lemma script_re_blind p s :
  Forall (fun x => x <> slash_sign) s -> match_here script_re p s = None.
Proof.
  revert p s. change (blind slash_sign (match_here script_re)).
  unfold match_here, script_re.
  do 5 apply rx_cat_blind. cbn [lit_i].
  apply rx_cat_blind, rx_cat_chr_blind.
  intros x. by apply (chr_i_plain "/").
Qed.

Lemma handler_re_blind p s :
  Forall (fun x => x <> quote_sign) s -> match_here handler_re p s = None.
Proof.
  revert p s. change (blind quote_sign (match_here handler_re)).
  unfold match_here, handler_re.
  do 3 apply rx_cat_blind. apply rx_cat_chr_blind.
  intros x. by apply (chr_i_plain dquote).
Qed.

(** X1.  An input with no [/] and no double quote comes back from
    [sanitizeHtml] as it went in: the script pattern needs a closing tag
    and the handler pattern needs double quotes.  So a script element that
    is never closed, and handlers written with single quotes or without
    quotes, are left in the body. *)
Theorem sanitizeHtml_keeps_what_has_no_slash_or_quote html :
  Forall (fun x => x <> slash_sign /\ x <> quote_sign) html ->
  sanitizeHtml html = html.
Proof.
  intros H. rewrite sanitizeHtml_passes. unfold remove_all.
  assert (Hs : Forall (fun x => x <> slash_sign) html).
  { eapply Forall_impl; [exact H|]. by intros x [? _]. }
  assert (Hq : Forall (fun x => x <> quote_sign) html).
  { eapply Forall_impl; [exact H|]. by intros x [_ ?]. }
  rewrite (remove_from_blind slash_sign script_re script_re_blind _ None
             html Hs).
  exact (remove_from_blind quote_sign handler_re handler_re_blind _ None
           html Hq).
Qed.

(** Text without a closing angle bracket holds no tag. *)
Lemma tag_re_blind p s :
  Forall (fun x => x <> gt_sign) s -> match_here tag_re p s = None.
Proof.
  revert p s. change (blind gt_sign (match_here tag_re)).
  unfold match_here, tag_re.
  do 2 apply rx_cat_blind. apply rx_chr_blind.
  intros x Hx. by apply N.eqb_eq in Hx.
Qed.

Lemma tag_re_head q x t : x <> lt_sign -> match_here tag_re q (x :: t) = None.
Proof.
  intros Hx. unfold match_here, tag_re, chr. cbn [rx].
  destruct (x =? N_of_ascii "<")%N eqn:E; [|done].
  by apply N.eqb_eq in E.
Qed.

Lemma tag_re_matches p inner post :
  Forall (fun x => x <> gt_sign) inner ->
  match_here tag_re p ((lt_sign :: inner ++ [gt_sign]) ++ post)
  = Some (Some gt_sign, post).
Proof.
  intros Hi. unfold match_here, tag_re, chr. cbn [rx app].
  change ((lt_sign =? N_of_ascii "<")%N) with true. cbv iota.
  rewrite <- app_assoc. cbn [app].
  apply star_greedy_run.
  - eapply Forall_impl; [exact Hi|]. intros x Hx. cbn.
    apply negb_true_iff, N.eqb_neq. exact Hx.
  - reflexivity.
  - rewrite length_app. lia.
  - reflexivity.
Qed.

(** X2.  The text body the send handler derives: a tag [<...>] whose inside
    holds no [>], standing after text free of [<], is cut out whole, and
    the scan goes on with what follows it; the result is trimmed. *)
Theorem strip_tags_cuts_closed_tag pre inner post :
  Forall (fun x => x <> lt_sign) pre ->
  Forall (fun x => x <> gt_sign) inner ->
  strip_tags (pre ++ (lt_sign :: inner ++ [gt_sign]) ++ post)
  = trim (pre ++ remove_all tag_re post).
Proof.
  intros Hp Hi. unfold strip_tags. f_equal.
  apply (remove_all_cut _ _ _ _ (Some gt_sign)).
  - reflexivity.
  - intros q x t Hx. apply tag_re_head.
    rewrite Forall_forall in Hp. by apply Hp.
  - intros p. by apply tag_re_matches.
  - done.
Qed.

(** X3.  In a body without any [>] nothing is a tag: the derived text is
    the trimmed body itself, [<] signs included. *)
Theorem strip_tags_keeps_unclosed_bracket html :
  Forall (fun x => x <> gt_sign) html -> strip_tags html = trim html.
Proof.
  intros H. unfold strip_tags, remove_all.
  by rewrite (remove_from_blind gt_sign tag_re tag_re_blind _ None html H).
Qed.

Lemma getOrCreateTransporter_result account (w : World) :
  wp (getOrCreateTransporter account) w
     (fun r w' =>
        transporterCache w ⊆ transporterCache w'
        /\ (forall t, r = Val t ->
                      transporterCache w' !! acc_id account = Some t
                      /\ (transporterCache w !! acc_id account = None ->
                          next_completes w))
        /\ (forall e, r = Exn e ->
                      e = js "SMTP connection verification failed."
                      /\ transporterCache w' = transporterCache w
                      /\ transporterCache w !! acc_id account = None
                      /\ exists e' rest, pending w = Raise e' :: rest)
        /\ (is_Some (transporterCache w !! acc_id account) ->
            exists t, r = Val t /\ transporterCache w' = transporterCache w
              /\ count is_verify (trace w') = count is_verify (trace w)
              /\ count is_create (trace w') = count is_create (trace w)
              /\ pending w' = pending w)).
Proof.
  apply wp_getOrCreateTransporter; [intros t Ht|intros Ht];
    unfold createTransport, verify, cache_set; wp_run.
  all: cbn in *; rewrite ?Ht; unfold next_completes.
  all: repeat match goal with
         | H : pending _ = _ |- _ => rewrite H
         end.
  all: repeat split; try done.
  all: try (by intros ? [= <-]).
  all: try (by apply insert_subseteq).
  all: try (by eauto 10).
  all: try congruence.
  all: try (by intros [? [=]]).
  all: by match goal with
          | H : Val _ = Val _ |- _ =>
              injection H as <-; rewrite lookup_insert_eq
          end.
Qed.

(** X4.  Once [getOrCreateTransporter] has returned a connection, any later
    call for an account row with the same id gets that very connection
    as long as the cache is what the first call left, without constructing
    or verifying anything and without any external call: the cache key is
    the account id alone, so the credentials of the later row play no
    part. *)
Theorem cached_transporter_is_reused account account' (w w1 w2 : World) t :
  getOrCreateTransporter account w = (Val t, w1) ->
  acc_id account' = acc_id account ->
  transporterCache w2 = transporterCache w1 ->
  exists w3,
    getOrCreateTransporter account' w2 = (Val t, w3)
    /\ transporterCache w3 = transporterCache w2
    /\ count is_create (trace w3) = count is_create (trace w2)
    /\ count is_verify (trace w3) = count is_verify (trace w2)
    /\ pending w3 = pending w2.
Proof.
  intros Hrun Hid Hc.
  pose proof (getOrCreateTransporter_result account w) as H.
  unfold wp in H. rewrite Hrun in H. cbn in H.
  destruct H as (_ & Ht & _). destruct (Ht t eq_refl) as [Ht' _].
  clear Ht. rename Ht' into Ht.
  unfold getOrCreateTransporter. cbv zeta. rewrite Hid, Hc, Ht.
  eexists. split; [reflexivity|]. done.
Qed.

Lemma next_completes_query {A} (f : World -> A) (w : World) Q :
  next_completes w ->
  (forall w1, emailAccounts w1 = emailAccounts w ->
              emailThreads w1 = emailThreads w ->
              emailMessages w1 = emailMessages w ->
              trace w1 = trace w ->
              transporterCache w1 = transporterCache w ->
              (w1 = w \/ exists p, pending w = Succeed p :: pending w1) ->
              Q (Val (f w1)) w1) ->
  wp (query f) w Q.
Proof.
  unfold next_completes. intros Hn HQ.
  apply wp_query.
  - intros _. apply HQ; auto.
  - intros p rest Hp. apply HQ; cbn; eauto.
  - intros e rest Hp. by rewrite Hp in Hn.
Qed.

(** X5.  When the account lookup completes and finds no row, or a row that
    is not active, [sendFromAccount] answers
    [{ success: false, error: 'Account not found or inactive' }]: no
    provider is called, no connection is constructed, the cache is as it
    was. *)
Theorem sendFromAccount_refuses_missing_or_inactive accountId emailData
    (w : World) :
  next_completes w ->
  (forall a, find_account accountId (emailAccounts w) = Some a ->
             acc_isActive a = false) ->
  exists w',
    sendFromAccount accountId emailData w = (Val refused, w')
    /\ no_transport w w'
    /\ count is_create (trace w') = count is_create (trace w)
    /\ transporterCache w' = transporterCache w.
Proof.
  intros Hn Hin.
  cut (wp (sendFromAccount accountId emailData) w
         (fun r w' => r = Val refused /\ no_transport w w'
            /\ count is_create (trace w') = count is_create (trace w)
            /\ transporterCache w' = transporterCache w)).
  { intros H. apply wp_run in H as (r & w' & Hrun & -> & H). eauto. }
  unfold sendFromAccount. apply wp_try_catch.
  apply wp_bind, next_completes_query; [done|].
  intros w1 Ha _ _ Ht Hc _. rewrite Ha.
  destruct (find_account accountId (emailAccounts w)) as [a|] eqn:E.
  - rewrite (Hin a eq_refl). cbn. wp_run.
    unfold no_transport, count. cbn. rewrite Ht. done.
  - wp_run. unfold no_transport, count. cbn. rewrite Ht. done.
Qed.

(** X6.  For an active account whose provider is none of gmail, outlook,
    smtp and imap (a null provider included), [sendFromAccount] answers
    with the error "Unsupported provider: " followed by the provider, and
    calls nothing. *)
Theorem sendFromAccount_unsupported_provider accountId emailData
    (w : World) a :
  next_completes w ->
  find_account accountId (emailAccounts w) = Some a ->
  acc_isActive a = true ->
  supported (provider_text (acc_provider a)) = false ->
  exists w',
    sendFromAccount accountId emailData w
    = (Val (send_failed (js "Unsupported provider: "
                         ++ provider_text (acc_provider a))), w')
    /\ no_transport w w'
    /\ count is_create (trace w') = count is_create (trace w)
    /\ transporterCache w' = transporterCache w.
Proof.
  intros Hn Hf Hact Hsup.
  cut (wp (sendFromAccount accountId emailData) w
         (fun r w' =>
            r = Val (send_failed (js "Unsupported provider: "
                                  ++ provider_text (acc_provider a)))
            /\ no_transport w w'
            /\ count is_create (trace w') = count is_create (trace w)
            /\ transporterCache w' = transporterCache w)).
  { intros H. apply wp_run in H as (r & w' & Hrun & -> & H). eauto. }
  unfold sendFromAccount. apply wp_try_catch.
  apply wp_bind, next_completes_query; [done|].
  intros w1 Ha _ _ Ht Hc _. rewrite Ha, Hf, Hact. cbn [negb].
  unfold supported in Hsup.
  apply orb_false_iff in Hsup as [Hsup Himap].
  apply orb_false_iff in Hsup as [Hsup Hsmtp].
  apply orb_false_iff in Hsup as [Hgmail Houtlook].
  rewrite Hgmail, Houtlook, Hsmtp, Himap. cbn.
  wp_run. unfold no_transport, count. cbn. rewrite Ht. done.
Qed.

Lemma provider_send_once via account emailData (w : World) :
  wp (provider_send via account emailData) w
     (fun r w' =>
        transporterCache w' = transporterCache w
        /\ count is_attempted (trace w') = S (count is_attempted (trace w))
        /\ count is_create (trace w') = count is_create (trace w)
        /\ count is_verify (trace w') = count is_verify (trace w)).
Proof. unfold provider_send. wp_run; unfold count; cbn; done. Qed.

Lemma getOrCreateTransporter_no_send account (w : World) :
  wp (getOrCreateTransporter account) w
     (fun r w' =>
        count is_attempted (trace w') = count is_attempted (trace w)).
Proof.
  eapply wp_mono; [apply getOrCreateTransporter_quiet|].
  intros r w' (_ & _ & [H _]). done.
Qed.

(** X7.  [sendViaSMTP] never throws and hands over at most one message.
    When it did hand one over, the cache holds a connection for the
    account.  When the cache had none and the verification throws, the
    answer is the failure "SMTP connection verification failed." (the
    error of [verify] itself is not reported), nothing is handed over and
    the cache is as it was. *)
Theorem sendViaSMTP_sends_through_cached_connection account emailData
    (w : World) :
  exists sr w',
    sendViaSMTP account emailData w = (Val sr, w')
    /\ (count is_attempted (trace w') <= S (count is_attempted (trace w)))%nat
    /\ (count is_attempted (trace w') <> count is_attempted (trace w) ->
        is_Some (transporterCache w' !! acc_id account))
    /\ (transporterCache w !! acc_id account = None ->
        (exists e rest, pending w = Raise e :: rest) ->
        sr = send_failed (js "SMTP connection verification failed.")
        /\ count is_attempted (trace w') = count is_attempted (trace w)
        /\ transporterCache w' = transporterCache w).
Proof.
  cut (wp (sendViaSMTP account emailData) w
         (fun r w' => exists sr, r = Val sr
    /\ (count is_attempted (trace w') <= S (count is_attempted (trace w)))%nat
    /\ (count is_attempted (trace w') <> count is_attempted (trace w) ->
        is_Some (transporterCache w' !! acc_id account))
    /\ (transporterCache w !! acc_id account = None ->
        (exists e rest, pending w = Raise e :: rest) ->
        sr = send_failed (js "SMTP connection verification failed.")
        /\ count is_attempted (trace w') = count is_attempted (trace w)
        /\ transporterCache w' = transporterCache w))).
  { intros H. apply wp_run in H as (r & w' & Hrun & sr & -> & H). eauto. }
  unfold sendViaSMTP. apply wp_try_catch, wp_bind.
  pose proof (getOrCreateTransporter_result account w) as H1.
  pose proof (getOrCreateTransporter_no_send account w) as H2.
  unfold wp in *.
  destruct (getOrCreateTransporter account w) as [[t|e] w1]; cbn in *.
  - destruct H1 as (Hsub & Ht & _ & _).
    destruct (Ht t eq_refl) as [Ht' Hnc]. clear Ht.
    apply wp_bind.
    eapply wp_mono; [apply provider_send_once|].
    intros [mid|e] w' (Hc & Ha & _); wp_run.
    all: eexists; split; [reflexivity|].
    all: unfold count in *; cbn in *.
    all: split; [lia|]. all: split; [by rewrite Hc, Ht'|].
    all: intros Hnone (e' & rest & Hp).
    all: specialize (Hnc Hnone); unfold next_completes in Hnc.
    all: by rewrite Hp in Hnc.
  - destruct H1 as (_ & _ & He & _).
    destruct (He e eq_refl) as (-> & Hc & Hnone & _).
    wp_run. eexists; split; [reflexivity|].
    unfold count in *; cbn in *.
    split; [lia|]. split; [intros; lia|]. intros _ _. done.
Qed.

Lemma sendViaSMTP_cache account emailData (w : World) :
  wp (sendViaSMTP account emailData) w
     (fun r w' => transporterCache w ⊆ transporterCache w').
Proof.
  unfold sendViaSMTP. apply wp_try_catch, wp_bind.
  eapply wp_mono; [apply getOrCreateTransporter_result|].
  intros [t|e] w1 (Hsub & _); cbn.
  - apply wp_bind. eapply wp_mono; [apply provider_send_once|].
    intros [mid|e] w' (Hc & _); wp_run; by rewrite ?Hc.
  - wp_run. done.
Qed.

(** X8.  [sendFromAccount] never removes or replaces a cached connection,
    whatever fails on the way: the cache after the call extends the cache
    before it. *)
Theorem sendFromAccount_never_evicts accountId emailData (w : World) :
  transporterCache w
  ⊆ transporterCache (snd (sendFromAccount accountId emailData w)).
Proof.
  change (wp (sendFromAccount accountId emailData) w
            (fun _ w' => transporterCache w ⊆ transporterCache w')).
  unfold sendFromAccount, sendViaGmail, sendViaOutlook, provider_send,
    oauth_send.
  wp_run.
  all: try done.
  all: (eapply wp_mono; [apply sendViaSMTP_cache|]);
       intros [sr|e] w' Hsub; wp_run; done.
Qed.


Lemma testSMTPConnection_spec account (w : World) :
  wp (testSMTPConnection account) w
     (fun r0 w' =>
        exists r, r0 = Val r
          /\ (cr_success r = true
              <-> is_Some (transporterCache w' !! acc_id account))
          /\ (is_Some (transporterCache w !! acc_id account) ->
              cr_success r = true
              /\ count is_verify (trace w') = count is_verify (trace w))
          /\ (cr_success r = false ->
              cr_error r
              = Some (js "SMTP connection verification failed."))).
Proof.
  unfold testSMTPConnection. apply wp_try_catch, wp_bind.
  eapply wp_mono; [apply getOrCreateTransporter_result|].
  intros [t|e] w1 (Hsub & Ht & He & Hhit); wp_run.
  - destruct (Ht t eq_refl) as [Hc _].
    eexists; split; [reflexivity|]. cbn. rewrite Hc.
    split; [done|]. split; [|done]. intros Hs.
    destruct (Hhit Hs) as (t' & _ & _ & Hv & _). done.
  - destruct (He e eq_refl) as (-> & Hc & Hnone & _).
    eexists; split; [reflexivity|]. cbn. rewrite Hc, Hnone.
    split; [split; [done|by intros [? ?]]|].
    split; [by intros [? ?]|done].
Qed.

(** X10.  [testSMTPConnection] never throws.  It reports success exactly
    when the cache holds a connection for the account afterwards; with a
    connection already cached it reports success without any [verify], so
    the test says nothing about the state of that connection.  A failure
    carries the message "SMTP connection verification failed.". *)
Theorem testSMTPConnection_succeeds_iff_cached account (w : World) :
  exists r w',
    testSMTPConnection account w = (Val r, w')
    /\ (cr_success r = true
        <-> is_Some (transporterCache w' !! acc_id account))
    /\ (is_Some (transporterCache w !! acc_id account) ->
        cr_success r = true
        /\ count is_verify (trace w') = count is_verify (trace w))
    /\ (cr_success r = false ->
        cr_error r = Some (js "SMTP connection verification failed.")).
Proof.
  pose proof (testSMTPConnection_spec account w) as H.
  apply wp_run in H as (r0 & w' & Hrun & r & -> & H). eauto.
Qed.

(** X11.  [checkAccountTokenHealth] never throws, and it reports success
    exactly when the account lookup completes and finds a row, whatever
    the provider of the row: it constructs and verifies no connection and
    leaves the cache alone. *)
Theorem checkAccountTokenHealth_checks_only_the_row accountId
    (w : World) :
  exists r w',
    checkAccountTokenHealth accountId w = (Val r, w')
    /\ (cr_success r = true
        <-> next_completes w
            /\ is_Some (find_account accountId (emailAccounts w)))
    /\ transporterCache w' = transporterCache w
    /\ count is_verify (trace w') = count is_verify (trace w)
    /\ count is_create (trace w') = count is_create (trace w).
Proof.
  cut (wp (checkAccountTokenHealth accountId) w
         (fun r0 w' => exists r, r0 = Val r
    /\ (cr_success r = true
        <-> next_completes w
            /\ is_Some (find_account accountId (emailAccounts w)))
    /\ transporterCache w' = transporterCache w
    /\ count is_verify (trace w') = count is_verify (trace w)
    /\ count is_create (trace w') = count is_create (trace w))).
  { intros H. apply wp_run in H as (r0 & w' & Hrun & r & -> & H). eauto. }
  unfold checkAccountTokenHealth, next_completes. wp_run.
  all: eexists; split; [reflexivity|]; cbn.
  all: repeat match goal with
              | H : pending _ = _ |- _ => rewrite H
              | H : find_account _ _ = _ |- _ => rewrite H
              end.
  all: split; [|done].
  all: split; try done.
  all: try (by intros [? [? ?]]).
  all: by intros [[] _].
Qed.

(** X12.  For a Gmail or Outlook account, active or not,
    [testAccountConnection] answers [{ success: true }] once the lookup
    completes: nothing is logged or called and the cache is as it was. *)
Theorem testAccountConnection_oauth_is_not_tested accountId (w : World) a :
  next_completes w ->
  find_account accountId (emailAccounts w) = Some a ->
  provider_text (acc_provider a) = js "gmail"
  \/ provider_text (acc_provider a) = js "outlook" ->
  exists w',
    testAccountConnection accountId w
    = (Val (mkConnectionResult true None), w')
    /\ trace w' = trace w
    /\ transporterCache w' = transporterCache w.
Proof.
  intros Hn Hf Hp.
  cut (wp (testAccountConnection accountId) w
         (fun r w' => r = Val (mkConnectionResult true None)
            /\ trace w' = trace w
            /\ transporterCache w' = transporterCache w)).
  { intros H. apply wp_run in H as (r & w' & Hrun & -> & H). eauto. }
  unfold testAccountConnection. apply wp_try_catch.
  apply wp_bind, next_completes_query; [done|].
  intros w1 Ha _ _ Ht Hc _. rewrite Ha, Hf. cbn.
  destruct Hp as [-> | ->]; by vm_compute.
Qed.

(** X13.  [testAccountConnection] never throws.  It reports success only
    for an account row that exists and has a provider it knows, and for an
    smtp or imap account only with a connection in the cache afterwards;
    every failure carries an error message. *)
Theorem testAccountConnection_result accountId (w : World) :
  exists r w',
    testAccountConnection accountId w = (Val r, w')
    /\ (cr_success r = true ->
        exists a,
          find_account accountId (emailAccounts w) = Some a
          /\ supported (provider_text (acc_provider a)) = true
          /\ (provider_text (acc_provider a) = js "smtp"
              \/ provider_text (acc_provider a) = js "imap" ->
              is_Some (transporterCache w' !! acc_id a)))
    /\ (cr_success r = false -> is_Some (cr_error r)).
Proof.
  cut (wp (testAccountConnection accountId) w
         (fun r0 w' => exists r, r0 = Val r
    /\ (cr_success r = true ->
        exists a,
          find_account accountId (emailAccounts w) = Some a
          /\ supported (provider_text (acc_provider a)) = true
          /\ (provider_text (acc_provider a) = js "smtp"
              \/ provider_text (acc_provider a) = js "imap" ->
              is_Some (transporterCache w' !! acc_id a)))
    /\ (cr_success r = false -> is_Some (cr_error r)))).
  { intros H. apply wp_run in H as (r0 & w' & Hrun & r & -> & H). eauto. }
  unfold testAccountConnection, supported. wp_run.
  all: try (eexists; split; [reflexivity|]; cbn; split; [done|by eexists]).
  all: try (eexists; split; [reflexivity|]; cbn; split; [|done];
            intros _; eexists; split; [reflexivity|];
            repeat match goal with
                   | H : jseqb _ _ = true |- _ =>
                       rewrite H;
                       apply bool_decide_eq_true in H; rewrite H
                   | H : jseqb _ _ = false |- _ => rewrite H; clear H
                   end; split; [done|]; by intros [|]).
  all: (eapply wp_mono; [apply testSMTPConnection_spec|]);
       intros r0 w' (r & -> & Hiff & _ & Herr); wp_run.
  all: eexists; split; [reflexivity|].
  all: split; [|intros Hf; rewrite (Herr Hf); by eexists].
  all: intros Hs; eexists; split; [reflexivity|].
  all: repeat match goal with
              | H : jseqb _ _ = false |- _ => rewrite H; clear H
              end.
  all: split; [done|]; intros _; by apply Hiff.
Qed.

Lemma total_backoff_bounds left : forall attempt,
  0 <= total_backoff left attempt <= 5000 * Z.of_nat left.
Proof.
  induction left as [|left IH]; intros attempt; [cbn; lia|].
  cbn [total_backoff]. specialize (IH (attempt + 1)).
  assert (0 <= 2 ^ attempt) by (apply Z.pow_nonneg; lia).
  lia.
Qed.

Lemma save_attempt_clock message account userId h (w : World) :
  wp (save_attempt message account userId h) w
     (fun _ w' => clock w' = clock w).
Proof.
  unfold save_attempt, insert_thread, insert_message.
  wp_run; done.
Qed.

Lemma save_attempts_clock message account userId h retries left :
  forall attempt (w : World),
    wp (save_attempts message account userId h retries left attempt) w
       (fun _ w' =>
          clock w <= clock w' <= clock w + total_backoff left attempt).
Proof.
  induction left as [|left IH]; intros attempt w; cbn [save_attempts].
  - apply wp_try_catch.
    eapply wp_mono; [apply save_attempt_clock|].
    intros [b|e] w' Hc; wp_run; cbn; lia.
  - apply wp_try_catch.
    eapply wp_mono; [apply save_attempt_clock|].
    intros [b|e] w' Hc.
    + pose proof (total_backoff_bounds (S left) attempt).
      cbn -[total_backoff Z.of_nat]. lia.
    + wp_run. eapply wp_mono; [apply IH|].
      intros r w'' H. cbn in H. cbn [total_backoff].
      assert (0 <= 2 ^ attempt) by (apply Z.pow_nonneg; lia).
      lia.
Qed.

(** X14.  The time [saveMessageWithRetry] spends waiting between attempts
    is at most the sum of the pauses [min(1000 * 2^attempt, 5000)] over
    its retries, hence at most 5000 per retry, and at most 3000 with the
    default of two retries.  The clock never goes back. *)
Theorem retry_pauses_are_bounded message account userId retries
    (w : World) :
  let w' := snd (saveMessageWithRetry message account userId retries w) in
  clock w <= clock w' <= clock w + total_backoff (Z.to_nat retries) 0
  /\ clock w' <= clock w + 5000 * Z.max retries 0
  /\ (retries = 2 -> clock w' <= clock w + 3000).
Proof.
  cbv zeta.
  assert (H : clock w
              <= clock (snd (saveMessageWithRetry message account userId
                               retries w))
              <= clock w + total_backoff (Z.to_nat retries) 0).
  { unfold saveMessageWithRetry. destruct (retries <? 0) eqn:E.
    - apply Z.ltb_lt in E. cbn.
      replace (Z.to_nat retries) with 0%nat by lia. cbn. lia.
    - apply (save_attempts_clock message account userId _ retries
               (Z.to_nat retries) 0 w). }
  split; [exact H|].
  pose proof (total_backoff_bounds (Z.to_nat retries) 0).
  split; [lia|]. intros ->.
  change (total_backoff (Z.to_nat 2) 0) with 3000 in H. lia.
Qed.

Lemma save_attempt_raises message account userId h (w : World) e rest :
  pending w = Raise e :: rest ->
  save_attempt message account userId h w = (Exn e, with_pending w rest).
Proof.
  intros Hp. unfold save_attempt, query, db_statement, external, bind.
  by rewrite Hp.
Qed.

Lemma save_attempts_give_up message account userId h retries left :
  forall attempt (w : World) errs rest,
    pending w = map Raise errs ++ rest ->
    length errs = S left ->
    exists w',
      save_attempts message account userId h retries left attempt w
      = (Val false, w')
      /\ pending w' = rest
      /\ clock w' = clock w + total_backoff left attempt
      /\ emailMessages w' = emailMessages w
      /\ emailThreads w' = emailThreads w.
Proof.
  induction left as [|left IH]; intros attempt w errs rest Hp Hl.
  - destruct errs as [|e [|? ?]]; try done. cbn in Hp.
    cbn [save_attempts]. unfold try_catch.
    rewrite (save_attempt_raises _ _ _ _ _ _ _ Hp). cbn.
    eexists. split; [reflexivity|]. cbn. repeat split; lia.
  - destruct errs as [|e errs]; [done|]. cbn in Hp, Hl.
    injection Hl as Hl.
    cbn [save_attempts]. unfold try_catch.
    rewrite (save_attempt_raises _ _ _ _ _ _ _ Hp).
    unfold bind at 1, sleep at 1. unfold bind at 1, log at 1, emit at 1.
    match goal with
    | |- context [save_attempts _ _ _ _ _ _ _ ?w1] =>
        destruct (IH (attempt + 1) w1 errs rest) as (w' & Hrun & H)
    end; [done|done|].
    rewrite Hrun. eexists. split; [reflexivity|].
    cbn in H. cbn [total_backoff]. destruct H as (? & ? & ? & ?).
    repeat split; try done; lia.
Qed.

(** X15.  When the lookup of the message fails on each of the
    [retries + 1] attempts, [saveMessageWithRetry] answers [false] as it
    does for a message already stored: it has made exactly those
    [retries + 1] database calls, has waited the full sum of the pauses
    and has written nothing. *)
Theorem gives_up_after_all_attempts_fail message account userId retries
    (w : World) errs rest :
  0 <= retries ->
  pending w = map Raise errs ++ rest ->
  length errs = S (Z.to_nat retries) ->
  exists w',
    saveMessageWithRetry message account userId retries w = (Val false, w')
    /\ pending w' = rest
    /\ clock w' = clock w + total_backoff (Z.to_nat retries) 0
    /\ emailMessages w' = emailMessages w
    /\ emailThreads w' = emailThreads w.
Proof.
  intros Hr Hp Hl. unfold saveMessageWithRetry.
  rewrite (proj2 (Z.ltb_ge _ _) Hr).
  by apply (save_attempts_give_up _ _ _ _ _ _ _ _ errs).
Qed.

Lemma save_attempt_orphan message account userId h (w : World) f rest :
  otruthy (externalThreadId message) = false ->
  find_message (externalMessageId message) (emailMessages w) = None ->
  pending w = failing_insert f ++ rest ->
  exists w' t,
    save_attempt message account userId h w = (Exn f.2, w')
    /\ pending w' = rest
    /\ emailMessages w' = emailMessages w
    /\ emailThreads w' = emailThreads w ++ [t]
    /\ unlinked t.
Proof.
  intros Hx Hf Hp. destruct f as [[p1 p2] e]. cbn in Hp.
  unfold save_attempt, query, db_statement, external, bind,
    insert_thread, insert_message, fresh_id, ret.
  rewrite Hp. cbn. rewrite Hf, Hx. cbn.
  eexists _, _. split; [reflexivity|]. cbn. done.
Qed.

Lemma save_attempts_orphans message account userId h retries left :
  forall attempt (w : World) fails rest,
    otruthy (externalThreadId message) = false ->
    find_message (externalMessageId message) (emailMessages w) = None ->
    pending w = concat (map failing_insert fails) ++ rest ->
    length fails = S left ->
    exists w' new,
      save_attempts message account userId h retries left attempt w
      = (Val false, w')
      /\ pending w' = rest
      /\ emailMessages w' = emailMessages w
      /\ emailThreads w' = emailThreads w ++ new
      /\ length new = S left
      /\ Forall unlinked new.
Proof.
  induction left as [|left IH]; intros attempt w fails rest Hx Hf Hp Hl.
  - destruct fails as [|f [|? ?]]; try done.
    cbn [map concat] in Hp. rewrite app_nil_r in Hp.
    destruct (save_attempt_orphan message account userId h w f rest Hx Hf Hp)
      as (w1 & t & Hrun & Hp1 & Hm & Ht & Hu).
    cbn [save_attempts]. unfold try_catch. rewrite Hrun. cbn.
    eexists _, [t]. split; [reflexivity|]. cbn.
    repeat split; try done. by constructor.
  - destruct fails as [|f fails]; [done|]. cbn in Hl. injection Hl as Hl.
    cbn [map concat] in Hp. rewrite <- app_assoc in Hp.
    destruct (save_attempt_orphan message account userId h w f _ Hx Hf Hp)
      as (w1 & t & Hrun & Hp1 & Hm & Ht & Hu).
    cbn [save_attempts]. unfold try_catch. rewrite Hrun.
    unfold bind at 1, sleep at 1. unfold bind at 1, log at 1, emit at 1.
    match goal with
    | |- context [save_attempts _ _ _ _ _ _ _ ?w2] =>
        destruct (IH (attempt + 1) w2 fails rest Hx)
          as (w' & new & Hrun' & Hp' & Hm' & Ht' & Hl' & Hu')
    end; [by cbn; rewrite Hm|done|done|].
    rewrite Hrun'. exists w', (t :: new). split; [reflexivity|].
    cbn in *. rewrite Hm', Ht', Ht, <- app_assoc. cbn.
    repeat split; try done; [lia|by constructor].
Qed.

(** X16.  There is no transaction around the two inserts.  For a message
    that is not stored and names no provider thread, when on each of the
    [retries + 1] attempts the thread insert completes and the message
    insert throws, the run answers [false] and leaves no Message and
    [retries + 1] new Thread rows, each without a provider thread id and
    with a count of 0. *)
Theorem failed_inserts_leave_orphan_threads message account userId retries
    (w : World) fails rest :
  0 <= retries ->
  otruthy (externalThreadId message) = false ->
  find_message (externalMessageId message) (emailMessages w) = None ->
  pending w = concat (map failing_insert fails) ++ rest ->
  length fails = S (Z.to_nat retries) ->
  exists w' new,
    saveMessageWithRetry message account userId retries w = (Val false, w')
    /\ pending w' = rest
    /\ emailMessages w' = emailMessages w
    /\ emailThreads w' = emailThreads w ++ new
    /\ length new = S (Z.to_nat retries)
    /\ Forall unlinked new.
Proof.
  intros Hr Hx Hf Hp Hl. unfold saveMessageWithRetry.
  rewrite (proj2 (Z.ltb_ge _ _) Hr).
  by apply (save_attempts_orphans _ _ _ _ _ _ _ _ fails).
Qed.

(** X17.  A run of [saveMessageWithRetry] only appends.  The Thread and
    Message rows it found are unchanged; it adds one Message row exactly
    when it answers [true]; each Thread row it adds has no provider thread
    id and a count of 0, so a lookup by provider thread id finds after the
    run what it found before; accounts, attachments, the connection cache
    and the rate limiter are not touched. *)
Theorem inbound_save_is_append_only message account userId retries
    (w : World) :
  exists b w' newThreads newMessages,
    saveMessageWithRetry message account userId retries w = (Val b, w')
    /\ emailThreads w' = emailThreads w ++ newThreads
    /\ Forall unlinked newThreads
    /\ (forall id,
          find_thread id (emailThreads w') = find_thread id (emailThreads w))
    /\ emailMessages w' = emailMessages w ++ newMessages
    /\ length newMessages = (if b then 1 else 0)%nat
    /\ same_rest w w'.
Proof.
  destruct (saveMessageWithRetry_outcome message account userId retries w)
    as (b & w' & Hrun & Ho & Hr).
  exists b, w'.
  assert (H : exists newThreads newMessages,
             emailThreads w' = emailThreads w ++ newThreads
             /\ Forall unlinked newThreads
             /\ emailMessages w' = emailMessages w ++ newMessages
             /\ length newMessages = (if b then 1 else 0)%nat).
  { inversion Ho as [? new Hm Ht Hn|? new ? m ? ? ? Ht Hn Hm
                     |? new t m ? ? Ht Hn Hu Hm]; subst.
    - exists new, []. by rewrite app_nil_r.
    - by exists new, [m].
    - exists (new ++ [t]), [m]. repeat split; try done.
      apply Forall_app. split; [done|]. by constructor. }
  destruct H as (newThreads & newMessages & Ht & Hu & Hm & Hl).
  exists newThreads, newMessages. repeat split; try done.
  - intros id. rewrite Ht. by apply find_thread_unlinked.
  - apply Hr.
  - apply Hr.
  - apply Hr.
  - apply Hr.
Qed.

(** ** What the send route leaves in storage *)

(** The rows of a request that got its answer 201. *)
Lemma persist_and_dispatch_rows req a provider fromEmail to cc bcc html text
    (w : World) :
  wp (persist_and_dispatch req a provider fromEmail to cc bcc html text) w
     (fun r w' =>
        forall mid tid sr,
          r = Val (Created mid tid sr) ->
          emailMessages w'
          = emailMessages w
            ++ [mkMessage mid tid (Some (acc_id a)) None fromEmail to cc bcc
                  (body_subject req) html text MtSent false (clock w)
                  (user_id req)]
          /\ emailAttachments w'
             = emailAttachments w
               ++ map (fun f => mkAttachment mid (originalname f)
                                  (file_size f) (mimetype f)
                                  (base64 (buffer f)))
                      (default [] (files req))
          /\ emailThreads w'
             = map (bump_thread tid (clock w))
                 (emailThreads w
                  ++ match body_threadId req with
                     | Some _ => []
                     | None =>
                         [mkThread tid None (body_subject req)
                            (fromEmail :: to) (clock w) 0 (user_id req)]
                     end)
          /\ (forall t, body_threadId req = Some t -> tid = t)
          /\ clock w' = clock w).
Proof.
  unfold persist_and_dispatch, insert_thread, insert_message,
    insert_attachments, update_thread.
  wp_run.
  all: try (intros; discriminate).
  all: (eapply wp_mono; [apply sendFromAccount_spec|]);
       intros r w' (sr & -> & Hu & _); unfold record_sent; wp_run.
  all: try (intros; discriminate).
  all: intros mid tid sr' [= <- <- <-].
  all: destruct Hu as [_ Hut Hum Hua _ Huc _ _]; cbn in *.
  all: repeat match goal with
              | H : body_threadId _ = _ |- _ => rewrite H in *; clear H
              end.
  all: match goal with
       | |- context [files ?r] => destruct (files r) as [fs|]
       end; cbn in *.
  all: rewrite ?map_map in *; cbn in *.
  all: repeat split; try congruence.
  all: rewrite ?app_nil_r.
  all: try (by rewrite Hut, Huc).
  all: try (by rewrite Hua).
  all: rewrite Hua.
  all: match goal with
       | |- context [map _ ?l] => destruct l; cbn in *
       end; by rewrite ?app_nil_r.
Qed.

(** A request that got its answer 201 passed the gates and ran the
    persisting part of the handler from a world that differs from the one
    after the gates by the spam warning at most. *)
Lemma send_route_created req (w : World) mid tid sr w' :
  send_route req w = (Val (Created mid tid sr), w') ->
  exists a w1 w2,
    passes_gates req w a w1
    /\ untouched w1 w2
    /\ persist_and_dispatch req a (provider_of a) (from_email req a)
         (to_list (body_to req)) (opt_list (body_cc req))
         (opt_list (body_bcc req)) (sanitized_body req) (final_text_of req)
         w2
       = (Val (Created mid tid sr), w').
Proof.
  intros Hrun.
  destruct (send_route_outcome req w) as (resp & w0 & Hrun0 & Ho).
  rewrite Hrun in Hrun0. injection Hrun0 as <- <-.
  inversion Ho as [| | | | | |a w1 ? m sr0 Hg H7 Hin _ _ _ _ _ _|]; subst.
  exists a, w1.
  rewrite (send_route_after_gates req w a w1 Hg) in Hrun.
  unfold try_catch, check_and_send in Hrun.
  rewrite (proj2 (Z.leb_gt _ _) H7) in Hrun.
  fold (final_text_of req) in Hrun. rewrite Hin in Hrun.
  unfold bind at 1 in Hrun.
  destruct (5 <=? score (spam_check req a)); cbn in Hrun.
  - match type of Hrun with
    | context [persist_and_dispatch _ _ _ _ _ _ _ _ _ ?w2] =>
        exists w2; destruct (persist_and_dispatch req a (provider_of a)
          (from_email req a) (to_list (body_to req))
          (opt_list (body_cc req)) (opt_list (body_bcc req))
          (sanitized_body req) (final_text_of req) w2) as [[resp|e] w3]
    end; cbn in Hrun; [|discriminate].
    injection Hrun as -> ->. split; [done|]. split; [|done].
    split; done.
  - destruct (persist_and_dispatch req a (provider_of a)
          (from_email req a) (to_list (body_to req))
          (opt_list (body_cc req)) (opt_list (body_bcc req))
          (sanitized_body req) (final_text_of req) w1) as [[resp|e] w3] eqn:E;
      cbn in Hrun; [|discriminate].
    injection Hrun as -> ->. exists w1. split; [done|]. split; [|done].
    split; done.
Qed.

(** The account the route sends from is a row of the requesting user. *)
Lemma resolve_account_owned req (w : World) a w1 :
  resolve_account req w = (Val (Some a), w1) ->
  In a (emailAccounts w)
  /\ acc_userId a = user_id req
  /\ (otruthy (body_accountId req) = true ->
      acc_id a = default [] (body_accountId req)).
Proof.
  unfold resolve_account.
  destruct (otruthy (body_accountId req)) eqn:Hid.
  - unfold query, db_statement, external, bind, ret.
    destruct (pending w) as [|[p|e] rest]; cbn; intros [= Hf _]; revert Hf.
    all: unfold find_owned_account; intros Hf.
    all: apply find_some in Hf as [Hin Hf].
    all: apply andb_true_iff in Hf as [H1 H2].
    all: apply bool_decide_eq_true in H1, H2; done.
  - intros Hrun.
    pose proof (getDefaultAccount_run (user_id req) w) as Hd.
    assert (Hs : first_in_order
                   (accounts_of (user_id req) (emailAccounts w)) = Some a).
    { destruct (pending w) as [|[p|e] rest].
      - destruct Hd as (w' & Hd & _). congruence.
      - destruct Hd as (w' & Hd & _). congruence.
      - destruct Hd as (w' & Hd). congruence. }
    apply first_in_order_best in Hs as [Hin _].
    apply accounts_of_In in Hin as [Hin Hu]. done.
Qed.

(** X18.  Every answer 201 of the send route comes with exactly one new
    Message row, and the row is of type [sent] whether or not the provider
    took the message: it belongs to an account row of the requesting user
    (the one the request names, when it names one), and carries the
    sanitized HTML body, the text body the handler went on with, the
    recipients of the request and the time of the request. *)
Theorem created_answer_has_its_message_row req (w : World) mid tid sr w' :
  send_route req w = (Val (Created mid tid sr), w') ->
  exists a,
    In a (emailAccounts w)
    /\ acc_userId a = user_id req
    /\ (otruthy (body_accountId req) = true ->
        acc_id a = default [] (body_accountId req))
    /\ emailMessages w'
       = emailMessages w
         ++ [mkMessage mid tid (Some (acc_id a)) None (from_email req a)
               (to_list (body_to req)) (opt_list (body_cc req))
               (opt_list (body_bcc req)) (body_subject req)
               (sanitized_body req) (final_text_of req) MtSent false
               (clock w) (user_id req)].
Proof.
  intros Hrun.
  destruct (send_route_created req w mid tid sr w' Hrun)
    as (a & w1 & w2 & Hg & Hu & Hp).
  pose proof Hg as (_ & Hr & _).
  destruct (resolve_account_owned req w a w1 Hr) as (Hin & Hown & Hid).
  apply resolve_account_run in Hr as (Hu0 & _).
  exists a. split; [done|]. split; [done|]. split; [done|].
  pose proof (persist_and_dispatch_rows req a (provider_of a)
                (from_email req a) (to_list (body_to req))
                (opt_list (body_cc req)) (opt_list (body_bcc req))
                (sanitized_body req) (final_text_of req) w2) as H.
  unfold wp in H. rewrite Hp in H. cbn in H.
  destruct (H mid tid sr eq_refl) as (Hm & _).
  destruct Hu, Hu0. congruence.
Qed.

(** X19.  An answer 201 means the thread of the message was counted once:
    the Thread rows are the rows found, with the new row of the message
    when the request names no thread, and among them exactly the rows with
    the id of the answer have their [messageCount] raised by one and their
    [lastMessageAt] set to the time of the request.  A thread the request
    opens therefore ends with a count of 1. *)
Theorem created_answer_counts_the_thread req (w : World) mid tid sr w' :
  send_route req w = (Val (Created mid tid sr), w') ->
  exists a,
    emailThreads w'
    = map (bump_thread tid (clock w))
        (emailThreads w
         ++ match body_threadId req with
            | Some _ => []
            | None =>
                [mkThread tid None (body_subject req)
                   (from_email req a :: to_list (body_to req)) (clock w) 0
                   (user_id req)]
            end)
    /\ (forall t, body_threadId req = Some t -> tid = t).
Proof.
  intros Hrun.
  destruct (send_route_created req w mid tid sr w' Hrun)
    as (a & w1 & w2 & Hg & Hu & Hp).
  pose proof Hg as (_ & Hr & _).
  apply resolve_account_run in Hr as (Hu0 & _).
  exists a.
  pose proof (persist_and_dispatch_rows req a (provider_of a)
                (from_email req a) (to_list (body_to req))
                (opt_list (body_cc req)) (opt_list (body_bcc req))
                (sanitized_body req) (final_text_of req) w2) as H.
  unfold wp in H. rewrite Hp in H. cbn in H.
  destruct (H mid tid sr eq_refl) as (_ & _ & Ht & Hid & _).
  split; [|done].
  by rewrite Ht, (un_clock _ _ Hu), (un_clock _ _ Hu0),
    (un_threads _ _ Hu), (un_threads _ _ Hu0).
Qed.

(** X20.  An answer 201 means one Attachment row per uploaded file, in the
    order of the upload, each linked to the new message and holding the
    name, size and type of the file and its content in base64. *)
Theorem created_answer_stores_the_attachments req (w : World) mid tid sr w' :
  send_route req w = (Val (Created mid tid sr), w') ->
  emailAttachments w'
  = emailAttachments w
    ++ map (fun f => mkAttachment mid (originalname f) (file_size f)
                       (mimetype f) (base64 (buffer f)))
         (default [] (files req)).
Proof.
  intros Hrun.
  destruct (send_route_created req w mid tid sr w' Hrun)
    as (a & w1 & w2 & Hg & Hu & Hp).
  pose proof Hg as (_ & Hr & _).
  apply resolve_account_run in Hr as (Hu0 & _).
  pose proof (persist_and_dispatch_rows req a (provider_of a)
                (from_email req a) (to_list (body_to req))
                (opt_list (body_cc req)) (opt_list (body_bcc req))
                (sanitized_body req) (final_text_of req) w2) as H.
  unfold wp in H. rewrite Hp in H. cbn in H.
  destruct (H mid tid sr eq_refl) as (_ & Ha & _).
  destruct Hu, Hu0. congruence.
Qed.

(** X21.  A request the route turns down with status 400 or 429 (invalid
    recipients, no account, rate limit, spam score, too little text)
    leaves no trace in storage: no Message, Thread or Attachment row is
    written or changed, the rate limiter is not charged and no provider is
    called. *)
Theorem rejected_requests_write_nothing req (w : World) resp w' :
  send_route req w = (Val resp, w') ->
  status resp = 400 \/ status resp = 429 ->
  emailMessages w' = emailMessages w
  /\ emailThreads w' = emailThreads w
  /\ emailAttachments w' = emailAttachments w
  /\ emailAccounts w' = emailAccounts w
  /\ rateLimiter w' = rateLimiter w
  /\ no_transport w w'.
Proof.
  intros Hrun Hst.
  destruct (send_route_outcome req w) as (resp0 & w0 & Hrun0 & Ho).
  rewrite Hrun in Hrun0. injection Hrun0 as <- <-.
  assert (Hgate : forall r w1,
            resolve_account req w = (r, w1) ->
            untouched w w1 /\ no_transport w w1).
  { intros r w1 Hr. by apply resolve_account_run in Hr as (? & ? & _). }
  inversion Ho as
    [Hi|? Hi Hr|? ? Hi Hr|? ? Hi Hr Hal|a ? (Hi & Hr & Hal) H7
     |a w1 ? (Hi & Hr & Hal) H7 Hin Hu Hn Hw
     |? ? ? ? ? _ _ _ _ _ _ _ _ _
     |? ? ? ? _ _ _ _ _]; subst.
  - unfold no_transport. done.
  - destruct (Hgate _ _ Hr) as [[] ?]. done.
  - by destruct Hst.
  - destruct (Hgate _ _ Hr) as [[] ?]. done.
  - destruct (Hgate _ _ Hr) as [[] ?]. done.
  - destruct (Hgate _ _ Hr) as [[] [? ?]]. destruct Hu, Hn.
    unfold no_transport. repeat split; congruence.
  - by destruct Hst.
  - by destruct Hst.
Qed.

Lemma resolve_account_quiet_run req (w : World) :
  pending w = [] ->
  exists r, resolve_account req w = (Val r, w).
Proof.
  intros Hp. unfold resolve_account, getDefaultAccount, try_catch, query,
    db_statement, external, bind, ret.
  destruct (otruthy (body_accountId req)); rewrite Hp; cbn; eauto.
Qed.

(** X22.  The route answers 500 only after an external call has thrown:
    when every database and provider call completes, the answer is one of
    400, 429 and 201. *)
Theorem answer_500_needs_a_failing_call req (w : World) :
  pending w = [] ->
  exists resp w',
    send_route req w = (Val resp, w')
    /\ (status resp = 400 \/ status resp = 429 \/ status resp = 201).
Proof.
  intros Hp.
  destruct (send_route_outcome req w) as (resp & w' & Hrun & Ho).
  exists resp, w'. split; [done|].
  destruct (resolve_account_quiet_run req w Hp) as (r & Hres).
  inversion Ho as
    [Hi|? Hi Hr|? ? Hi Hr|? ? Hi Hr Hal|a ? (Hi & Hr & Hal) H7
     |a w1 ? (Hi & Hr & Hal) H7 Hin Hu Hn Hw
     |? ? ? ? ? _ _ _ _ _ _ _ _ _
     |a w1 ? k Hg H7 Hin _ _]; subst; cbn; auto.
  - congruence.
  - pose proof Hg as (_ & Hr & _).
    assert (w1 = w) as -> by congruence.
    destruct (send_route_completes req w a w Hg H7 Hin Hp)
      as (mid & tid & sr & w2 & Hrun2 & _).
    congruence.
Qed.

(** X23.  A request that names an account of another user, or an account
    that does not exist, is answered with 400 "no account configured":
    the route does not fall back to the default account of the user,
    writes nothing and calls no provider. *)
Theorem foreign_account_is_not_used req (w : World) :
  otruthy (body_accountId req) = true ->
  invalid_recipients req = [] ->
  next_completes w ->
  (forall a, In a (emailAccounts w) ->
             acc_id a = default [] (body_accountId req) ->
             acc_userId a <> user_id req) ->
  exists w',
    send_route req w = (Val NoAccountConfigured, w')
    /\ emailMessages w' = emailMessages w
    /\ emailThreads w' = emailThreads w
    /\ no_transport w w'.
Proof.
  intros Hid Hi Hn Hforeign.
  assert (Hnone : find_owned_account (default [] (body_accountId req))
                    (user_id req) (emailAccounts w) = None).
  { unfold find_owned_account.
    destruct (find _ _) as [a|] eqn:Hf; [|done].
    apply find_some in Hf as [Hin Hf].
    apply andb_true_iff in Hf as [H1 H2].
    apply bool_decide_eq_true in H1, H2.
    by destruct (Hforeign a Hin H1). }
  unfold send_route, send_route_body, try_catch.
  fold (invalid_recipients req). rewrite Hi. cbn [length Nat.ltb Nat.leb].
  unfold resolve_account. rewrite Hid.
  unfold next_completes in Hn.
  unfold query, db_statement, external. unfold bind, ret.
  destruct (pending w) as [|[p|e] rest]; [| |done]; cbn; rewrite Hnone.
  - eexists. split; [reflexivity|]. by unfold no_transport.
  - eexists. split; [reflexivity|]. by unfold no_transport.
Qed.

(** ** Batches of inbound messages *)

Lemma batches_from_spec fuel : forall i messages,
  (length messages - i <= fuel)%nat ->
  concat (batches_from fuel i messages) = drop i messages
  /\ Forall (fun b => (0 < length b <= BATCH_SIZE)%nat)
       (batches_from fuel i messages)
  /\ length (batches_from fuel i messages)
     = ((length messages - i + 9) / 10)%nat.
Proof.
  induction fuel as [|fuel IH]; intros i messages Hf; cbn [batches_from];
    unfold BATCH_SIZE in *.
  - rewrite drop_ge by lia.
    replace (length messages - i)%nat with 0%nat by lia. done.
  - destruct (i <? length messages)%nat eqn:E.
    + apply Nat.ltb_lt in E.
      destruct (IH (i + 10)%nat messages) as (Hc & Hl & Hn); [lia|].
      cbn [concat length]. rewrite Hc, Hn.
      split; [|split].
      * rewrite <- (drop_drop messages 10 i). apply take_drop.
      * constructor; [|done].
        rewrite length_take, length_drop. lia.
      * destruct (le_lt_dec 10 (length messages - i)) as [Hge|Hlt].
        -- replace (length messages - i + 9)%nat
             with (1 * 10 + (length messages - (i + 10) + 9))%nat by lia.
           by rewrite Nat.div_add_l.
        -- replace (length messages - (i + 10))%nat with 0%nat by lia.
           change (S ((0 + 9) / 10)) with 1%nat.
           apply (Nat.div_unique _ 10 1 (length messages - i - 1)); lia.
    + apply Nat.ltb_ge in E. rewrite drop_ge by lia.
      replace (length messages - i)%nat with 0%nat by lia. done.
Qed.

(** X24.  [saveMessagesToDatabase] hands every message to
    [saveMessageWithRetry] exactly once and in the order received: its
    batches, put end to end, are the list of messages.  No batch is empty
    and none has more than 10 messages, and there are [ceil(n / 10)] of
    them for [n] messages. *)
Theorem batches_partition_the_messages messages :
  concat (batches messages) = messages
  /\ Forall (fun b => (0 < length b <= BATCH_SIZE)%nat) (batches messages)
  /\ length (batches messages) = ((length messages + 9) / 10)%nat.
Proof.
  destruct (batches_from_spec (length messages) 0 messages) as (Hc & Hl & Hn);
    [lia|].
  unfold batches. rewrite Hc, Hn, Nat.sub_0_r. done.
Qed.

(** ** A call of [saveMessageWithRetry] as segments *)

Lemma run_alone_resolved fuel seg b (w : World) :
  run_alone fuel seg (Resolved b) w = (Val (Resolved b), w).
Proof. by destruct fuel. Qed.

Lemma run_alone_S fuel seg pt (w : World) :
  resolved pt = false ->
  run_alone (S fuel) seg pt w
  = match seg pt w with
    | (Val pt', w') => run_alone fuel seg pt' w'
    | (Exn e, w') => (Exn e, w')
    end.
Proof. intros H. cbn [run_alone]. by rewrite H. Qed.

Lemma try_catch_bind {A B} (m : M A) (f : A -> M B) hd (w : World) :
  try_catch (bind m f) hd w
  = match m w with
    | (Val a, w') => try_catch (f a) hd w'
    | (Exn e, w') => hd e w'
    end.
Proof. unfold try_catch, bind. by destruct (m w) as [[a|e] w']. Qed.

Lemma bind_bind {A B C} (m : M A) (f : A -> M B) (g : B -> M C) (w : World) :
  bind (bind m f) g w = bind m (fun x => bind (f x) g) w.
Proof. unfold bind. by destruct (m w) as [[a|e] w']. Qed.

Lemma try_catch_bind_bind {A B C} (m : M A) (f : A -> M B) (g : B -> M C)
    hd (w : World) :
  try_catch (bind (bind m f) g) hd w
  = match m w with
    | (Val a, w') => try_catch (bind (f a) g) hd w'
    | (Exn e, w') => hd e w'
    end.
Proof. unfold try_catch, bind. by destruct (m w) as [[a|e] w']. Qed.

(** One attempt: the segments from the first lookup on do what the body
    of the [try] block does, and a failure is handed to the code that
    follows the [catch]. *)
Lemma run_alone_attempt message account userId h retries attempt left
    (hd : jsstring -> M bool) fuel (w : World) :
  (forall e w1 fuel1,
      (fuel <= fuel1 + 4)%nat ->
      match after_failure message attempt left w1 with
      | (Val pt', w') =>
          run_alone fuel1 (save_segment message account userId h retries)
            pt' w'
      | (Exn e', w') => (Exn e', w')
      end
      = (settled_as (hd e w1).1, (hd e w1).2)) ->
  (4 <= fuel)%nat ->
  run_alone fuel (save_segment message account userId h retries)
    (AtFindMessage attempt left) w
  = (settled_as
       (try_catch (save_attempt message account userId h) hd w).1,
     (try_catch (save_attempt message account userId h) hd w).2).
Proof.
  intros Hfail Hf.
  do 4 (destruct fuel as [|fuel]; [lia|]).
  (* the insert of the message *)
  assert (H4 : forall threadId fuel1 w1,
    (fuel <= fuel1)%nat ->
    run_alone (S fuel1) (save_segment message account userId h retries)
      (AtInsertMessage attempt left threadId) w1
    = (settled_as
         (try_catch
            (insert_message (fun id =>
               mkMessage id threadId (Some (acc_id account))
                 (Some (externalMessageId message))
                 (em_from message) (em_to message)
                 (default [] (em_cc message)) (default [] (em_bcc message))
                 (Some (em_subject message))
                 h (em_textBody message)
                 MtReceived false (em_date message) userId) ;;;
             ret true) hd w1).1,
       (try_catch
            (insert_message (fun id =>
               mkMessage id threadId (Some (acc_id account))
                 (Some (externalMessageId message))
                 (em_from message) (em_to message)
                 (default [] (em_cc message)) (default [] (em_bcc message))
                 (Some (em_subject message))
                 h (em_textBody message)
                 MtReceived false (em_date message) userId) ;;;
             ret true) hd w1).2)).
  { intros threadId fuel1 w1 Hf1.
    rewrite run_alone_S by done. cbn [save_segment].
    rewrite !try_catch_bind.
    destruct (insert_message _ w1) as [[x|e] w2].
    - cbn. by rewrite ?run_alone_resolved.
    - apply Hfail. lia. }
  (* the insert of the thread *)
  assert (H3 : forall fuel1 w1,
    (S fuel <= fuel1)%nat ->
    run_alone (S fuel1) (save_segment message account userId h retries)
      (AtInsertThread attempt left) w1
    = (settled_as
         (try_catch
            (threadId <-
               (newThread <- insert_thread (Some (em_subject message))
                               (em_from message :: em_to message)
                               (em_date message) 0 userId ;;
                ret (th_id newThread)) ;;
             insert_message (fun id =>
               mkMessage id threadId (Some (acc_id account))
                 (Some (externalMessageId message))
                 (em_from message) (em_to message)
                 (default [] (em_cc message)) (default [] (em_bcc message))
                 (Some (em_subject message))
                 h (em_textBody message)
                 MtReceived false (em_date message) userId) ;;;
             ret true) hd w1).1,
       (try_catch
            (threadId <-
               (newThread <- insert_thread (Some (em_subject message))
                               (em_from message :: em_to message)
                               (em_date message) 0 userId ;;
                ret (th_id newThread)) ;;
             insert_message (fun id =>
               mkMessage id threadId (Some (acc_id account))
                 (Some (externalMessageId message))
                 (em_from message) (em_to message)
                 (default [] (em_cc message)) (default [] (em_bcc message))
                 (Some (em_subject message))
                 h (em_textBody message)
                 MtReceived false (em_date message) userId) ;;;
             ret true) hd w1).2)).
  { intros fuel1 w1 Hf1.
    rewrite run_alone_S by done. cbn [save_segment].
    rewrite try_catch_bind, try_catch_bind_bind.
    destruct (insert_thread _ _ _ _ _ w1) as [[t|e] w2].
    - destruct fuel1 as [|fuel1]; [lia|].
      change (try_catch (ret ?x) ?hd' w2) with (@Val save_point x, w2).
      cbv iota. rewrite H4 by lia. reflexivity.
    - apply Hfail. lia. }
  (* the lookup of the thread *)
  assert (H2 : forall fuel1 w1,
    (S (S fuel) <= fuel1)%nat ->
    run_alone (S fuel1) (save_segment message account userId h retries)
      (AtFindThread attempt left) w1
    = (settled_as
         (try_catch
            (existingThread <-
               query (fun w => find_thread
                                 (default [] (externalThreadId message))
                                 (emailThreads w)) ;;
             threadId <-
               (match existingThread with
                | Some t => ret (th_id t)
                | None =>
                    newThread <- insert_thread (Some (em_subject message))
                                   (em_from message :: em_to message)
                                   (em_date message) 0 userId ;;
                    ret (th_id newThread)
                end) ;;
             insert_message (fun id =>
               mkMessage id threadId (Some (acc_id account))
                 (Some (externalMessageId message))
                 (em_from message) (em_to message)
                 (default [] (em_cc message)) (default [] (em_bcc message))
                 (Some (em_subject message))
                 h (em_textBody message)
                 MtReceived false (em_date message) userId) ;;;
             ret true) hd w1).1,
       (try_catch
            (existingThread <-
               query (fun w => find_thread
                                 (default [] (externalThreadId message))
                                 (emailThreads w)) ;;
             threadId <-
               (match existingThread with
                | Some t => ret (th_id t)
                | None =>
                    newThread <- insert_thread (Some (em_subject message))
                                   (em_from message :: em_to message)
                                   (em_date message) 0 userId ;;
                    ret (th_id newThread)
                end) ;;
             insert_message (fun id =>
               mkMessage id threadId (Some (acc_id account))
                 (Some (externalMessageId message))
                 (em_from message) (em_to message)
                 (default [] (em_cc message)) (default [] (em_bcc message))
                 (Some (em_subject message))
                 h (em_textBody message)
                 MtReceived false (em_date message) userId) ;;;
             ret true) hd w1).2)).
  { intros fuel1 w1 Hf1.
    rewrite run_alone_S by done. cbn [save_segment].
    rewrite !try_catch_bind.
    destruct (query _ w1) as [[[t|]|e] w2].
    - destruct fuel1 as [|fuel1]; [lia|].
      change (try_catch (ret ?x) ?hd' w2) with (@Val save_point x, w2).
      cbv iota. rewrite H4 by lia.
      by rewrite (try_catch_bind (ret (th_id t))).
    - destruct fuel1 as [|fuel1]; [lia|].
      change (try_catch (ret ?x) ?hd' w2) with (@Val save_point x, w2).
      cbv iota. rewrite H3 by lia. reflexivity.
    - apply Hfail. lia. }
  (* the lookup of the message *)
  rewrite run_alone_S by done. cbn [save_segment]. unfold save_attempt.
  rewrite !try_catch_bind.
  destruct (query _ w) as [[[x|]|e] w1].
  - cbn. by rewrite ?run_alone_resolved.
  - destruct (otruthy (externalThreadId message)).
    + change (try_catch (ret ?x) ?hd' w1) with (@Val save_point x, w1).
      cbv iota. rewrite H2 by lia. reflexivity.
    + change (try_catch (ret ?x) ?hd' w1) with (@Val save_point x, w1).
      cbv iota. rewrite H3 by lia.
      by rewrite (try_catch_bind (ret None)).
  - apply Hfail. lia.
Qed.

(** The whole loop. *)
Lemma run_alone_attempts message account userId h retries left :
  forall attempt fuel (w : World),
    (5 * S left <= fuel)%nat ->
    run_alone fuel (save_segment message account userId h retries)
      (AtFindMessage attempt left) w
    = (settled_as
         (save_attempts message account userId h retries left attempt w).1,
       (save_attempts message account userId h retries left attempt w).2).
Proof.
  induction left as [|left IH]; intros attempt fuel w Hf;
    cbn [save_attempts]; apply run_alone_attempt; try lia.
  - intros e w1 fuel1 _. cbn. by rewrite run_alone_resolved.
  - intros e w1 fuel1 Hf1. cbn [after_failure].
    destruct fuel1 as [|fuel1]; [lia|].
    change (ret (AtPause attempt left) w1)
      with (@Val save_point (AtPause attempt left), w1).
    cbv iota. rewrite run_alone_S by done.
    cbn [save_segment]. unfold bind at 1 2, sleep at 1, log at 1, emit at 1.
    unfold ret at 1. rewrite IH by lia.
    unfold bind at 1 2, sleep at 1, log at 1, emit at 1. reflexivity.
Qed.

Lemma call_alone_run message account userId retries
    (w : World) :
  exists b w',
    saveMessageWithRetry message account userId retries w = (Val b, w')
    /\ run_alone (S (5 * S (Z.to_nat retries)))
         (save_segment message account userId
            (sanitizeHtml (em_htmlBody message)) retries)
         AtImport w
       = (Val (Resolved b), w').
Proof.
  destruct (saveMessageWithRetry_outcome message account userId retries w)
    as (b & w' & Hrun & _).
  exists b, w'. split; [done|].
  rewrite run_alone_S by done. cbn [save_segment].
  unfold saveMessageWithRetry in Hrun.
  destruct (retries <? 0).
  - injection Hrun as <- <-. by cbn.
  - change (ret ?x w) with (@Val save_point x, w). cbv iota.
    rewrite run_alone_attempts by lia. by rewrite Hrun.
Qed.

(** X25.  Run alone, the segments of a call (from one [await] to the next)
    do what [saveMessageWithRetry] does: the same answer and the same
    world, within [5 * (retries + 1) + 1] segments. *)
Theorem call_alone_is_saveMessageWithRetry message account userId retries
    (w : World) :
  exists b w',
    saveMessageWithRetry message account userId retries w = (Val b, w')
    /\ run_alone (S (5 * S (Z.to_nat retries)))
         (save_segment message account userId
            (sanitizeHtml (em_htmlBody message)) retries)
         AtImport w
       = (Val (Resolved b), w').
Proof. apply call_alone_run. Qed.

(** ** The pool of a batch *)

Lemma pool_steps_trans account userId retries
    (s1 s2 s3 : World * list (ExternalMessage * save_point)) :
  pool_steps account userId retries s1 s2 ->
  pool_steps account userId retries s2 s3 ->
  pool_steps account userId retries s1 s3.
Proof.
  induction 1 as [|? ? ? Hs _ IH]; [done|].
  intros H3. eapply pool_next; [exact Hs|]. by apply IH.
Qed.

(** The segments of one call, run back to back, are turns of its pool. *)
Lemma pool_lift account userId retries message pre post fuel :
  forall pt (w : World) pt' w',
    run_alone fuel
      (save_segment message account userId
         (sanitizeHtml (em_htmlBody message)) retries) pt w
    = (Val pt', w') ->
    pool_steps account userId retries
      (w, pre ++ (message, pt) :: post) (w', pre ++ (message, pt') :: post).
Proof.
  induction fuel as [|fuel IH]; intros pt w pt' w' Hrun.
  - injection Hrun as <- <-. apply pool_refl.
  - cbn [run_alone] in Hrun. destruct (resolved pt) eqn:Hr.
    + injection Hrun as <- <-. apply pool_refl.
    + destruct (save_segment _ _ _ _ _ pt w) as [[pt1|e] w1] eqn:Hseg;
        [|done].
      eapply pool_next; [|apply (IH _ _ _ _ Hrun)].
      pose proof (pool_turn account userId retries (length pre) message pt
                    pt1 w w1 (pre ++ (message, pt) :: post)) as Hs.
      rewrite lookup_app_r, Nat.sub_diag in Hs by lia.
      rewrite insert_app_r_alt, Nat.sub_diag in Hs by lia.
      by apply Hs.
Qed.

(** Every batch has a run: the calls one after the other. *)
Lemma batch_has_a_run account userId retries todo :
  forall done_ (w : World),
    forallb (fun c => resolved c.2) done_ = true ->
    exists w' calls,
      pool_steps account userId retries
        (w, done_ ++ map (fun m => (m, AtImport)) todo) (w', calls)
      /\ forallb (fun c => resolved c.2) calls = true.
Proof.
  induction todo as [|m todo IH]; intros done_ w Hd.
  - exists w, done_. cbn. rewrite app_nil_r. split; [apply pool_refl|done].
  - destruct (call_alone_run m account userId retries w)
      as (b & w1 & _ & Hrun).
    destruct (IH (done_ ++ [(m, Resolved b)]) w1) as (w' & calls & Hs & Hr).
    { rewrite forallb_app, Hd. done. }
    exists w', calls. split; [|done].
    eapply pool_steps_trans; [|rewrite <- app_assoc in Hs; exact Hs].
    cbn [map]. by eapply pool_lift.
Qed.

(** A segment writes a Message row exactly when it settles with [true],
    and it never throws. *)
Lemma save_segment_rows message account userId h retries pt (w : World) :
  resolved pt = false ->
  exists pt' w' new,
    save_segment message account userId h retries pt w = (Val pt', w')
    /\ emailMessages w' = emailMessages w ++ new
    /\ length new = (if saved pt' then 1 else 0)%nat.
Proof.
  intros Hr.
  cut (wp (save_segment message account userId h retries pt) w
         (fun r w' =>
            exists pt' new,
              r = Val pt'
              /\ emailMessages w' = emailMessages w ++ new
              /\ length new = (if saved pt' then 1 else 0)%nat)).
  { intros H. apply wp_run in H as (r & w' & Hrun & pt' & new & -> & H).
    eauto 10. }
  destruct pt as [|a l|a l|a l|a l t|a l|b]; [| | | | | |done];
    cbn [save_segment]; unfold after_failure, insert_thread, insert_message.
  all: wp_run.
  all: try destruct l; wp_run.
  all: try (by eexists _, []; cbn; rewrite app_nil_r).
  all: by eexists _, [_].
Qed.

Lemma pool_step_rows account userId retries (w w' : World) calls calls' :
  pool_step account userId retries (w, calls) (w', calls') ->
  length calls' = length calls
  /\ exists new,
       emailMessages w' = emailMessages w ++ new
       /\ saved_count calls' = (saved_count calls + length new)%nat.
Proof.
  inversion 1 as [i message pt pt' ? ? ? Hi Hr Hseg]; subst.
  split; [by rewrite length_insert|].
  destruct (save_segment_rows message account userId
              (sanitizeHtml (em_htmlBody message)) retries pt w Hr)
    as (pt1 & w1 & new & Hseg' & Hm & Hl).
  rewrite Hseg in Hseg'. injection Hseg' as <- <-.
  exists new. split; [done|].
  pose proof (filter_insert_count (fun c => saved c.2) calls i (message, pt)
                (message, pt') Hi) as Hc.
  unfold saved_count. cbn in Hc. rewrite Hl.
  assert (Hs : saved pt = false) by (by destruct pt).
  rewrite Hs in Hc. destruct (saved pt'); lia.
Qed.

Lemma pool_steps_rows account userId retries
    (s s' : World * list (ExternalMessage * save_point)) :
  pool_steps account userId retries s s' ->
  length s'.2 = length s.2
  /\ exists new,
       emailMessages s'.1 = emailMessages s.1 ++ new
       /\ saved_count s'.2 = (saved_count s.2 + length new)%nat.
Proof.
  induction 1 as [s|s1 s2 s3 Hs _ IH].
  - split; [done|]. exists []. by rewrite app_nil_r, Nat.add_0_r.
  - destruct s1 as [w1 c1], s2 as [w2 c2], s3 as [w3 c3].
    destruct IH as (Hl & new2 & Hm2 & Hc2).
    apply pool_step_rows in Hs as (Hl1 & new1 & Hm1 & Hc1).
    cbn [fst snd] in *.
    split; [congruence|]. exists (new1 ++ new2).
    rewrite Hm2, Hm1, Hc2, Hc1, length_app, <- app_assoc. split; [done|lia].
Qed.

Lemma saved_count_le calls : (saved_count calls <= length calls)%nat.
Proof. unfold saved_count. apply List.filter_length_le. Qed.

Lemma batch_run_rows account userId batch (w : World) n w' :
  batch_run account userId batch w n w' ->
  exists new,
    emailMessages w' = emailMessages w ++ new
    /\ length new = n
    /\ (n <= length batch)%nat.
Proof.
  intros (calls & Hs & _ & ->).
  apply pool_steps_rows in Hs as (Hl & new & Hm & Hc). cbn [fst snd] in *.
  fold (saved_count calls).
  assert (H0 : saved_count (map (fun m => (m, AtImport)) batch) = 0%nat).
  { unfold saved_count. clear. induction batch; [done|]. by cbn. }
  rewrite H0 in Hc. cbn in Hc.
  exists new. split; [done|]. split; [done|].
  pose proof (saved_count_le calls). rewrite length_map in Hl. lia.
Qed.

Lemma batches_run_rows account userId bs (w : World) c w' c' :
  batches_run account userId bs w c w' c' ->
  exists new,
    emailMessages w' = emailMessages w ++ new
    /\ c' = (c + length new)%nat
    /\ (length new <= length (concat bs))%nat.
Proof.
  induction 1 as [w c|batch rest w c n w1 w2 c2 Hb _ (new2 & Hm2 & Hc2 & Hl2)].
  - exists []. by rewrite app_nil_r, Nat.add_0_r.
  - apply batch_run_rows in Hb as (new1 & Hm1 & Hn1 & Hl1).
    exists (new1 ++ new2). rewrite Hm2, Hm1, <- app_assoc.
    cbn [concat]. rewrite !length_app. split; [done|]. lia.
Qed.

Lemma batches_have_a_run account userId bs : forall (w : World) c,
  exists w' c', batches_run account userId bs w c w' c'.
Proof.
  induction bs as [|batch rest IH]; intros w c.
  - exists w, c. apply batches_nil.
  - destruct (batch_has_a_run account userId 2 batch [] w eq_refl)
      as (w1 & calls & Hs & Hr).
    destruct (IH w1 (c + saved_count calls)%nat) as (w2 & c2 & Hrest).
    exists w2, c2. eapply batches_cons; [|exact Hrest].
    exists calls. done.
Qed.

(** X26.  However the calls of a batch interleave, the number
    [saveMessagesToDatabase] answers is the number of Message rows the run
    added; the rows that were there are unchanged and the number is at
    most the number of messages.  A run exists for every list of messages
    and every outcome of the database calls. *)
Theorem synced_count_is_rows_added account messages userId (w : World) :
  (exists syncedCount w',
      saveMessagesToDatabase account messages userId w syncedCount w')
  /\ forall syncedCount w',
       saveMessagesToDatabase account messages userId w syncedCount w' ->
       exists new,
         emailMessages w' = emailMessages w ++ new
         /\ length new = syncedCount
         /\ (syncedCount <= length messages)%nat.
Proof.
  split.
  { destruct (batches_have_a_run account userId (batches messages) w 0%nat)
      as (w' & c' & H). by exists c', w'. }
  intros syncedCount w' Hrun.
  apply batches_run_rows in Hrun as (new & Hm & Hc & Hl).
  destruct (batches_from_spec (length messages) 0 messages) as (Hcat & _);
    [lia|].
  fold (batches messages) in Hcat. rewrite Hcat, drop_0 in Hl.
  exists new. split; [done|]. split; lia.
Qed.

End Engine.

(** * Scenarios *)

Abbreviation demo_world accounts outcomes :=
  (mkWorld accounts [] [] [] 0 0 ∅ 0 0%nat outcomes []).

Abbreviation demo_route n :=
  (send_route Scenario.oauth_accepts Scenario.all_valid (Scenario.scored n)
     Scenario.keep_html Scenario.no_headers Scenario.always_allowed
     Scenario.count_up Scenario.raw).

(** C2 (the code departs from the claim).  Two inbound messages with the
    provider thread id [T1] arrive in an empty store and every statement
    completes.  Both are saved, and the second opens a thread of its own:
    the thread the first one created carries no provider thread id, so the
    lookup for [T1] finds nothing. *)
Theorem second_message_opens_second_thread :
  let run1 := saveMessageWithRetry Scenario.first_message
                Scenario.smtp_account (js "user-1") 2 (empty_world 0%nat) in
  let run2 := saveMessageWithRetry Scenario.second_message
                Scenario.smtp_account (js "user-1") 2 (snd run1) in
  fst run1 = Val true /\ fst run2 = Val true
  /\ find_thread (js "T1") (emailThreads (snd run1)) = None
  /\ map th_id (emailThreads (snd run2)) = [0; 2]%nat
  /\ map msg_threadId (emailMessages (snd run2)) = [0; 2]%nat
  /\ map th_messageCount (emailThreads (snd run2)) = [0; 0].
Proof. by vm_compute. Qed.

(** C3 (the code departs from the claim).  After one inbound message is
    saved into an empty store, one Message references the new thread and
    the thread's [messageCount] is still 0; [lastMessageAt] is the date the
    row was created with.  The send route, for the same store, leaves a
    count of 1 for its one Message. *)
Theorem inbound_insert_leaves_count_at_zero :
  let run := saveMessageWithRetry Scenario.first_message
               Scenario.smtp_account (js "user-1") 2 (empty_world 0%nat) in
  let sent := demo_route 0
                (Scenario.with_text (js "user-1") "a long enough text")
                (demo_world [Scenario.smtp_account] []) in
  fst run = Val true
  /\ map th_id (emailThreads (snd run)) = [0%nat]
  /\ references 0 (snd run) = 1%nat
  /\ map th_messageCount (emailThreads (snd run)) = [0]
  /\ references 0 (snd sent) = 1%nat
  /\ map th_messageCount (emailThreads (snd sent)) = [1].
Proof. by vm_compute. Qed.

(** C6 (the code departs from the claim).  The result of [sanitizeHtml]
    can hold a script element, a handler attribute and a style element.
    Of a script element split around another one, the first pass deletes
    the inner element, its only match, and the text is not read again: what
    is left is a whole script element.  A handler attribute whose value is
    bare or in single quotes matches nothing in the second pass and stays
    as it is.  No pass is about style elements.  What is persisted is the
    sanitized body, as the claim says: every Message row that
    [saveMessageWithRetry] inserts holds [sanitizeHtml] of the body it was
    given; so the inbound message with the split script is saved with the
    script element as its [htmlBody]. *)
Theorem sanitizeHtml_leaves_live_script :
  let run := saveMessageWithRetry Scenario.script_message
               Scenario.smtp_account (js "user-1") 2 (empty_world 0%nat) in
  sanitizeHtml (js "<scr<script></script>ipt>alert(1)</script>")
  = js "<script>alert(1)</script>"
  /\ sanitizeHtml (js "<img src=x onerror=alert(1)>")
     = js "<img src=x onerror=alert(1)>"
  /\ sanitizeHtml (js "<img src=x onerror='alert(1)'>")
     = js "<img src=x onerror='alert(1)'>"
  /\ sanitizeHtml (js "<b>x</b><style>p{color:red}</style>")
     = js "<b>x</b><style>p{color:red}</style>"
  /\ fst run = Val true
  /\ map msg_htmlBody (emailMessages (snd run))
     = [js "<script>alert(1)</script>"]
  /\ (forall message account userId retries (w w' : @World nat),
        saveMessageWithRetry message account userId retries w
        = (Val true, w') ->
        exists m,
          emailMessages w' = emailMessages w ++ [m]
          /\ msg_externalMessageId m = Some (externalMessageId message)
          /\ msg_htmlBody m = sanitizeHtml (em_htmlBody message)).
Proof.
  cbv zeta. do 6 (split; [by vm_compute|]).
  intros message account userId retries w w' Hrun.
  destruct (saveMessageWithRetry_outcome message account userId retries w)
    as (b & w2 & H & Ho & _).
  rewrite Hrun in H. injection H as <- <-.
  inversion Ho; subst; eauto.
Qed.

(** C1 at work: the first message is synced into an empty store, then
    synced again. *)
Lemma resync_persists_once_witness :
  let w1 := snd (saveMessageWithRetry Scenario.first_message
                   Scenario.smtp_account (js "user-1") 2
                   (empty_world 0%nat)) in
  stored (js "M1") w1
  /\ exists w2,
       saveMessageWithRetry Scenario.first_message Scenario.smtp_account
         (js "user-1") 2 w1 = (Val false, w2)
       /\ emailMessages w2 = emailMessages w1
       /\ emailThreads w2 = emailThreads w1.
Proof.
  cbv zeta.
  assert (Hs : stored (js "M1")
                 (snd (saveMessageWithRetry Scenario.first_message
                         Scenario.smtp_account (js "user-1") 2
                         (empty_world 0%nat)))).
  { eexists. split; [left; reflexivity|]. vm_compute. reflexivity. }
  split; [exact Hs|].
  exact (proj1 (proj2 (resync_persists_once Scenario.first_message
                         Scenario.smtp_account (js "user-1") 2 _)) Hs).
Defined.


(** C5 at work: no text body and the HTML body [<p>hi</p>]. *)
Lemma short_text_is_rejected_witness :
  let req := Scenario.html_only (js "user-1") "<p>hi</p>" in
  let w := demo_world [Scenario.smtp_account] [] in
  final_text_of Scenario.keep_html req = js "hi"
  /\ exists resp w',
       demo_route 0 req w = (Val resp, w')
       /\ resp = InsufficientContent
       /\ emailMessages w' = [].
Proof.
  cbv zeta.
  assert (Hg : passes_gates Scenario.all_valid Scenario.always_allowed
      (Scenario.html_only (js "user-1") "<p>hi</p>")
      (demo_world [Scenario.smtp_account] []) Scenario.smtp_account
      (demo_world [Scenario.smtp_account] [])).
  { split; [reflexivity|]. split; [|reflexivity].
    vm_compute. reflexivity. }
  destruct (short_text_is_rejected Scenario.oauth_accepts
              Scenario.all_valid (Scenario.scored 0)
              Scenario.keep_html Scenario.no_headers
              Scenario.always_allowed Scenario.count_up Scenario.raw
              (Scenario.html_only (js "user-1") "<p>hi</p>")
              (demo_world [Scenario.smtp_account] [])
              eq_refl eq_refl)
    as (_ & Hhi & resp & w' & Hrun & _ & Hm & _ & _ & Hrej).
  split; [apply Hhi; reflexivity|].
  exists resp, w'. split; [exact Hrun|]. split; [|exact Hm].
  apply (Hrej _ _ Hg). reflexivity.
Defined.

(** C7 at work: a send the provider confirms is recorded once. *)
Lemma recordEmailSent_iff_confirmed_witness :
  exists resp w',
    demo_route 0 (Scenario.with_text (js "user-1") "a long enough text")
      (demo_world [Scenario.smtp_account] []) = (Val resp, w')
    /\ (forall mid tid sr,
          resp = Created mid tid sr ->
          (success sr = true <-> count is_recorded (trace w') = 1%nat)).
Proof.
  destruct (recordEmailSent_iff_confirmed Scenario.oauth_accepts
              Scenario.all_valid
              (Scenario.scored 0) Scenario.keep_html Scenario.no_headers
              Scenario.always_allowed Scenario.count_up Scenario.raw
              (Scenario.with_text (js "user-1") "a long enough text")
              (demo_world [Scenario.smtp_account] []))
    as (resp & w' & Hrun & _ & Hiff & _).
  exists resp, w'. split; [exact Hrun|exact Hiff].
Defined.

(** C9: two calls that both start before either [verify] settles construct
    two connections and verify twice. *)
Lemma two_callers_verify_twice :
  exists w' cs',
    steps Scenario.smtp_account
      (empty_world 0%nat, [NotStarted; NotStarted]) (w', cs')
    /\ forallb settled cs' = true
    /\ count is_create (trace w') = 2%nat
    /\ count is_verify (trace w') = 2%nat.
Proof.
  eexists _, _. split.
  - eapply steps_step; [by apply (step_start _ 0)|].
    eapply steps_step; [by apply (step_start _ 1)|].
    eapply steps_step;
      [eapply (step_resume _ 0 _ true); cbv; reflexivity|].
    eapply steps_step;
      [eapply (step_resume _ 1 _ true); cbv; reflexivity|].
    apply steps_refl.
  - by vm_compute.
Qed.

(** C9 at work: a pool of three calls. *)
Lemma verification_per_cache_miss_witness :
  exists w' cs',
    steps Scenario.smtp_account
      (empty_world 0%nat, replicate 3 NotStarted) (w', cs')
    /\ length cs' = 3%nat
    /\ forallb settled cs' = true
    /\ count is_create (trace w') = 3%nat
    /\ count is_verify (trace w') = 3%nat.
Proof.
  exact (proj2 (verification_per_cache_miss Scenario.smtp_account) 3%nat
           (empty_world 0%nat) eq_refl).
Defined.

(** C10: the user owns an account and the account query throws;
    [getDefaultAccount] answers [null]. *)
Lemma getDefaultAccount_null_on_query_error :
  let w := demo_world [Scenario.smtp_account] [Raise (js "connection lost")] in
  accounts_of (js "user-1") (emailAccounts w) = [Scenario.smtp_account]
  /\ fst (getDefaultAccount (js "user-1") w) = Val None.
Proof. by vm_compute. Qed.

(** C10 at work: the only account of the user is neither default nor
    active; it is chosen, and the send is refused at dispatch. *)
Lemma getDefaultAccount_selection_witness :
  let req := Scenario.with_text (js "user-2") "a long enough text" in
  let w := demo_world [Scenario.inactive_account] [] in
  first_in_order (accounts_of (js "user-2") (emailAccounts w))
  = Some Scenario.inactive_account
  /\ exists mid tid w',
       demo_route 0 req w = (Val (Created mid tid refused), w').
Proof.
  cbv zeta.
  assert (Hg : passes_gates Scenario.all_valid Scenario.always_allowed
      (Scenario.with_text (js "user-2") "a long enough text")
      (demo_world [Scenario.inactive_account] []) Scenario.inactive_account
      (demo_world [Scenario.inactive_account] [])).
  { split; [reflexivity|]. split; [|reflexivity].
    vm_compute. reflexivity. }
  apply (proj2 (proj2 (proj2
           (getDefaultAccount_selection Scenario.oauth_accepts
              Scenario.all_valid
              (Scenario.scored 0) Scenario.keep_html Scenario.no_headers
              Scenario.always_allowed Scenario.count_up Scenario.raw
              (js "user-2") (demo_world [Scenario.inactive_account] []))))
           (Scenario.with_text (js "user-2") "a long enough text")
           Scenario.inactive_account
           (demo_world [Scenario.inactive_account] [])).
  - reflexivity.
  - reflexivity.
  - exact Hg.
  - reflexivity.
  - repeat constructor. intros H. inversion H.
  - reflexivity.
  - reflexivity.
  - reflexivity.
Defined.

(** * Further scenarios *)

(** X1 at work: an unclosed script element and a single-quoted handler. *)
Lemma sanitizeHtml_keeps_what_has_no_slash_or_quote_witness :
  sanitizeHtml (js "<script>alert(1)<img onerror='x()'>")
  = js "<script>alert(1)<img onerror='x()'>".
Proof.
  apply sanitizeHtml_keeps_what_has_no_slash_or_quote.
  vm_compute. repeat (constructor; [by split|]). constructor.
Defined.

(** X2 at work: the body [<p>hi</p>]. *)
Lemma strip_tags_cuts_closed_tag_witness :
  strip_tags ([] ++ (lt_sign :: js "p" ++ [gt_sign]) ++ js "hi</p>")
  = trim ([] ++ remove_all tag_re (js "hi</p>")).
Proof.
  apply strip_tags_cuts_closed_tag.
  - constructor.
  - vm_compute. repeat (constructor; [done|]). constructor.
Defined.

(** X3 at work: a comparison in plain text. *)
Lemma strip_tags_keeps_unclosed_bracket_witness :
  strip_tags (js " 1 < 2 ") = trim (js " 1 < 2 ").
Proof.
  apply strip_tags_keeps_unclosed_bracket.
  vm_compute. repeat (constructor; [done|]). constructor.
Defined.

(** X4 at work: a second call for the SMTP account. *)
Lemma cached_transporter_is_reused_witness :
  let w1 := snd (getOrCreateTransporter Scenario.smtp_account
                   (empty_world 0%nat)) in
  exists w3,
    getOrCreateTransporter Scenario.smtp_account w1
    = (Val (transporter_for Scenario.smtp_account 0), w3)
    /\ count is_verify (trace w3) = count is_verify (trace w1).
Proof.
  cbv zeta.
  destruct (cached_transporter_is_reused Scenario.smtp_account
              Scenario.smtp_account (empty_world 0%nat)
              (snd (getOrCreateTransporter Scenario.smtp_account
                      (empty_world 0%nat)))
              (snd (getOrCreateTransporter Scenario.smtp_account
                      (empty_world 0%nat)))
              (transporter_for Scenario.smtp_account 0)
              eq_refl eq_refl eq_refl)
    as (w3 & Hrun & _ & _ & Hv & _).
  exists w3. split; [exact Hrun|exact Hv].
Defined.

(** X6 at work: the deactivated account. *)
Lemma sendFromAccount_refuses_missing_or_inactive_witness :
  exists w',
    sendFromAccount Scenario.oauth_accepts (js "acc-2") Scenario.mail
      (demo_world [Scenario.inactive_account] [])
    = (Val refused, w').
Proof.
  destruct (sendFromAccount_refuses_missing_or_inactive
              Scenario.oauth_accepts (js "acc-2")
              Scenario.mail (demo_world [Scenario.inactive_account] []))
    as (w' & Hrun & _).
  - exact I.
  - intros a Ha. vm_compute in Ha. injection Ha as <-. reflexivity.
  - exists w'. exact Hrun.
Defined.

(** X7 at work: an account of a provider without a branch. *)
Lemma sendFromAccount_unsupported_provider_witness :
  exists w',
    sendFromAccount Scenario.oauth_accepts (js "acc-3") Scenario.mail
      (demo_world [Scenario.yahoo_account] [])
    = (Val (send_failed (js "Unsupported provider: yahoo")), w').
Proof.
  destruct (sendFromAccount_unsupported_provider
              Scenario.oauth_accepts (js "acc-3")
              Scenario.mail (demo_world [Scenario.yahoo_account] [])
              Scenario.yahoo_account)
    as (w' & Hrun & _).
  - exact I.
  - reflexivity.
  - reflexivity.
  - reflexivity.
  - exists w'. exact Hrun.
Defined.

(** X11 at work: the connection test of a Gmail account. *)
Lemma testAccountConnection_oauth_is_not_tested_witness :
  exists w',
    testAccountConnection (js "acc-4")
      (demo_world [Scenario.gmail_account] [])
    = (Val (mkConnectionResult true None), w')
    /\ trace w' = [].
Proof.
  destruct (testAccountConnection_oauth_is_not_tested (js "acc-4")
              (demo_world [Scenario.gmail_account] [])
              Scenario.gmail_account)
    as (w' & Hrun & Ht & _).
  - exact I.
  - reflexivity.
  - left. reflexivity.
  - exists w'. split; [exact Hrun|exact Ht].
Defined.

(** X15 at work: three failing lookups with the default of two retries. *)
Lemma gives_up_after_all_attempts_fail_witness :
  exists w',
    saveMessageWithRetry Scenario.first_message Scenario.smtp_account
      (js "user-1") 2
      (demo_world [] [Raise (js "down"); Raise (js "down");
                      Raise (js "down")])
    = (Val false, w')
    /\ clock w' = 3000
    /\ emailMessages w' = [].
Proof.
  destruct (gives_up_after_all_attempts_fail Scenario.first_message
              Scenario.smtp_account (js "user-1") 2
              (demo_world [] [Raise (js "down"); Raise (js "down");
                              Raise (js "down")])
              [js "down"; js "down"; js "down"] [])
    as (w' & Hrun & _ & Hc & Hm & _).
  - lia.
  - reflexivity.
  - reflexivity.
  - exists w'. split; [exact Hrun|]. split; [exact Hc|exact Hm].
Defined.

(** X16 at work: three passes whose message insert fails. *)
Lemma failed_inserts_leave_orphan_threads_witness :
  let f := (js "", js "", js "down") in
  exists w' new,
    saveMessageWithRetry Scenario.loose_message Scenario.smtp_account
      (js "user-1") 2
      (demo_world [] (concat (map failing_insert [f; f; f]) ++ []))
    = (Val false, w')
    /\ emailMessages w' = []
    /\ emailThreads w' = [] ++ new
    /\ length new = 3%nat.
Proof.
  cbv zeta.
  destruct (failed_inserts_leave_orphan_threads Scenario.loose_message
              Scenario.smtp_account (js "user-1") 2
              (demo_world [] (concat (map failing_insert
                 [(js "", js "", js "down"); (js "", js "", js "down");
                  (js "", js "", js "down")]) ++ []))
              [(js "", js "", js "down"); (js "", js "", js "down");
               (js "", js "", js "down")] [])
    as (w' & new & Hrun & _ & Hm & Ht & Hl & _).
  - lia.
  - reflexivity.
  - reflexivity.
  - reflexivity.
  - reflexivity.
  - exists w', new. split; [exact Hrun|]. split; [exact Hm|].
    split; [exact Ht|exact Hl].
Defined.

(** X18 at work: a send by the owner of the SMTP account. *)
Lemma created_answer_has_its_message_row_witness :
  let req := Scenario.with_text (js "user-1") "a long enough text" in
  let w := demo_world [Scenario.smtp_account] [] in
  exists m,
    emailMessages (snd (demo_route 0 req w)) = [] ++ [m]
    /\ msg_messageType m = MtSent
    /\ msg_emailAccountId m = Some (js "acc-1")
    /\ msg_textBody m = js "a long enough text".
Proof.
  cbv zeta.
  assert (Hrun :
    demo_route 0 (Scenario.with_text (js "user-1") "a long enough text")
      (demo_world [Scenario.smtp_account] [])
    = (Val (Created 1 0 (sent_ok [])),
       snd (demo_route 0
              (Scenario.with_text (js "user-1") "a long enough text")
              (demo_world [Scenario.smtp_account] [])))).
  { vm_compute. reflexivity. }
  apply created_answer_has_its_message_row in Hrun
    as (a & Hin & _ & _ & Hm).
  destruct Hin as [<-|[]].
  eexists. split; [exact Hm|]. split; [reflexivity|].
  split; reflexivity.
Defined.

(** X19 at work: the thread the same send opens. *)
Lemma created_answer_counts_the_thread_witness :
  let req := Scenario.with_text (js "user-1") "a long enough text" in
  let w := demo_world [Scenario.smtp_account] [] in
  map th_messageCount (emailThreads (snd (demo_route 0 req w))) = [1].
Proof.
  cbv zeta.
  assert (Hrun :
    demo_route 0 (Scenario.with_text (js "user-1") "a long enough text")
      (demo_world [Scenario.smtp_account] [])
    = (Val (Created 1 0 (sent_ok [])),
       snd (demo_route 0
              (Scenario.with_text (js "user-1") "a long enough text")
              (demo_world [Scenario.smtp_account] [])))).
  { vm_compute. reflexivity. }
  apply created_answer_counts_the_thread in Hrun as (a & Ht & _).
  rewrite Ht. reflexivity.
Defined.

(** X20 at work: a send with one uploaded file. *)
Lemma created_answer_stores_the_attachments_witness :
  let w := demo_world [Scenario.smtp_account] [] in
  emailAttachments (snd (demo_route 0 (Scenario.with_file (js "user-1")) w))
  = [mkAttachment 1 (js "a.txt") 2 (js "text/plain") [104%N; 105%N]].
Proof.
  cbv zeta.
  assert (Hrun :
    demo_route 0 (Scenario.with_file (js "user-1"))
      (demo_world [Scenario.smtp_account] [])
    = (Val (Created 1 0 (sent_ok [])),
       snd (demo_route 0 (Scenario.with_file (js "user-1"))
              (demo_world [Scenario.smtp_account] [])))).
  { vm_compute. reflexivity. }
  apply created_answer_stores_the_attachments in Hrun.
  rewrite Hrun. reflexivity.
Defined.

(** X21 at work: a request with too little text. *)
Lemma rejected_requests_write_nothing_witness :
  let req := Scenario.html_only (js "user-1") "<p>hi</p>" in
  let w := demo_world [Scenario.smtp_account] [] in
  fst (demo_route 0 req w) = Val InsufficientContent
  /\ emailMessages (snd (demo_route 0 req w)) = []
  /\ emailThreads (snd (demo_route 0 req w)) = [].
Proof.
  cbv zeta.
  assert (Hrun :
    demo_route 0 (Scenario.html_only (js "user-1") "<p>hi</p>")
      (demo_world [Scenario.smtp_account] [])
    = (Val InsufficientContent,
       snd (demo_route 0 (Scenario.html_only (js "user-1") "<p>hi</p>")
              (demo_world [Scenario.smtp_account] [])))).
  { vm_compute. reflexivity. }
  split; [by rewrite Hrun|].
  apply rejected_requests_write_nothing in Hrun as (Hm & Ht & _).
  - split; [exact Hm|exact Ht].
  - left. reflexivity.
Defined.

(** X22 at work: the same send, with no call failing. *)
Lemma answer_500_needs_a_failing_call_witness :
  exists resp w',
    demo_route 0 (Scenario.with_text (js "user-1") "a long enough text")
      (demo_world [Scenario.smtp_account] []) = (Val resp, w')
    /\ (status resp = 400 \/ status resp = 429 \/ status resp = 201).
Proof.
  apply answer_500_needs_a_failing_call. reflexivity.
Defined.

(** X23 at work: a user names the account of another user. *)
Lemma foreign_account_is_not_used_witness :
  exists w',
    demo_route 0 (Scenario.from_account (js "user-2") (js "acc-1"))
      (demo_world [Scenario.smtp_account] [])
    = (Val NoAccountConfigured, w')
    /\ emailMessages w' = [].
Proof.
  destruct (foreign_account_is_not_used Scenario.oauth_accepts
              Scenario.all_valid
              (Scenario.scored 0) Scenario.keep_html Scenario.no_headers
              Scenario.always_allowed Scenario.count_up Scenario.raw
              (Scenario.from_account (js "user-2") (js "acc-1"))
              (demo_world [Scenario.smtp_account] []))
    as (w' & Hrun & Hm & _).
  - reflexivity.
  - reflexivity.
  - exact I.
  - intros a [<-|[]] _. vm_compute. discriminate.
  - exists w'. split; [exact Hrun|exact Hm].
Defined.
